(** * insta-translate: the translation pipeline and its local store

    A shallow embedding of the parts of the application that carry the
    pipeline: [services/DatabaseService] (the SQLite store),
    [screens/TranslateScreen] (transcription), [components/TranslationForm]
    (translation), [components/SettingsForm] and [screens/SpeakerScreen]
    (refinement and persistence).

    JavaScript [async] functions are modelled as state-passing functions
    that return a completion (the promise resolves or rejects) together
    with the new state.  What the environment does (the SQLite driver, the
    file system, the three web services) is an explicit argument of the
    function that calls it.  Where the code starts calls without awaiting
    them (the effect of the speaker screen), the order in which their
    parts are executed is explicit as well: a schedule of events. *)

From Stdlib Require Import String Ascii List ZArith Lia Bool.
From Stdlib Require Import Sorted DecimalString.
Import ListNotations.

Open Scope string_scope.
Open Scope list_scope.
Open Scope Z_scope.

(** ** Completions *)

Inductive exn : Type :=
| TypeError (msg : string)
| ReferenceError (msg : string)
| SyntaxError (msg : string)
| SQLiteError (msg : string)
| NetworkError (msg : string)
| FileSystemError (msg : string)
| Error (msg : string).

Inductive completion (A : Type) : Type :=
| Resolved (v : A)
| Rejected (e : exn).

Arguments Resolved {A} v.
Arguments Rejected {A} e.

(** An async function over a state [S]. *)
Definition async (S A : Type) : Type := S -> completion A * S.

Definition ret {S A} (v : A) : async S A := fun s => (Resolved v, s).

Definition throw {S A} (e : exn) : async S A := fun s => (Rejected e, s).

Definition bind {S A B} (m : async S A) (k : A -> async S B) : async S B :=
  fun s =>
    match m s with
    | (Resolved v, s') => k v s'
    | (Rejected e, s') => (Rejected e, s')
    end.

(** [try { body } catch (error) { handler }] *)
Definition try_catch {S A} (body : async S A) (handler : exn -> async S A)
  : async S A :=
  fun s =>
    match body s with
    | (Resolved v, s') => (Resolved v, s')
    | (Rejected e, s') => handler e s'
    end.

(** [try { body } finally { final }]: [final] runs on both exits and the
    completion of [body] is kept unless [final] itself throws. *)
Definition try_finally {S A} (body : async S A) (final : async S unit)
  : async S A :=
  fun s =>
    match body s with
    | (r, s') =>
        match final s' with
        | (Resolved _, s'') => (r, s'')
        | (Rejected e, s'') => (Rejected e, s'')
        end
    end.

(** A call whose promise is neither awaited nor given a handler: its
    effects happen, its completion is dropped. *)
Definition detach {S A} (m : async S A) : async S unit :=
  fun s => (Resolved tt, snd (m s)).

Declare Scope async_scope.
Delimit Scope async_scope with async.
Notation "'let!' x ':=' m 'in' k" := (bind m (fun x => k))
  (at level 10, x name, m at level 100, k at level 200) : async_scope.
Notation "m '>>' k" := (bind m (fun _ => k))
  (at level 65, right associativity) : async_scope.
Open Scope async_scope.

(** ** JavaScript values used by the pipeline *)

(** Truthiness of a string: only the empty string is falsy. *)
Definition truthy (s : string) : bool :=
  match s with EmptyString => false | String _ _ => true end.

(** [v || d] for a string-or-undefined [v]. *)
Definition or_default (v : option string) (d : string) : string :=
  match v with
  | Some s => if truthy s then s else d
  | None => d
  end.

(** A [string] holds the UTF-8 encoding of the JavaScript string. *)
Definition utf8 (bytes : list nat) : string :=
  string_of_list_ascii (map ascii_of_nat bytes).

(** The characters [String.prototype.trim] removes, by their encoding:
    WhiteSpace and LineTerminator of ECMAScript, that is TAB, LF, VT, FF,
    CR, SPACE, U+00A0, U+1680, U+2000 to U+200A, U+2028, U+2029, U+202F,
    U+205F, U+3000 and U+FEFF. *)
Definition white_space : list string :=
  map utf8
    [ [9]; [10]; [11]; [12]; [13]; [32];
      [194; 160];
      [225; 154; 128];
      [226; 128; 128]; [226; 128; 129]; [226; 128; 130]; [226; 128; 131];
      [226; 128; 132]; [226; 128; 133]; [226; 128; 134]; [226; 128; 135];
      [226; 128; 136]; [226; 128; 137]; [226; 128; 138];
      [226; 128; 168]; [226; 128; 169];
      [226; 128; 175];
      [226; 129; 159];
      [227; 128; 128];
      [239; 187; 191] ]%nat.

(** The rest of [s] after the prefix [p]. *)
Fixpoint strip_prefix (p s : string) : option string :=
  match p, s with
  | EmptyString, _ => Some s
  | String a p', String b s' =>
      if Ascii.eqb a b then strip_prefix p' s' else None
  | String _ _, EmptyString => None
  end.

Fixpoint strip_first (ps : list string) (s : string) : option string :=
  match ps with
  | [] => None
  | p :: rest =>
      match strip_prefix p s with
      | Some t => Some t
      | None => strip_first rest s
      end
  end.

(** The rest of a string that starts with white space. *)
Definition skip_white_space (s : string) : option string :=
  strip_first white_space s.

(** [n] bounds the number of characters removed. *)
Fixpoint trimStart_from (n : nat) (s : string) : string :=
  match n with
  | O => s
  | S k =>
      match skip_white_space s with
      | Some rest => trimStart_from k rest
      | None => s
      end
  end.

Definition trimStart (s : string) : string :=
  trimStart_from (String.length s) s.

(** The string is cut where only white space follows. *)
Fixpoint trimEnd (s : string) : string :=
  match s with
  | EmptyString => EmptyString
  | String c rest =>
      match trimStart s with
      | EmptyString => EmptyString
      | String _ _ => String c (trimEnd rest)
      end
  end.

Definition trim (s : string) : string := trimEnd (trimStart s).


(** [s.replace(pattern, replacement)] with a string pattern: the first
    occurrence only. *)
Definition replace (pattern replacement s : string) : string :=
  match String.index 0 pattern s with
  | Some i =>
      String.substring 0 i s ++ replacement
        ++ String.substring (i + String.length pattern)
             (String.length s - (i + String.length pattern)) s
  | None => s
  end.

(** [parts.join(sep)] *)
Fixpoint join (sep : string) (parts : list string) : string :=
  match parts with
  | [] => ""
  | [p] => p
  | p :: rest => p ++ sep ++ join sep rest
  end.

(** ** The application state outside the components *)

Record settings_row : Type := {
  settings_id : Z;
  settings_language : option string   (* TEXT DEFAULT 'en', nullable *)
}.

Record translation_row : Type := {
  row_id : Z;
  original_text : string;
  language : string;
  translated_text : string
}.

(** The database file [insta-translate.db]: a table is [None] until its
    [CREATE TABLE] ran; [sequence] is the largest rowid the AUTOINCREMENT
    column of [translations] ever used. *)
Record database : Type := {
  settings : option (list settings_row);
  translations : option (list translation_row);
  sequence : Z
}.

(** What the pipeline sends over the network. *)
Inductive request : Type :=
| SpeechRecognize (encoding : string) (sampleRateHertz : Z)
    (languageCode : string) (content : string)
| Translate (q : string) (source : string) (target : option string)
    (format : string)
| ChatCompletion (content : string).

(** A file of the device, as [expo-file-system] shows it. *)
Inductive file_entry : Type :=
| NoSuchFile                       (* getInfoAsync: exists = false *)
| InfoFails (e : exn)              (* getInfoAsync rejects *)
| ReadFails (e : exn)              (* exists, readAsStringAsync rejects *)
| Base64 (content : string).       (* exists, content as read *)

Record world : Type := {
  db : bool;                        (* [let db;] is bound to a handle *)
  file : database;
  files : string -> file_entry;
  console : list string;            (* console.error *)
  alerts : list (string * string);  (* Alert.alert(title, message) *)
  network : list request            (* fetch calls, oldest first *)
}.

Definition with_db (b : bool) (w : world) : world :=
  {| db := b; file := file w; files := files w; console := console w;
     alerts := alerts w; network := network w |}.

Definition with_file (d : database) (w : world) : world :=
  {| db := db w; file := d; files := files w; console := console w;
     alerts := alerts w; network := network w |}.

Definition console_error (msg : string) : async world unit :=
  fun w =>
    (Resolved tt,
     {| db := db w; file := file w; files := files w;
        console := console w ++ [msg];
        alerts := alerts w; network := network w |}).

Definition Alert_alert (title msg : string) : async world unit :=
  fun w =>
    (Resolved tt,
     {| db := db w; file := file w; files := files w; console := console w;
        alerts := alerts w ++ [(title, msg)]; network := network w |}).

(** ** expo-sqlite, restricted to the statements the service issues

    [io] is what the driver does with the call for reasons outside the
    program (disk, locking, corruption): [None] lets the statement run. *)

Definition fault : Type := option exn.

(** [SQLite.openDatabaseSync("insta-translate.db")] followed by the
    assignment to [db]: no assignment when the call throws. *)
Definition openDatabaseSync (io : fault) : async world unit :=
  fun w =>
    match io with
    | Some e => (Rejected e, w)
    | None => (Resolved tt, with_db true w)
    end.

(** A method call on [db]: a TypeError while [db] is undefined. *)
Definition statement {A} (io : fault)
  (run : database -> completion A * database) : async world A :=
  fun w =>
    if db w then
      match io with
      | Some e => (Rejected e, w)
      | None =>
          match run (file w) with
          | (Resolved v, d) => (Resolved v, with_file d w)
          | (Rejected e, _) => (Rejected e, w)
          end
      end
    else (Rejected (TypeError "Cannot read property of undefined"), w).

Definition no_such_table (name : string) : exn :=
  SQLiteError ("no such table: " ++ name).

Module SQL.

(** CREATE TABLE IF NOT EXISTS settings (...) *)
Definition create_settings (d : database) : completion unit * database :=
  (Resolved tt,
   {| settings := match settings d with Some l => Some l | None => Some [] end;
      translations := translations d; sequence := sequence d |}).

(** CREATE TABLE IF NOT EXISTS translations (...) *)
Definition create_translations (d : database)
  : completion unit * database :=
  (Resolved tt,
   {| settings := settings d;
      translations :=
        match translations d with Some l => Some l | None => Some [] end;
      sequence := sequence d |}).

(** SELECT COUNT( * ) as count FROM settings *)
Definition count_settings (d : database) : completion Z * database :=
  match settings d with
  | Some l => (Resolved (Z.of_nat (List.length l)), d)
  | None => (Rejected (no_such_table "settings"), d)
  end.

(** INSERT INTO settings (id, language) VALUES (1, 'en') *)
Definition insert_default_settings (d : database)
  : completion unit * database :=
  match settings d with
  | Some l =>
      if existsb (fun r => settings_id r =? 1) l
      then (Rejected (SQLiteError "UNIQUE constraint failed: settings.id"), d)
      else (Resolved tt,
            {| settings :=
                 Some (l ++ [{| settings_id := 1;
                                settings_language := Some "en" |}]);
               translations := translations d; sequence := sequence d |})
  | None => (Rejected (no_such_table "settings"), d)
  end.

Definition matches (originalText lang : string) (r : translation_row)
  : bool :=
  String.eqb (original_text r) originalText && String.eqb (language r) lang.

(** SELECT * FROM translations WHERE original_text = ? AND language = ?
    through [getFirstAsync]: the first row or null.  A null parameter
    compares equal to nothing. *)
Definition select_translation (originalText : string)
  (lang : option string) (d : database)
  : completion (option translation_row) * database :=
  match translations d with
  | Some l =>
      match lang with
      | Some c => (Resolved (find (matches originalText c) l), d)
      | None => (Resolved None, d)
      end
  | None => (Rejected (no_such_table "translations"), d)
  end.

Definition max_rowid (l : list translation_row) : Z :=
  fold_right (fun r m => Z.max (row_id r) m) 0 l.

(** INSERT INTO translations (original_text, language, translated_text)
    VALUES (?, ?, ?): AUTOINCREMENT takes a rowid above every rowid the
    table has or ever had; [language] is NOT NULL. *)
Definition insert_translation (originalText : string)
  (lang : option string) (translatedText : string)
  (d : database) : completion unit * database :=
  match translations d with
  | Some l =>
      match lang with
      | Some c =>
          let i := Z.max (sequence d) (max_rowid l) + 1 in
          (Resolved tt,
           {| settings := settings d;
              translations :=
                Some (l ++ [{| row_id := i; original_text := originalText;
                               language := c;
                               translated_text := translatedText |}]);
              sequence := i |})
      | None =>
          (Rejected
             (SQLiteError "NOT NULL constraint failed: translations.language"),
           d)
      end
  | None => (Rejected (no_such_table "translations"), d)
  end.

(** SELECT * FROM translations *)
Definition select_translations (d : database)
  : completion (list translation_row) * database :=
  match translations d with
  | Some l => (Resolved l, d)
  | None => (Rejected (no_such_table "translations"), d)
  end.

(** SELECT * FROM settings *)
Definition select_settings (d : database)
  : completion (list settings_row) * database :=
  match settings d with
  | Some l => (Resolved l, d)
  | None => (Rejected (no_such_table "settings"), d)
  end.

(** UPDATE settings SET language = ? WHERE id = 1 *)
Definition update_settings (lang : string) (d : database)
  : completion unit * database :=
  match settings d with
  | Some l =>
      (Resolved tt,
       {| settings :=
            Some (map (fun r =>
                         if settings_id r =? 1
                         then {| settings_id := settings_id r;
                                 settings_language := Some lang |}
                         else r) l);
          translations := translations d; sequence := sequence d |})
  | None => (Rejected (no_such_table "settings"), d)
  end.

(** DELETE FROM translations WHERE id = ? *)
Definition delete_translation (i : Z) (d : database)
  : completion unit * database :=
  match translations d with
  | Some l =>
      (Resolved tt,
       {| settings := settings d;
          translations := Some (filter (fun r => negb (row_id r =? i)) l);
          sequence := sequence d |})
  | None => (Rejected (no_such_table "translations"), d)
  end.

End SQL.

(** ** services/DatabaseService *)

Module DatabaseService.

Definition setupDatabase (io_open io_settings io_translations : fault)
  : async world unit :=
  try_catch
    (openDatabaseSync io_open >>
     statement io_settings SQL.create_settings >>
     statement io_translations SQL.create_translations)
    (fun _ => console_error "Error connecting to the database:").

Definition loadInitialData (io_count io_insert : fault)
  : async world unit :=
  try_catch
    (let! settingsCount := statement io_count SQL.count_settings in
     if settingsCount =? 0
     then statement io_insert SQL.insert_default_settings
     else ret tt)
    (fun _ => console_error "Error loading initial data:").

Definition checkIfTranslationExists (io : fault)
  (originalText : string) (lang : option string)
  : async world (option translation_row) :=
  try_catch
    (let! translation :=
       statement io (SQL.select_translation originalText lang) in
     ret translation)
    (fun _ =>
       console_error "Error checking if translation exists:" >> ret None).

Definition addTranslation (io : fault)
  (originalText : string) (langauge : option string)
  (translatedText : string) : async world unit :=
  try_catch
    (statement io
       (SQL.insert_translation originalText langauge translatedText))
    (fun _ => console_error "Error adding translation").

Definition fetchTranslations (io : fault)
  : async world (list translation_row) :=
  try_catch
    (let! translations := statement io SQL.select_translations in
     ret translations)
    (fun _ => console_error "Error fetching translations:" >> ret []).

Definition fetchSettings (io : fault) : async world (list settings_row) :=
  try_catch
    (let! settings := statement io SQL.select_settings in
     ret settings)
    (fun _ => console_error "Error fetching settings:" >> ret []).

Definition updateSettings (io : fault) (lang : string)
  : async world unit :=
  try_catch
    (statement io (SQL.update_settings lang))
    (fun _ => console_error "Error updating settings:").

Definition deleteTranslation (io : fault) (i : Z) : async world unit :=
  try_catch
    (statement io (SQL.delete_translation i))
    (fun _ => console_error "Error deleting translation:").

End DatabaseService.

(** The application before [App] ran its effect: no handle, an empty
    database file, nothing logged. *)
Definition fresh_world : world :=
  {| db := false;
     file := {| settings := None; translations := None; sequence := 0 |};
     files := fun _ => NoSuchFile;
     console := []; alerts := []; network := [] |}.

(** [App]: [await setupDatabase(); await loadInitialData();] inside a try
    whose handler logs. *)
Definition initialise (io1 io2 io3 io4 io5 : fault) : async world unit :=
  try_catch
    (DatabaseService.setupDatabase io1 io2 io3 >>
     DatabaseService.loadInitialData io4 io5)
    (fun _ => console_error "Error initialising app:").


(** ** React components

    A component's function runs over its own state cells and the world.
    A closure sees the cell values of the render that created it; a setter
    writes the cell for the next render. *)

Definition lift {C A} (m : async world A) : async (C * world) A :=
  fun s => match m (snd s) with (r, w) => (r, (fst s, w)) end.

Definition setState {C} (f : C -> C) : async (C * world) unit :=
  fun s => (Resolved tt, (f (fst s), snd s)).

(** ** fetch *)

Record response (B : Type) : Type := {
  ok : bool;
  statusText : string;
  json : completion B              (* what [response.json()] gives *)
}.

Arguments ok {B} r.
Arguments statusText {B} r.
Arguments json {B} r.

(** The request leaves the device; [reply] is what comes back (a
    response, or a rejection when the network fails). *)
Definition fetch {B} (req : request) (reply : completion (response B))
  : async world (response B) :=
  fun w =>
    (reply,
     {| db := db w; file := file w; files := files w; console := console w;
        alerts := alerts w; network := network w ++ [req] |}).

Definition await {S A} (c : completion A) : async S A := fun s => (c, s).

(** ** constants/LanguageConstants and constants/LanguageMapping *)

Record language_option : Type := { label : string; value : string }.

Definition languages : list language_option :=
  [ {| label := "English"; value := "en" |};
    {| label := "French"; value := "fr" |};
    {| label := "Spanish"; value := "es" |};
    {| label := "German"; value := "de" |};
    {| label := "Chinese (Simplified)"; value := "zh-CN" |};
    {| label := "Japanese"; value := "ja" |};
    {| label := "Italian"; value := "it" |};
    {| label := "Portuguese"; value := "pt" |};
    {| label := "Russian"; value := "ru" |};
    {| label := "Korean"; value := "ko" |};
    {| label := "Hindi"; value := "hi" |};
    {| label := "Arabic"; value := "ar" |};
    {| label := "Dutch"; value := "nl" |};
    {| label := "Swedish"; value := "sv" |};
    {| label := "Norwegian"; value := "no" |};
    {| label := "Danish"; value := "da" |} ].

Definition languageMapping : list (string * string) :=
  [ ("en", "en-US"); ("fr", "fr-FR"); ("es", "es-ES"); ("de", "de-DE");
    ("zh-CN", "cmn-Hans-CN"); ("ja", "ja-JP"); ("it", "it-IT");
    ("pt", "pt-PT"); ("ru", "ru-RU"); ("ko", "ko-KR"); ("hi", "hi-IN");
    ("ar", "ar-SA"); ("nl", "nl-NL"); ("sv", "sv-SE"); ("no", "no-NO");
    ("da", "da-DK") ].

(** [object[key]] on an object literal with string values. *)
Fixpoint property (o : list (string * string)) (key : string)
  : option string :=
  match o with
  | [] => None
  | (k, v) :: rest => if String.eqb k key then Some v else property rest key
  end.

(** ** screens/SpeakerScreen *)

Module SpeakerScreen.

(** [route.params].  [selectedLanguage] is the picker's cell of
    [TranslationForm], null until its settings are loaded. *)
Record route_params : Type := {
  transcription : string;
  selectedLanguage : option string;
  translatedText : string
}.

(** The body of a chat-completions reply, as far as the screen reads it. *)
Record choice : Type := { text : option string }.
Record chat_data : Type := { choices : option (list choice) }.

(** The only cell: [const [refinedText, setRefinedText] = useState(translatedText)]. *)
Definition setRefinedText (v : string) : async (string * world) unit :=
  setState (fun _ => v).

(** [data.choices[0]?.text?.trim()] *)
Definition refined_of (data : chat_data) : completion (option string) :=
  match choices data with
  | None => Rejected (TypeError "Cannot read property '0' of undefined")
  | Some [] => Resolved None
  | Some (c :: _) => Resolved (option_map trim (text c))
  end.

(** The handler of [refineTextWithOpenAI] logs and then evaluates
    [Alert.alert(...)]; the module imports [SafeAreaView],
    [ImageBackground] and [Text] from react-native but not [Alert], so the
    evaluation throws and the promise of the function rejects. *)
Definition refineTextWithOpenAI (reply : completion (response chat_data))
  (text : string) : async (string * world) unit :=
  try_catch
    (let! response :=
       lift (fetch
               (ChatCompletion
                  ("Refine this translation for grammar and context: "
                     ++ text))
               reply) in
     (if negb (ok response)
      then throw (Error ("OpenAI API error: " ++ statusText response))
      else ret tt) >>
     let! data := await (json response) in
     let! refined := await (refined_of data) in
     match refined with
     | Some r => if truthy r then setRefinedText r else ret tt
     | None => ret tt
     end)
    (fun _ =>
       lift (console_error "Error refining translation:") >>
       throw (ReferenceError "Alert")).

(** [refinedText] is the value the rendering closure holds. *)
Definition checkTranslation (io_check io_add : fault) (p : route_params)
  (refinedText : string) : async (string * world) unit :=
  let! translation :=
    lift (DatabaseService.checkIfTranslationExists io_check
            (transcription p) (selectedLanguage p)) in
  match translation with
  | None =>
      detach (lift (DatabaseService.addTranslation io_add
                      (transcription p) (selectedLanguage p) refinedText))
  | Some _ => ret tt
  end.

(** What the environment does during one run of the effect. *)
Record pass : Type := {
  openai : completion (response chat_data);
  io_check : fault;
  io_add : fault
}.

(** The effect: both calls are started and neither promise is awaited. *)
Definition effect (p : route_params) (e : pass)
  : async (string * world) unit :=
  fun s =>
    let refinedText := fst s in
    (detach (refineTextWithOpenAI (openai e) (translatedText p)) >>
     detach (checkTranslation (io_check e) (io_add e) p refinedText)) s.

(** The effect depends on [refinedText]: it runs after the first render
    and again after every render in which the cell changed.  The list
    gives the environment of the successive passes.  This is one order
    of events among those the code allows: the one in which the reply,
    the lookup and the insert of a pass are completed before the next
    pass does anything and nothing else acts on the store meanwhile
    ([Schedule.serial] below, lemma [serial_rerender]).  The effect
    awaits neither call, so passes can also overlap; [Schedule] has
    every order. *)
Fixpoint rerender (p : route_params) (passes : list pass)
  (s : string * world) : string * world :=
  match passes with
  | [] => s
  | e :: rest =>
      let s' := snd (effect p e s) in
      if String.eqb (fst s') (fst s) then s' else rerender p rest s'
  end.

(** Navigation to the screen: the cell starts at [translatedText]. *)
Definition mount (p : route_params) (passes : list pass) (w : world)
  : string * world :=
  rerender p passes (translatedText p, w).

End SpeakerScreen.

(** ** components/TranslationForm *)

Module TranslationForm.

Record state : Type := {
  selectedLanguage : option string;
  storedLanguage : option string;
  filteredLanguages : list language_option
}.

Definition initial : state :=
  {| selectedLanguage := None; storedLanguage := None;
     filteredLanguages := [] |}.

Definition setSelectedLanguage (v : string) : async (state * world) unit :=
  setState (fun c => {| selectedLanguage := Some v;
                        storedLanguage := storedLanguage c;
                        filteredLanguages := filteredLanguages c |}).

Definition setStoredLanguage (v : string) : async (state * world) unit :=
  setState (fun c => {| selectedLanguage := selectedLanguage c;
                        storedLanguage := Some v;
                        filteredLanguages := filteredLanguages c |}).

Definition setFilteredLanguages (v : list language_option)
  : async (state * world) unit :=
  setState (fun c => {| selectedLanguage := selectedLanguage c;
                        storedLanguage := storedLanguage c;
                        filteredLanguages := v |}).

Definition loadSettings (io : fault) : async (state * world) unit :=
  try_catch
    (let! settings := lift (DatabaseService.fetchSettings io) in
     match settings with
     | first :: _ =>
         let language := or_default (settings_language first) "en" in
         setStoredLanguage language >>
         let updatedLanguages :=
           filter (fun lang => negb (String.eqb (value lang) language))
             languages in
         setFilteredLanguages updatedLanguages >>
         match updatedLanguages with
         | lang0 :: _ => setSelectedLanguage (value lang0)
         | [] => ret tt
         end
     | [] =>
         setFilteredLanguages languages >>
         match languages with
         | lang0 :: _ => setSelectedLanguage (value lang0)
         | [] => throw (TypeError "Cannot read property 'value' of undefined")
         end
     end)
    (fun _ => lift (console_error "Error loading settings:")).

(** The picker: [onValueChange] with the value of one of the items it
    shows, which are [filteredLanguages]. *)
Definition onValueChange (itemValue : string)
  : async (state * world) unit :=
  setSelectedLanguage itemValue.

(** The JSON body of a translate reply, as far as the form reads it:
    [null], or a value whose [data.translations] holds the translated
    texts ([Body None]: there is no [data.translations]). *)
Inductive translate_body : Type :=
| BodyNull
| Body (translations : option (list string)).

(** [result.data.translations[0].translatedText] *)
Definition translatedText_of (result : translate_body)
  : completion string :=
  match result with
  | Body (Some (t :: _)) => Resolved t
  | Body (Some []) =>
      Rejected (TypeError "Cannot read property 'translatedText' of undefined")
  | Body None =>
      Rejected (TypeError "Cannot read property 'translations' of undefined")
  | BodyNull => Rejected (TypeError "Cannot read property 'data' of null")
  end.

(** [result.error || result.message], the argument of [console.error] in
    the branch of a reply that is not ok: reading a property of [null]
    throws before [console.error] is called. *)
Definition failure_of (result : translate_body) : completion unit :=
  match result with
  | BodyNull => Rejected (TypeError "Cannot read property 'error' of null")
  | Body _ => Resolved tt
  end.

(** [source: storedLanguage || "en"] *)
Definition source_language (c : state) : string :=
  or_default (storedLanguage c) "en".

(** Returns the parameters of [navigation.navigate("Speaker", ...)] when
    the call is made. *)
Definition handleTranslate (transcription : string)
  (reply : completion (response translate_body))
  : async (state * world) (option SpeakerScreen.route_params) :=
  fun s =>
    let c := fst s in
    try_catch
      (let! response :=
         lift (fetch
                 (Translate transcription (source_language c)
                    (selectedLanguage c) "text")
                 reply) in
       let! result := await (json response) in
       if ok response then
         let! translatedText := await (translatedText_of result) in
         ret (Some {| SpeakerScreen.transcription := transcription;
                      SpeakerScreen.selectedLanguage := selectedLanguage c;
                      SpeakerScreen.translatedText := translatedText |})
       else
         lift (Alert_alert "Error" "Failed to translate.") >>
         await (failure_of result) >>
         lift (console_error "Translation failed:") >>
         ret None)
      (fun _ =>
         lift (Alert_alert "Error" "Failed to translate.") >>
         lift (console_error "Error during translation:") >>
         ret None)
      s.

End TranslationForm.

(** ** components/SettingsForm *)

Module SettingsForm.

(** The cell [selectedLanguage], [useState("en")]. *)
Definition initial : string := "en".

Definition loadSettings (io : fault) : async (string * world) unit :=
  try_catch
    (let! settings := lift (DatabaseService.fetchSettings io) in
     match settings with
     | first :: _ =>
         let language := or_default (settings_language first) "en" in
         setState (fun _ => language)
     | [] => ret tt
     end)
    (fun _ => lift (console_error "Error loading settings:")).

(** [navigation.navigate("Microphone")] after the alert touches neither
    the cell nor the world and is left out. *)
Definition handleSave (io : fault) : async (string * world) unit :=
  fun s =>
    let selectedLanguage := fst s in
    try_catch
      (lift (DatabaseService.updateSettings io selectedLanguage) >>
       lift (Alert_alert "Language updated" ""))
      (fun _ =>
         lift (Alert_alert "Unable to save language" "") >>
         lift (console_error "Error saving language:"))
      s.

End SettingsForm.

(** ** screens/TranslateScreen *)

Module TranslateScreen.

(** [Platform.OS] *)
Inductive platform : Type := ios | android | other_os.

Record state : Type := {
  transcription : option string;
  loading : bool
}.

Definition initial : state := {| transcription := None; loading := false |}.

Definition setTranscription (v : string) : async (state * world) unit :=
  setState (fun c => {| transcription := Some v; loading := loading c |}).

Definition setLoading (v : bool) : async (state * world) unit :=
  setState (fun c => {| transcription := transcription c; loading := v |}).

(** The body of a speech:recognize reply: [results], each result by the
    transcripts of its [alternatives]. *)
Definition speech_data : Type := option (list (list string)).

Definition LF : string := String (ascii_of_nat 10) EmptyString.

(** [responseJson.results.map((result) => result.alternatives[0].transcript)] *)
Fixpoint transcripts (results : list (list string))
  : completion (list string) :=
  match results with
  | [] => Resolved []
  | (t :: _) :: rest =>
      match transcripts rest with
      | Resolved ts => Resolved (t :: ts)
      | Rejected e => Rejected e
      end
  | [] :: _ =>
      Rejected (TypeError "Cannot read property 'transcript' of undefined")
  end.

(** [settings.length > 0 && settings[0].language ? settings[0].language : "en-GB"] *)
Definition shortCode_of (settings : list settings_row) : string :=
  match settings with
  | first :: _ => or_default (settings_language first) "en-GB"
  | [] => "en-GB"
  end.

(** [languageMapping[shortCode] || "en-GB"] *)
Definition languageCode_of (shortCode : string) : string :=
  or_default (property languageMapping shortCode) "en-GB".

Definition getInfoAsync (uri : string) : async world bool :=
  fun w =>
    match files w uri with
    | NoSuchFile => (Resolved false, w)
    | InfoFails e => (Rejected e, w)
    | ReadFails _ | Base64 _ => (Resolved true, w)
    end.

Definition readAsStringAsync (uri : string) : async world string :=
  fun w =>
    match files w uri with
    | Base64 content => (Resolved content, w)
    | ReadFails e | InfoFails e => (Rejected e, w)
    | NoSuchFile => (Rejected (FileSystemError "File is not readable"), w)
    end.

Definition sendAudioForTranscription (os : platform) (recordingUri : string)
  (io : fault) (reply : completion (response speech_data))
  : async (state * world) unit :=
  setLoading true >>
  try_finally
    (try_catch
       (let! settings := lift (DatabaseService.fetchSettings io) in
        let shortCode := shortCode_of settings in
        let languageCode := languageCode_of shortCode in
        let! fileInfo_exists := lift (getInfoAsync recordingUri) in
        if negb fileInfo_exists then
          lift (Alert_alert "Error" "Audio file does not exist.") >>
          setLoading false
        else
          let! fileContent := lift (readAsStringAsync recordingUri) in
          let base64Content :=
            match os with
            | ios => replace "data:audio/vnd.wave;base64," "" fileContent
            | android => replace "data:audio/aac;base64," "" fileContent
            | other_os => fileContent
            end in
          let encoding :=
            match os with android => "WEBM_OPUS" | _ => "LINEAR16" end in
          let sampleRateHertz :=
            match os with android => 16000 | _ => 44100 end in
          let! response :=
            lift (fetch
                    (SpeechRecognize encoding sampleRateHertz languageCode
                       base64Content)
                    reply) in
          let! responseJson := await (json response) in
          match ok response, responseJson with
          | true, Some results =>
              let! ts := await (transcripts results) in
              setTranscription (join LF ts)
          | _, _ =>
              lift (Alert_alert "Error" "Failed to transcribe the audio.") >>
              lift (console_error "Error transcribing audio")
          end)
       (fun _ =>
          lift (console_error "Error transcribing audio:") >>
          lift (Alert_alert "Error" "Failed to transcribe the audio.")))
    (setLoading false).

(** [useEffect(() => { if (recordingUri) sendAudioForTranscription(); })] *)
Definition effect (os : platform) (recordingUri : option string)
  (io : fault) (reply : completion (response speech_data))
  : async (state * world) unit :=
  match recordingUri with
  | Some uri =>
      if truthy uri
      then detach (sendAudioForTranscription os uri io reply)
      else ret tt
  | None => ret tt
  end.

End TranslateScreen.

(** ** The application as a sequence of user actions

    Each action is completed before the next begins.  Actions that
    overlap with the passes of a speaker screen are events of [Schedule]
    below. *)

Inductive action : Type :=
| Start (io1 io2 io3 io4 io5 : fault)
    (* the application is started anew: [db] is undefined again, the
       database file is the one the last process left *)
| Speak (p : SpeakerScreen.route_params) (passes : list SpeakerScreen.pass)
    (* a pipeline run reaches the speaker screen, or a history item is
       opened, and the passes of the screen run one after the other to
       the end before the next action *)
| DeleteHistoryItem (io : fault) (i : Z)
| SaveLanguage (io : fault) (lang : string).

Definition act (a : action) (w : world) : world :=
  match a with
  | Start io1 io2 io3 io4 io5 =>
      snd (initialise io1 io2 io3 io4 io5 (with_db false w))
  | Speak p passes => snd (SpeakerScreen.mount p passes w)
  | DeleteHistoryItem io i => snd (DatabaseService.deleteTranslation io i w)
  | SaveLanguage io lang => snd (DatabaseService.updateSettings io lang w)
  end.

Definition run_actions (l : list action) (w : world) : world :=
  fold_left (fun w a => act a w) l w.

(** ** The speaker screen, statement by statement

    [SpeakerScreen.effect] awaits neither of its calls, so what a pass
    does is spread over time.  The refinement request is sent when the
    pass starts and its reply arrives later; the lookup is handed to the
    driver when the pass starts and is executed later; the insert is
    handed to the driver once the lookup has answered null and is
    executed later again.  In between, other passes of the screen, other
    screens and the rest of the application run.  An [event] is one such
    step, a schedule is a list of events.  [SpeakerScreen.rerender] and
    [act] above are the schedule in which every pass is completed before
    the next starts and nothing else happens meanwhile. *)

Module Schedule.

(** [refineTextWithOpenAI] up to its first [await]: the request leaves
    the device. *)
Definition refine_request (text : string) : async world unit :=
  fun w =>
    (Resolved tt,
     {| db := db w; file := file w; files := files w; console := console w;
        alerts := alerts w;
        network :=
          network w
            ++ [ChatCompletion
                  ("Refine this translation for grammar and context: "
                     ++ text)] |}).

(** The rest of [refineTextWithOpenAI], once [fetch] has settled with
    [reply]. *)
Definition refine_reply
  (reply : completion (response SpeakerScreen.chat_data))
  : async (string * world) unit :=
  try_catch
    (let! response := await reply in
     (if negb (ok response)
      then throw (Error ("OpenAI API error: " ++ statusText response))
      else ret tt) >>
     let! data := await (json response) in
     let! refined := await (SpeakerScreen.refined_of data) in
     match refined with
     | Some r => if truthy r then SpeakerScreen.setRefinedText r else ret tt
     | None => ret tt
     end)
    (fun _ =>
       lift (console_error "Error refining translation:") >>
       throw (ReferenceError "Alert")).

(** How far [checkTranslation] of a pass got. *)
Inductive stage : Type :=
| looking       (* the lookup is with the driver *)
| inserting     (* the lookup answered null, the insert is with the driver *)
| finished.

(** A pass of the effect that has started, with what its closure holds. *)
Record task : Type := {
  screen : nat;                          (* the screen it belongs to *)
  params : SpeakerScreen.route_params;   (* [route.params] *)
  refinedText : string;                  (* the cell as the render saw it *)
  check : stage;
  refining : bool                        (* the reply is outstanding *)
}.

Definition with_check (c : stage) (t : task) : task :=
  {| screen := screen t; params := params t; refinedText := refinedText t;
     check := c; refining := refining t |}.

Definition replied (t : task) : task :=
  {| screen := screen t; params := params t; refinedText := refinedText t;
     check := check t; refining := false |}.

(** The screens that were navigated to, each with its parameters and its
    cell, the passes in the order they started, and the world.  A screen
    that is left does not take its replies any more: these are the
    schedules without the [Reply] events of its passes. *)
Record app : Type := {
  screens : list (SpeakerScreen.route_params * string);
  tasks : list task;
  device : world
}.

(** The application on the store of [w], no speaker screen opened. *)
Definition boot (w : world) : app :=
  {| screens := []; tasks := []; device := w |}.

Inductive event : Type :=
| Navigate (p : SpeakerScreen.route_params)
    (* [navigation.navigate("Speaker", p)]: first render and first pass *)
| Reply (n : nat) (reply : completion (response SpeakerScreen.chat_data))
    (* the refinement request of pass [n] settles *)
| Lookup (n : nat) (io : fault)
    (* the driver executes the lookup of pass [n] *)
| Insert (n : nat) (io : fault)
    (* the driver executes the insert of pass [n] *)
| Delete (io : fault) (i : Z)
    (* a history item is deleted *)
| Save (io : fault) (lang : string)
    (* the settings form saves a language *)
| Restart (io1 io2 io3 io4 io5 : fault)
    (* the process ends and the application is started anew *).

Fixpoint update {A} (n : nat) (f : A -> A) (l : list A) : list A :=
  match l, n with
  | [], _ => []
  | x :: rest, O => f x :: rest
  | x :: rest, S k => x :: update k f rest
  end.

(** The effect of screen [k] runs: [refineTextWithOpenAI(translatedText)]
    sends its request and [checkTranslation()] hands its lookup to the
    driver, with [text] for [refinedText]. *)
Definition start (k : nat) (p : SpeakerScreen.route_params) (text : string)
  (a : app) : app :=
  {| screens := screens a;
     tasks := tasks a
                ++ [{| screen := k; params := p; refinedText := text;
                       check := looking; refining := true |}];
     device := snd (refine_request (SpeakerScreen.translatedText p)
                      (device a)) |}.

Definition step (e : event) (a : app) : app :=
  match e with
  | Navigate p =>
      start (List.length (screens a)) p (SpeakerScreen.translatedText p)
        {| screens := screens a ++ [(p, SpeakerScreen.translatedText p)];
           tasks := tasks a; device := device a |}
  | Reply n reply =>
      match nth_error (tasks a) n with
      | Some t =>
          match refining t, nth_error (screens a) (screen t) with
          | true, Some (p, cell) =>
              let s := snd (refine_reply reply (cell, device a)) in
              let a' :=
                {| screens :=
                     update (screen t) (fun m => (fst m, fst s)) (screens a);
                   tasks := update n replied (tasks a);
                   device := snd s |} in
              (* a render with the same cell runs no effect *)
              if String.eqb (fst s) cell then a'
              else start (screen t) p (fst s) a'
          | _, _ => a
          end
      | None => a
      end
  | Lookup n io =>
      match nth_error (tasks a) n with
      | Some t =>
          match check t with
          | looking =>
              let r :=
                DatabaseService.checkIfTranslationExists io
                  (SpeakerScreen.transcription (params t))
                  (SpeakerScreen.selectedLanguage (params t)) (device a) in
              {| screens := screens a;
                 tasks :=
                   update n
                     (with_check
                        match fst r with
                        | Resolved None => inserting   (* [!translation] *)
                        | _ => finished
                        end)
                     (tasks a);
                 device := snd r |}
          | _ => a
          end
      | None => a
      end
  | Insert n io =>
      match nth_error (tasks a) n with
      | Some t =>
          match check t with
          | inserting =>
              {| screens := screens a;
                 tasks := update n (with_check finished) (tasks a);
                 device :=
                   snd (DatabaseService.addTranslation io
                          (SpeakerScreen.transcription (params t))
                          (SpeakerScreen.selectedLanguage (params t))
                          (refinedText t) (device a)) |}
          | _ => a
          end
      | None => a
      end
  | Delete io i =>
      {| screens := screens a; tasks := tasks a;
         device := snd (DatabaseService.deleteTranslation io i (device a)) |}
  | Save io lang =>
      {| screens := screens a; tasks := tasks a;
         device := snd (DatabaseService.updateSettings io lang (device a)) |}
  | Restart io1 io2 io3 io4 io5 =>
      boot (snd (initialise io1 io2 io3 io4 io5 (with_db false (device a))))
  end.

Definition run (events : list event) (a : app) : app :=
  fold_left (fun a e => step e a) events a.

(** While an insert is with the driver, [e] is no other statement than
    the execution of that insert: the store does nothing between a lookup
    that answered null and the insert it leads to.  Navigations and
    replies, which leave the store alone, may come.  [k] is the number of
    the first task of [l]. *)
Fixpoint insert_is_next (e : event) (k : nat) (l : list task) : bool :=
  match l with
  | [] => true
  | t :: rest =>
      match check t with
      | inserting =>
          match e with
          | Insert m _ => Nat.eqb m k
          | Navigate _ | Reply _ _ => true
          | _ => false
          end
      | _ => true
      end
      && insert_is_next e (S k) rest
  end.

(** In the schedule every insert is the next statement after its
    lookup. *)
Fixpoint undisturbed (events : list event) (a : app) : bool :=
  match events with
  | [] => true
  | e :: rest =>
      insert_is_next e O (tasks a) && undisturbed rest (step e a)
  end.

(** The driver answers every lookup. *)
Definition answered (e : event) : Prop :=
  match e with Lookup _ (Some _) => False | _ => True end.

(** The driver refuses no insert. *)
Definition accepted (e : event) : Prop :=
  match e with Insert _ (Some _) => False | _ => True end.

(** An event of the speaker screens: a navigation to one, or a step of
    one of their passes. *)
Definition of_speaker (e : event) : Prop :=
  match e with
  | Navigate _ | Reply _ _ | Lookup _ _ | Insert _ _ => True
  | _ => False
  end.

(** A step of a pass that has started. *)
Definition of_pass (e : event) : Prop :=
  match e with
  | Reply _ _ | Lookup _ _ | Insert _ _ => True
  | _ => False
  end.

(** The first lookup the driver executes is that of the first pass. *)
Fixpoint first_pass_first (events : list event) : bool :=
  match events with
  | [] => true
  | Lookup n _ :: _ => Nat.eqb n O
  | _ :: rest => first_pass_first rest
  end.

(** The insert of the first pass is not refused and the lookups of the
    later passes are answered. *)
Definition first_pass_served (e : event) : Prop :=
  match e with
  | Insert O (Some _) => False
  | Lookup (S _) (Some _) => False
  | _ => True
  end.

(** The schedule of [SpeakerScreen.rerender]: pass after pass, the reply,
    the lookup and the insert of each. *)
Fixpoint serial (k : nat) (passes : list SpeakerScreen.pass) : list event :=
  match passes with
  | [] => []
  | e :: rest =>
      Reply k (SpeakerScreen.openai e)
        :: Lookup k (SpeakerScreen.io_check e)
        :: Insert k (SpeakerScreen.io_add e)
        :: serial (S k) rest
  end.

End Schedule.

(** ** Observations on the store *)

Definition rows (w : world) : list translation_row :=
  match translations (file w) with Some l => l | None => [] end.

Definition pair_of (r : translation_row) : string * string :=
  (original_text r, language r).

(** No two records with the same (original_text, language). *)
Definition unique_pairs (w : world) : Prop :=
  NoDup (map pair_of (rows w)).

(** The primary key of [translations]. *)
Definition primary_key (l : list translation_row) : Prop :=
  NoDup (map row_id l).

(** The driver answers the dedup lookup of every pass. *)
Definition lookups_succeed (passes : list SpeakerScreen.pass) : Prop :=
  Forall (fun e => SpeakerScreen.io_check e = None) passes.

Definition action_lookups_succeed (a : action) : Prop :=
  match a with
  | Speak _ passes => lookups_succeed passes
  | _ => True
  end.

(** ** Observations on completions *)

(** The promise resolves: the caller sees no exception. *)
Definition resolves {S A} (m : async S A) (s : S) : Prop :=
  exists v s', m s = (Resolved v, s').

(** How a store function wraps its driver call: when the call rejects,
    the message is logged, nothing else changes and the function resolves
    with [default]; otherwise it resolves as the call did. *)
Definition swallowed {A} (call result : completion A * world)
  (msg : string) (default : A) (w : world) : Prop :=
  match call with
  | (Rejected _, _) => result = (Resolved default, snd (console_error msg w))
  | (Resolved v, w') => result = (Resolved v, w')
  end.

(** ** Observations on the refinement reply *)

(** The refined text the screen takes from a reply: none when the request
    fails, the status is not ok, the body does not parse or has no
    [choices], the first choice has no [text], or the trimmed text is
    empty. *)
Definition refinement
  (reply : completion (response SpeakerScreen.chat_data)) : option string :=
  match reply with
  | Resolved r =>
      if ok r then
        match json r with
        | Resolved data =>
            match SpeakerScreen.refined_of data with
            | Resolved (Some t) => if truthy t then Some t else None
            | _ => None
            end
        | Rejected _ => None
        end
      else None
  | Rejected _ => None
  end.

(** The row [addTranslation] writes into a table that holds [rs]. *)
Definition new_row (d : database) (rs : list translation_row)
  (originalText lang translatedText : string) : translation_row :=
  {| row_id := Z.max (sequence d) (SQL.max_rowid rs) + 1;
     original_text := originalText; language := lang;
     translated_text := translatedText |}.

(** The store already answers the dedup check of [p], or cannot take a
    row for it: the handle is undefined, the table is missing, the
    language is null, or a row with the pair of [p] is present. *)
Definition settled (p : SpeakerScreen.route_params) (w : world) : Prop :=
  db w = false
  \/ translations (file w) = None
  \/ SpeakerScreen.selectedLanguage p = None
  \/ exists rs c,
      translations (file w) = Some rs
      /\ SpeakerScreen.selectedLanguage p = Some c
      /\ find (SQL.matches (SpeakerScreen.transcription p) c) rs <> None.

(** ** Sample inputs *)

(** The store after a start of the application without driver failure. *)
Definition started : world :=
  snd (initialise None None None None None fresh_world).

(** The store after a start in which the database could not be opened. *)
Definition start_failed : world :=
  snd (initialise (Some (SQLiteError "unable to open database file"))
         None None None None fresh_world).

Definition bonjour : SpeakerScreen.route_params :=
  {| SpeakerScreen.transcription := "Bonjour";
     SpeakerScreen.selectedLanguage := Some "en";
     SpeakerScreen.translatedText := "Hello" |}.

Definition chat_reply (t : option string)
  : completion (response SpeakerScreen.chat_data) :=
  Resolved {| ok := true; statusText := "OK";
              json := Resolved
                        {| SpeakerScreen.choices :=
                             Some [{| SpeakerScreen.text := t |}] |} |}.

(** A pass in which the reply has no [text] and the store works. *)
Definition quiet_pass : SpeakerScreen.pass :=
  {| SpeakerScreen.openai := chat_reply None;
     SpeakerScreen.io_check := None;
     SpeakerScreen.io_add := None |}.

(** A pass whose lookup is refused by the driver. *)
Definition locked_lookup_pass : SpeakerScreen.pass :=
  {| SpeakerScreen.openai := chat_reply None;
     SpeakerScreen.io_check := Some (SQLiteError "database is locked");
     SpeakerScreen.io_add := None |}.

(** A pass whose reply carries a refined text and whose insert fails. *)
Definition refined_pass_insert_fails : SpeakerScreen.pass :=
  {| SpeakerScreen.openai := chat_reply (Some " Hello there ");
     SpeakerScreen.io_check := None;
     SpeakerScreen.io_add := Some (SQLiteError "disk I/O error") |}.


(** ** The persistence status of the specification

    The specification's result of a run carries ["new"], ["existing"] or
    ["failed"].  The code has no such value; this reads the status off the
    store before and after the run. *)

Inductive persistence : Type := New | Existing | Failed.

Definition has_pair (p : SpeakerScreen.route_params) (w : world) : bool :=
  match SpeakerScreen.selectedLanguage p with
  | Some c => existsb (SQL.matches (SpeakerScreen.transcription p) c) (rows w)
  | None => false
  end.

Definition spec_persistence (p : SpeakerScreen.route_params)
  (before after : world) : persistence :=
  if has_pair p before then Existing
  else if has_pair p after then New
  else Failed.

(** [checkTranslation] for "Bonjour" on the started store, once with a
    working insert and once with an insert the driver refuses. *)
Definition saved_run : completion unit * (string * world) :=
  SpeakerScreen.checkTranslation None None bonjour "Hello" ("Hello", started).

Definition lost_run : completion unit * (string * world) :=
  SpeakerScreen.checkTranslation None (Some (SQLiteError "disk I/O error"))
    bonjour "Hello" ("Hello", started).

(** ** Observations on the source language *)

(** A code of the language list. *)
Definition valid_code (c : string) : Prop := In c (map value languages).

(** Every stored language is NULL or a code of the language list: so it
    is after [loadInitialData] and after [updateSettings] with a value of
    the settings picker. *)
Definition settings_valid (w : world) : Prop :=
  forall rs r c,
    settings (file w) = Some rs -> In r rs ->
    settings_language r = Some c -> valid_code c.

(** What [fetchSettings] resolves with. *)
Definition fetched_settings (io : fault) (w : world) : list settings_row :=
  match fst (DatabaseService.fetchSettings io w) with
  | Resolved l => l
  | Rejected _ => []
  end.

(** The source language the translation request carries when the form was
    mounted on [w]. *)
Definition translation_source (io : fault) (w : world) : string :=
  TranslationForm.source_language
    (fst (snd (TranslationForm.loadSettings io (TranslationForm.initial, w)))).

(** The language the settings form shows when mounted on [w]. *)
Definition settings_form_language (io : fault) (w : world) : string :=
  fst (snd (SettingsForm.loadSettings io (SettingsForm.initial, w))).

(** The form as [loadSettings] leaves it when the database could not be
    opened. *)
Definition form_without_settings : TranslationForm.state :=
  fst (snd (TranslationForm.loadSettings None
              (TranslationForm.initial, start_failed))).

Definition translate_reply (t : string)
  : completion (response TranslationForm.translate_body) :=
  Resolved {| ok := true; statusText := "OK";
              json := Resolved (TranslationForm.Body (Some [t])) |}.

(** The started application with a recording file that exists and is
    empty. *)
Definition started_with_empty_recording : world :=
  {| db := db started; file := file started;
     files := fun _ => Base64 "";
     console := console started; alerts := alerts started;
     network := network started |}.

Definition speech_reply (t : string)
  : completion (response TranslateScreen.speech_data) :=
  Resolved {| ok := true; statusText := "OK"; json := Resolved (Some [[t]]) |}.

(** The translation form after its mount effect. *)
Definition loaded (io : fault) (s : TranslationForm.state * world)
  : TranslationForm.state * world :=
  snd (TranslationForm.loadSettings io s).

(** The locale the transcription request carries on [w]. *)
Definition transcription_locale (io : fault) (w : world) : string :=
  TranslateScreen.languageCode_of
    (TranslateScreen.shortCode_of (fetched_settings io w)).

(** The started store after two runs on two transcripts. *)
Definition bonsoir : SpeakerScreen.route_params :=
  {| SpeakerScreen.transcription := "Bonsoir";
     SpeakerScreen.selectedLanguage := Some "en";
     SpeakerScreen.translatedText := "Good evening" |}.

Definition two_records : world :=
  run_actions [Speak bonjour [quiet_pass]; Speak bonsoir [quiet_pass]] started.

(** ** Further observations on the store *)

Definition settings_rows (w : world) : list settings_row :=
  match settings (file w) with Some l => l | None => [] end.

(** The row [loadInitialData] seeds. *)
Definition default_settings : settings_row :=
  {| settings_id := 1; settings_language := Some "en" |}.

(** Rowids in listing order are ascending and none is above [sequence]:
    what AUTOINCREMENT keeps. *)
Definition ids_ascending (w : world) : Prop :=
  StronglySorted Z.lt (map row_id (rows w))
  /\ Forall (fun r => row_id r <= sequence (file w)) (rows w).

(** ** screens/HistoryScreen *)

Module HistoryScreen.

(** The cell [translations], [useState([])]. *)
Definition initial : list translation_row := [].

(** The mount effect: [setTranslations(await fetchTranslations())]. *)
Definition fetch (io : fault) : async (list translation_row * world) unit :=
  let! translations := lift (DatabaseService.fetchTranslations io) in
  setState (fun _ => translations).

(** [setTranslations((prev) => prev.filter((item) => item.id !== id))]
    after the store call and the alert. *)
Definition handleDelete (io : fault) (i : Z)
  : async (list translation_row * world) unit :=
  lift (DatabaseService.deleteTranslation io i) >>
  lift (Alert_alert "Translation deleted" "") >>
  setState (fun prevTranslations =>
              filter (fun item => negb (row_id item =? i)) prevTranslations).

End HistoryScreen.

(** ** components/TranslationItem *)

Module TranslationItem.

(** [languages.find((lang) => lang.value === language)?.label || language] *)
Definition languageLabel (language : string) : string :=
  or_default
    (option_map label
       (find (fun lang => String.eqb (value lang) language) languages))
    language.

(** The parameters [handlePress] navigates to the speaker screen with,
    for the item that shows the row [item]. *)
Definition handlePress (item : translation_row) : SpeakerScreen.route_params :=
  {| SpeakerScreen.transcription := original_text item;
     SpeakerScreen.selectedLanguage := Some (language item);
     SpeakerScreen.translatedText := translated_text item |}.

End TranslationItem.

(** ** Observations on the transcription stage *)

(** The transcript the screen takes from the recording file and the reply:
    none unless the file could be read, the status is ok, the body parses
    and has [results], and every result has a first alternative. *)
Definition transcript_of (entry : file_entry)
  (reply : completion (response TranslateScreen.speech_data))
  : option string :=
  match entry, reply with
  | Base64 _, Resolved r =>
      if ok r then
        match json r with
        | Resolved (Some results) =>
            match TranslateScreen.transcripts results with
            | Resolved ts => Some (join TranslateScreen.LF ts)
            | Rejected _ => None
            end
        | _ => None
        end
      else None
  | _, _ => None
  end.

(** The data-URI prefix the screen removes from the content it read. *)
Definition data_uri_prefix (os : TranslateScreen.platform) : string :=
  match os with
  | TranslateScreen.ios => "data:audio/vnd.wave;base64,"
  | TranslateScreen.android => "data:audio/aac;base64,"
  | TranslateScreen.other_os => ""
  end.

(** [base64Content] of [sendAudioForTranscription]: the content as read,
    without the first occurrence of the data-URI prefix of the platform;
    on another platform nothing is looked for. *)
Definition base64Content (os : TranslateScreen.platform)
  (fileContent : string) : string :=
  match os with
  | TranslateScreen.ios => replace "data:audio/vnd.wave;base64," "" fileContent
  | TranslateScreen.android => replace "data:audio/aac;base64," "" fileContent
  | TranslateScreen.other_os => fileContent
  end.

(** The characters of a base64 encoding: letters, digits, [+], [/] and
    the padding [=]. *)
Definition base64_character (c : ascii) : bool :=
  let n := nat_of_ascii c in
  ((65 <=? n)%nat && (n <=? 90)%nat)
  || ((97 <=? n)%nat && (n <=? 122)%nat)
  || ((48 <=? n)%nat && (n <=? 57)%nat)
  || (n =? 43)%nat || (n =? 47)%nat || (n =? 61)%nat.

Fixpoint is_base64 (s : string) : bool :=
  match s with
  | EmptyString => true
  | String c rest => base64_character c && is_base64 rest
  end.

(** The request for a recording with content [body] on [os]. *)
Definition speech_request (os : TranslateScreen.platform)
  (languageCode body : string) : request :=
  SpeechRecognize
    match os with TranslateScreen.android => "WEBM_OPUS" | _ => "LINEAR16" end
    match os with TranslateScreen.android => 16000 | _ => 44100 end
    languageCode body.

(** ** Observations on the translation stage *)

(** The translated text the form takes from a reply: none unless the body
    parses, the status is ok and the body has a first translation. *)
Definition translation_of
  (reply : completion (response TranslationForm.translate_body))
  : option string :=
  match reply with
  | Resolved r =>
      match json r with
      | Resolved result =>
          if ok r then
            match TranslationForm.translatedText_of result with
            | Resolved t => Some t
            | Rejected _ => None
            end
          else None
      | Rejected _ => None
      end
  | Rejected _ => None
  end.

(** The reply is not ok and its JSON body is [null]. *)
Definition refused_with_null
  (reply : completion (response TranslationForm.translate_body)) : bool :=
  match reply with
  | Resolved r =>
      match json r with
      | Resolved TranslationForm.BodyNull => negb (ok r)
      | _ => false
      end
  | Rejected _ => false
  end.

(** The user changes the picker to one value after the other. *)
Definition pick (picks : list string) (s : TranslationForm.state * world)
  : TranslationForm.state * world :=
  fold_left (fun s v => snd (TranslationForm.onValueChange v s)) picks s.

(** The form mounted on [w] after the user's changes of the picker. *)
Definition form_after (io : fault) (picks : list string) (w : world)
  : TranslationForm.state * world :=
  pick picks (loaded io (TranslationForm.initial, w)).


(** ** components/MicrophoneButton *)

Module MicrophoneButton.

(** An [Audio.Recording], by what [getURI()] gives: null when the
    recording has no file. *)
Record Recording : Type := { getURI : option string }.

Record state : Type := {
  recording : option Recording;
  recordingStatus : string;
  audioPermission : option bool
}.

Definition initial : state :=
  {| recording := None; recordingStatus := "idle"; audioPermission := None |}.

Definition setRecording (v : option Recording) : async (state * world) unit :=
  setState (fun c => {| recording := v;
                        recordingStatus := recordingStatus c;
                        audioPermission := audioPermission c |}).

Definition setRecordingStatus (v : string) : async (state * world) unit :=
  setState (fun c => {| recording := recording c;
                        recordingStatus := v;
                        audioPermission := audioPermission c |}).

Definition setAudioPermission (v : bool) : async (state * world) unit :=
  setState (fun c => {| recording := recording c;
                        recordingStatus := recordingStatus c;
                        audioPermission := Some v |}).

(** An awaited call of a library that either completes or rejects. *)
Definition call {S} (io : fault) : async S unit :=
  match io with Some e => throw e | None => ret tt end.

(** The mount effect.  [reply] is what [Audio.requestPermissionsAsync()]
    gives for [granted].  The module imports [TouchableOpacity], [View],
    [ActivityIndicator], [Platform], [Animated] and [Easing] from
    react-native but not [Alert], so the evaluation of [Alert.alert(...)]
    throws inside the [try]. *)
Definition getMicrophonePermission (reply : completion bool)
  : async (state * world) unit :=
  try_catch
    (let! granted := await reply in
     (if negb granted then throw (ReferenceError "Alert") else ret tt) >>
     setAudioPermission granted)
    (fun _ =>
       lift (console_error "Error requesting microphone permission:")).

Definition handlePermissionPress (reply : completion bool)
  : async (state * world) unit :=
  try_catch
    (let! granted := await reply in
     setAudioPermission granted)
    (fun _ => lift (console_error "Error requesting permission:")).

(** What the libraries do during [startRecording]; [newRecording] is the
    object [new Audio.Recording()] gives. *)
Record start_env : Type := {
  io_mode : fault;                  (* Audio.setAudioModeAsync *)
  io_prepare : fault;               (* prepareToRecordAsync *)
  io_start : fault;                 (* startAsync *)
  newRecording : Recording
}.

Definition startRecording (env : start_env) : async (state * world) unit :=
  fun s =>
    let c := fst s in
    try_catch
      ((match audioPermission c with
        | Some true => call (io_mode env)
        | _ => ret tt
        end) >>
       call (io_prepare env) >>
       call (io_start env) >>
       setRecording (Some (newRecording env)) >>
       setRecordingStatus "recording")
      (fun _ => lift (console_error "Failed to start recording"))
      s.

(** [FileSystem.moveAsync({ from, to })]: the entry at [from] is at [to]
    afterwards; a rejection when there is nothing to move. *)
Definition moveAsync (io : fault) (from : option string) (to : string)
  : async world unit :=
  fun w =>
    match io, from with
    | Some e, _ => (Rejected e, w)
    | None, None => (Rejected (FileSystemError "from is null"), w)
    | None, Some f =>
        match files w f with
        | NoSuchFile => (Rejected (FileSystemError "No such file"), w)
        | entry =>
            (Resolved tt,
             {| db := db w; file := file w;
                files := fun u =>
                           if String.eqb u to then entry
                           else if String.eqb u f then NoSuchFile
                           else files w u;
                console := console w; alerts := alerts w;
                network := network w |})
        end
    end.

(** Template-literal conversion of a number that is an integer. *)
Definition decimal (n : Z) : string := NilZero.string_of_int (Z.to_int n).

(** What the environment gives during [stopRecording]: [now] is
    [Date.now()], [documentDirectory] is [FileSystem.documentDirectory]. *)
Record stop_env : Type := {
  io_stop : fault;                  (* stopAndUnloadAsync *)
  now : Z;
  documentDirectory : string;
  io_mkdir : fault;                 (* makeDirectoryAsync *)
  io_move : fault                   (* moveAsync *)
}.

Definition fileExtension (os : TranslateScreen.platform) : string :=
  match os with TranslateScreen.android => ".webm" | _ => ".wav" end.

Definition filePath_of (os : TranslateScreen.platform) (env : stop_env)
  : string :=
  documentDirectory env ++ "recordings/"
    ++ ("recording-" ++ decimal (now env) ++ fileExtension os).

(** Resolves with the file path, or with undefined when nothing is being
    recorded. *)
Definition stopRecording (os : TranslateScreen.platform) (env : stop_env)
  : async (state * world) (option string) :=
  fun s =>
    let c := fst s in
    try_catch
      (if String.eqb (recordingStatus c) "recording" then
         match recording c with
         | None =>
             throw (TypeError
                      "Cannot read property 'stopAndUnloadAsync' of null")
         | Some r =>
             call (io_stop env) >>
             let recordingUri := getURI r in
             let filePath := filePath_of os env in
             call (io_mkdir env) >>
             lift (moveAsync (io_move env) recordingUri filePath) >>
             setRecording None >>
             setRecordingStatus "stopped" >>
             ret (Some filePath)
         end
       else ret None)
      (fun error =>
         lift (console_error "Failed to stop recording") >> throw error)
      s.

(** Resolves with the parameter of
    [navigation.navigate("Translate", { recordingUri })] when the call is
    made. *)
Definition handleButtonPress (os : TranslateScreen.platform)
  (stop : stop_env) (start : start_env)
  : async (state * world) (option string) :=
  fun s =>
    match recording (fst s) with
    | Some _ =>
        try_catch
          (let! filePath := stopRecording os stop in
           match filePath with
           | Some path =>
               if truthy path then ret (Some path)
               else
                 lift (console_error
                         "Failed to navigate due to missing file path") >>
                 ret None
           | None =>
               lift (console_error
                       "Failed to navigate due to missing file path") >>
               ret None
           end)
          (fun _ =>
             lift (console_error "Error stopping recording or navigating:") >>
             ret None)
          s
    | None => (startRecording start >> ret None) s
    end.

(** What the user can do: the lock button is rendered while
    [audioPermission === false], the microphone button while
    [audioPermission === true], and nothing but a spinner while it is
    null. *)
Inductive event : Type :=
| PermissionPress (reply : completion bool)
| ButtonPress (stop : stop_env) (start : start_env).

Definition handle (os : TranslateScreen.platform) (ev : event)
  (s : state * world) : state * world :=
  match ev, audioPermission (fst s) with
  | PermissionPress reply, Some false => snd (handlePermissionPress reply s)
  | ButtonPress stop start, Some true =>
      snd (handleButtonPress os stop start s)
  | _, _ => s
  end.

(** The component from its mount through the user's presses. *)
Definition session (os : TranslateScreen.platform) (reply : completion bool)
  (events : list event) (w : world) : state * world :=
  fold_left (fun s ev => handle os ev s) events
    (snd (getMicrophonePermission reply (initial, w))).

End MicrophoneButton.

(** Nothing is recorded exactly when the status is not "recording". *)
Definition recording_consistent (c : MicrophoneButton.state) : Prop :=
  MicrophoneButton.recording c = None
  <-> MicrophoneButton.recordingStatus c <> "recording".

(** ** Sample inputs for the microphone button *)

Definition started_with_recording : world :=
  {| db := db started; file := file started;
     files := fun u =>
                if String.eqb u "file:///cache/rec-1.wav"
                then Base64 "data:audio/vnd.wave;base64,UklGRg=="
                else NoSuchFile;
     console := []; alerts := []; network := [] |}.

Definition sample_start : MicrophoneButton.start_env :=
  {| MicrophoneButton.io_mode := None;
     MicrophoneButton.io_prepare := None;
     MicrophoneButton.io_start := None;
     MicrophoneButton.newRecording :=
       {| MicrophoneButton.getURI := Some "file:///cache/rec-1.wav" |} |}.

Definition sample_stop : MicrophoneButton.stop_env :=
  {| MicrophoneButton.io_stop := None;
     MicrophoneButton.now := 1700000000000;
     MicrophoneButton.documentDirectory := "file:///documents/";
     MicrophoneButton.io_mkdir := None;
     MicrophoneButton.io_move := None |}.

(** The button while it records to the sample file, permission granted. *)
Definition recording_state : MicrophoneButton.state :=
  {| MicrophoneButton.recording :=
       Some {| MicrophoneButton.getURI := Some "file:///cache/rec-1.wav" |};
     MicrophoneButton.recordingStatus := "recording";
     MicrophoneButton.audioPermission := Some true |}.

(** ** Observations on schedules *)

(** A task up to the flag of its refinement request. *)
Definition same_pass (t t' : Schedule.task) : Prop :=
  Schedule.params t' = Schedule.params t
  /\ Schedule.refinedText t' = Schedule.refinedText t
  /\ Schedule.check t' = Schedule.check t.

(** The store holds no record for the pair of [p]. *)
Definition absent (p : SpeakerScreen.route_params) (w : world) : Prop :=
  db w = true ->
  forall rs c,
    translations (file w) = Some rs ->
    SpeakerScreen.selectedLanguage p = Some c ->
    find (SQL.matches (SpeakerScreen.transcription p) c) rs = None.

(** The store cannot take a row for [p]. *)
Definition doomed (p : SpeakerScreen.route_params) (w : world) : Prop :=
  db w = false
  \/ translations (file w) = None
  \/ SpeakerScreen.selectedLanguage p = None.

(** The pairs are unique and stay so when the inserts that are with the
    driver are executed. *)
Definition pairs_safe (a : Schedule.app) : Prop :=
  unique_pairs (Schedule.device a)
  /\ forall m t,
      nth_error (Schedule.tasks a) m = Some t ->
      Schedule.check t = Schedule.inserting ->
      absent (Schedule.params t) (Schedule.device a).

(** The store works and holds a record for every pass that is through. *)
Definition passes_recorded (a : Schedule.app) : Prop :=
  db (Schedule.device a) = true
  /\ translations (file (Schedule.device a)) <> None
  /\ forall m t c,
      nth_error (Schedule.tasks a) m = Some t ->
      Schedule.check t = Schedule.finished ->
      SpeakerScreen.selectedLanguage (Schedule.params t) = Some c ->
      find (SQL.matches (SpeakerScreen.transcription (Schedule.params t)) c)
        (rows (Schedule.device a)) <> None.

(** What the first pass of a screen mounted with [p] on [w] leaves in the
    store: nothing, or one row with [translatedText] as it came. *)
Definition raw_written (p : SpeakerScreen.route_params) (w w' : world)
  : Prop :=
  file w' = file w
  \/ exists rs c,
      db w = true
      /\ translations (file w) = Some rs
      /\ SpeakerScreen.selectedLanguage p = Some c
      /\ file w'
         = {| settings := settings (file w);
              translations :=
                Some (rs ++ [new_row (file w) rs
                               (SpeakerScreen.transcription p) c
                               (SpeakerScreen.translatedText p)]);
              sequence :=
                row_id (new_row (file w) rs (SpeakerScreen.transcription p)
                          c (SpeakerScreen.translatedText p)) |}.

(** The application while the passes of the one screen mounted with [p]
    on [w] run: until the lookup of the first pass is executed the store
    is that of [w]; once the first pass is through the store is settled
    and no later insert can be executed with success. *)
Definition first_pass_state (p : SpeakerScreen.route_params) (w : world)
  (a : Schedule.app) : Prop :=
  db (Schedule.device a) = db w
  /\ (forall k q cell,
         nth_error (Schedule.screens a) k = Some (q, cell) -> q = p)
  /\ (forall m t,
         nth_error (Schedule.tasks a) m = Some t -> Schedule.params t = p)
  /\ exists t0,
      nth_error (Schedule.tasks a) O = Some t0
      /\ Schedule.refinedText t0 = SpeakerScreen.translatedText p
      /\ match Schedule.check t0 with
         | Schedule.looking =>
             file (Schedule.device a) = file w
             /\ forall m t,
                 nth_error (Schedule.tasks a) m = Some t ->
                 Schedule.check t = Schedule.looking
         | Schedule.inserting =>
             file (Schedule.device a) = file w
             /\ forall m t,
                 nth_error (Schedule.tasks a) m = Some t -> m <> O ->
                 Schedule.check t = Schedule.looking
         | Schedule.finished =>
             settled p (Schedule.device a)
             /\ raw_written p w (Schedule.device a)
             /\ forall m t,
                 nth_error (Schedule.tasks a) m = Some t ->
                 Schedule.check t = Schedule.inserting ->
                 doomed p (Schedule.device a)
         end.

(** The first pass of the application is still looking. *)
Definition first_pass_looking (a : Schedule.app) : Prop :=
  exists t0,
    nth_error (Schedule.tasks a) O = Some t0
    /\ Schedule.check t0 = Schedule.looking.

(** Two worlds with the same store, console and alerts. *)
Definition agree (w1 w2 : world) : Prop :=
  db w1 = db w2 /\ file w1 = file w2 /\ console w1 = console w2
  /\ alerts w1 = alerts w2.

(** The first pass of a screen, as it starts. *)
Definition started_pass (p : SpeakerScreen.route_params) (text : string)
  : Schedule.task :=
  {| Schedule.screen := O; Schedule.params := p;
     Schedule.refinedText := text; Schedule.check := Schedule.looking;
     Schedule.refining := true |}.



(** The application while the passes of a screen opened from the history
    item of a stored record run. *)
Definition reopened_state (p : SpeakerScreen.route_params) (w : world)
  (a : Schedule.app) : Prop :=
  file (Schedule.device a) = file w
  /\ db (Schedule.device a) = db w
  /\ (forall k q cell,
         nth_error (Schedule.screens a) k = Some (q, cell) -> q = p)
  /\ (forall m t,
         nth_error (Schedule.tasks a) m = Some t -> Schedule.params t = p)
  /\ (forall m t,
         nth_error (Schedule.tasks a) m = Some t ->
         Schedule.check t = Schedule.inserting -> db w = false).

(** * Properties *)

(** ** The store functions, one driver call each *)

Ltac unfold_async :=
  unfold try_catch, try_finally, bind, ret, throw, detach, await, lift,
    setState in *.

Ltac unfold_store :=
  unfold DatabaseService.setupDatabase, DatabaseService.loadInitialData,
    DatabaseService.checkIfTranslationExists, DatabaseService.addTranslation,
    DatabaseService.fetchTranslations, DatabaseService.fetchSettings,
    DatabaseService.updateSettings, DatabaseService.deleteTranslation in *;
  unfold_async.

(** A driver call leaves the handle and everything but the database file
    alone, and leaves the file alone as well when it rejects. *)
Lemma statement_cases {A} (io : fault)
  (run : database -> completion A * database) (w : world) :
  (exists e, statement io run w = (Rejected e, w)) \/
  (exists v d, statement io run w = (Resolved v, with_file d w)
               /\ db w = true /\ io = None /\ run (file w) = (Resolved v, d)).
Proof.
  unfold statement.
  destruct (db w); [| left; eauto].
  destruct io as [e |]; [left; eauto |].
  destruct (run (file w)) as [[v | e] d] eqn:Hrun.
  - right. exists v, d. auto.
  - left. eauto.
Qed.

Lemma checkIfTranslationExists_cases io o l w :
  (DatabaseService.checkIfTranslationExists io o l w
   = (Resolved None,
      snd (console_error "Error checking if translation exists:" w))
   /\ (db w = false \/ io <> None \/ translations (file w) = None))
  \/
  (exists rs,
      db w = true /\ io = None /\ translations (file w) = Some rs /\
      DatabaseService.checkIfTranslationExists io o l w
      = (Resolved match l with
                  | Some c => find (SQL.matches o c) rs
                  | None => None
                  end, w)).
Proof.
  unfold_store. unfold statement, SQL.select_translation.
  destruct (db w) eqn:Hdb; [| left; split; auto].
  destruct io as [e |]; [left; split; [reflexivity | right; left; discriminate] |].
  destruct (translations (file w)) as [rs |] eqn:Hrs.
  - right. exists rs. repeat split; auto.
    destruct l; cbn; unfold with_file; destruct w; cbn in *; subst; reflexivity.
  - left. split; auto.
Qed.

Lemma addTranslation_cases io o l t w :
  (DatabaseService.addTranslation io o l t w
   = (Resolved tt, snd (console_error "Error adding translation" w))
   /\ (db w = false \/ io <> None \/ translations (file w) = None \/ l = None))
  \/
  (exists rs c,
      db w = true /\ io = None /\ translations (file w) = Some rs /\
      l = Some c /\
      DatabaseService.addTranslation io o l t w
      = (Resolved tt,
         with_file
           {| settings := settings (file w);
              translations :=
                Some (rs ++ [{| row_id :=
                                  Z.max (sequence (file w)) (SQL.max_rowid rs) + 1;
                                original_text := o; language := c;
                                translated_text := t |}]);
              sequence := Z.max (sequence (file w)) (SQL.max_rowid rs) + 1 |}
           w)).
Proof.
  unfold_store. unfold statement, SQL.insert_translation.
  destruct (db w) eqn:Hdb; [| left; split; auto].
  destruct io as [e |]; [left; split; [reflexivity | right; left; discriminate] |].
  destruct (translations (file w)) as [rs |] eqn:Hrs; [| left; split; auto].
  destruct l as [c |]; [| left; split; auto 6].
  right. exists rs, c. repeat split; auto.
Qed.

Lemma console_error_file msg w :
  file (snd (console_error msg w)) = file w
  /\ db (snd (console_error msg w)) = db w.
Proof. split; reflexivity. Qed.

Lemma statement_rejects_unchanged {A} (io : fault)
  (run : database -> completion A * database) (w w' : world) (e : exn) :
  statement io run w = (Rejected e, w') -> w' = w.
Proof.
  intros H. destruct (statement_cases io run w) as [[e' He] | (v & d & Hr & _)];
    congruence.
Qed.

Lemma try_statement {A} (io : fault)
  (run : database -> completion A * database) (msg : string) (default : A)
  (w : world) :
  swallowed (statement io run w)
    (try_catch (let! v := statement io run in ret v)
       (fun _ => console_error msg >> ret default) w)
    msg default w.
Proof.
  unfold swallowed. unfold_async.
  destruct (statement io run w) as [[v | e] w'] eqn:Hs; [reflexivity |].
  apply statement_rejects_unchanged in Hs. subst w'. reflexivity.
Qed.

Lemma try_statement_unit (io : fault)
  (run : database -> completion unit * database) (msg : string) (w : world) :
  swallowed (statement io run w)
    (try_catch (statement io run) (fun _ => console_error msg) w)
    msg tt w.
Proof.
  unfold swallowed. unfold_async.
  destruct (statement io run w) as [[[] | e] w'] eqn:Hs; [reflexivity |].
  apply statement_rejects_unchanged in Hs. subst w'. reflexivity.
Qed.

Lemma swallowed_resolves {A} (call result : completion A * world) msg d w :
  swallowed call result msg d w -> exists v w', result = (Resolved v, w').
Proof. unfold swallowed. destruct call as [[v | e] w']; eauto. Qed.

Lemma setupDatabase_resolves io1 io2 io3 w :
  resolves (DatabaseService.setupDatabase io1 io2 io3) w.
Proof.
  unfold resolves, DatabaseService.setupDatabase. unfold_async.
  destruct (openDatabaseSync io1 w) as [[[] | e] w1]; [| unfold console_error; cbn; eauto].
  destruct (statement io2 SQL.create_settings w1) as [[[] | e] w2];
    [| unfold console_error; cbn; eauto].
  destruct (statement io3 SQL.create_translations w2) as [[[] | e] w3];
    unfold console_error; cbn; eauto.
Qed.

Lemma loadInitialData_resolves io1 io2 w :
  resolves (DatabaseService.loadInitialData io1 io2) w.
Proof.
  unfold resolves, DatabaseService.loadInitialData. unfold_async.
  destruct (statement io1 SQL.count_settings w) as [[n | e] w1];
    [| unfold console_error; cbn; eauto].
  destruct (n =? 0); [| eauto].
  destruct (statement io2 SQL.insert_default_settings w1) as [[[] | e] w2];
    unfold console_error; cbn; eauto.
Qed.

(** C5. No function of the database service rejects.  When the driver call
    of one fails, [fetchTranslations] and [fetchSettings] resolve with the
    empty array, [checkIfTranslationExists] with null, and [addTranslation],
    [updateSettings] and [deleteTranslation] with undefined, each after
    logging the error and changing nothing else; [setupDatabase] and
    [loadInitialData] resolve as well. *)
Theorem store_operations_never_reject :
  forall (w : world) (io io' io'' : fault) (o : string) (l : option string)
    (t lang : string) (i : Z),
    resolves (DatabaseService.setupDatabase io io' io'') w
    /\ resolves (DatabaseService.loadInitialData io io') w
    /\ swallowed (statement io SQL.select_translations w)
         (DatabaseService.fetchTranslations io w)
         "Error fetching translations:" [] w
    /\ swallowed (statement io SQL.select_settings w)
         (DatabaseService.fetchSettings io w)
         "Error fetching settings:" [] w
    /\ swallowed (statement io (SQL.select_translation o l) w)
         (DatabaseService.checkIfTranslationExists io o l w)
         "Error checking if translation exists:" None w
    /\ swallowed (statement io (SQL.insert_translation o l t) w)
         (DatabaseService.addTranslation io o l t w)
         "Error adding translation" tt w
    /\ swallowed (statement io (SQL.update_settings lang) w)
         (DatabaseService.updateSettings io lang w)
         "Error updating settings:" tt w
    /\ swallowed (statement io (SQL.delete_translation i) w)
         (DatabaseService.deleteTranslation io i w)
         "Error deleting translation:" tt w
    /\ resolves (DatabaseService.fetchTranslations io) w
    /\ resolves (DatabaseService.fetchSettings io) w
    /\ resolves (DatabaseService.checkIfTranslationExists io o l) w
    /\ resolves (DatabaseService.addTranslation io o l t) w
    /\ resolves (DatabaseService.updateSettings io lang) w
    /\ resolves (DatabaseService.deleteTranslation io i) w.
Proof.
  intros.
  pose proof (try_statement io SQL.select_translations
                "Error fetching translations:" [] w) as H1.
  pose proof (try_statement io SQL.select_settings
                "Error fetching settings:" [] w) as H2.
  pose proof (try_statement io (SQL.select_translation o l)
                "Error checking if translation exists:" None w) as H3.
  pose proof (try_statement_unit io (SQL.insert_translation o l t)
                "Error adding translation" w) as H4.
  pose proof (try_statement_unit io (SQL.update_settings lang)
                "Error updating settings:" w) as H5.
  pose proof (try_statement_unit io (SQL.delete_translation i)
                "Error deleting translation:" w) as H6.
  repeat split;
    try apply setupDatabase_resolves; try apply loadInitialData_resolves;
    try assumption;
    unfold resolves;
    eauto using swallowed_resolves.
Qed.

(** ** Initialisation *)

(** C7. On a store whose settings table is absent or empty, after
    [setupDatabase] and [loadInitialData] ran (no driver failure, no
    [updateSettings]), [fetchSettings] resolves with the single row
    (id 1, language "en"). *)
Theorem settings_default_after_initialisation :
  forall w : world,
    settings (file w) = None \/ settings (file w) = Some [] ->
    fst (DatabaseService.fetchSettings None
           (snd (DatabaseService.loadInitialData None None
                   (snd (DatabaseService.setupDatabase None None None w)))))
    = Resolved [{| settings_id := 1; settings_language := Some "en" |}].
Proof.
  intros [db0 [st tr sq] fs con al net] H. cbn in H.
  destruct H as [-> | ->]; reflexivity.
Qed.

Lemma settings_default_after_initialisation_witness :
  fst (DatabaseService.fetchSettings None
         (snd (DatabaseService.loadInitialData None None
                 (snd (DatabaseService.setupDatabase None None None
                         fresh_world)))))
  = Resolved [{| settings_id := 1; settings_language := Some "en" |}].
Proof.
  apply (settings_default_after_initialisation fresh_world).
  left. reflexivity.
Defined.

(** ** Deleting a history item *)

Lemma filter_keeps_all {A} (f : A -> bool) (l : list A) :
  (forall x, In x l -> f x = true) -> filter f l = l.
Proof.
  induction l as [| a l IH]; intros H; cbn; [reflexivity |].
  rewrite (H a (or_introl eq_refl)). f_equal.
  apply IH. intros x Hx. apply H. right. exact Hx.
Qed.

Lemma other_rowid (i : Z) (r : translation_row) :
  row_id r <> i -> negb (row_id r =? i) = true.
Proof. intros H. apply negb_true_iff, Z.eqb_neq, H. Qed.

Lemma delete_splits (i : Z) (rs : list translation_row) (r : translation_row) :
  primary_key rs -> In r rs -> row_id r = i ->
  exists before after,
    rs = before ++ r :: after
    /\ filter (fun x => negb (row_id x =? i)) rs = before ++ after.
Proof.
  unfold primary_key. intros Hnd Hin Hid.
  destruct (in_split r rs Hin) as (before & after & ->).
  exists before, after. split; [reflexivity |].
  rewrite map_app in Hnd. cbn in Hnd.
  pose proof (NoDup_remove_2 _ _ _ Hnd) as Hnot.
  rewrite filter_app. cbn. rewrite Hid, Z.eqb_refl. cbn.
  f_equal; apply filter_keeps_all; intros x Hx; apply other_rowid;
    intros Heq; apply Hnot; apply in_or_app; [left | right];
    rewrite Hid, <- Heq; apply in_map; exact Hx.
Qed.

(** C9. [deleteTranslation(id)] never rejects.  When no row has the id
    (so on an empty or missing table too) the database file is left as it
    was, whatever the driver does.  When the statement runs on a table that
    holds a row with the id, that row and no other is removed. *)
Theorem deleteTranslation_removes_one_row :
  forall (w : world) (io : fault) (i : Z),
    resolves (DatabaseService.deleteTranslation io i) w
    /\ ((forall r, In r (rows w) -> row_id r <> i) ->
        file (snd (DatabaseService.deleteTranslation io i w)) = file w)
    /\ (forall rs r,
           db w = true -> translations (file w) = Some rs ->
           primary_key rs -> In r rs -> row_id r = i ->
           exists before after,
             rs = before ++ r :: after
             /\ rows (snd (DatabaseService.deleteTranslation None i w))
                = before ++ after).
Proof.
  intros w io i. split; [| split].
  - pose proof (try_statement_unit io (SQL.delete_translation i)
                  "Error deleting translation:" w) as H.
    apply swallowed_resolves in H. exact H.
  - intros Hnone. unfold_store. unfold statement, SQL.delete_translation, rows in *.
    destruct (db w); [| reflexivity].
    destruct io; [reflexivity |].
    destruct (translations (file w)) as [rs |] eqn:Hrs; [| reflexivity].
    cbn. rewrite filter_keeps_all.
    + destruct (file w); cbn in *; subst; reflexivity.
    + intros x Hx. apply other_rowid, Hnone, Hx.
  - intros rs r Hdb Hrs Hpk Hin Hid.
    destruct (delete_splits i rs r Hpk Hin Hid) as (before & after & E & F).
    exists before, after. split; [exact E |].
    unfold_store. unfold statement, SQL.delete_translation, rows.
    rewrite Hdb, Hrs. cbn. exact F.
Qed.

Lemma deleteTranslation_removes_one_row_witness :
  file (snd (DatabaseService.deleteTranslation None 999 started))
  = file started
  /\ exists before after,
      rows two_records
      = before
          ++ {| row_id := 1; original_text := "Bonjour"; language := "en";
                translated_text := "Hello" |} :: after
      /\ rows (snd (DatabaseService.deleteTranslation None 1 two_records))
         = before ++ after.
Proof.
  destruct (deleteTranslation_removes_one_row started None 999)
    as (_ & Hnone & _).
  destruct (deleteTranslation_removes_one_row two_records None 1)
    as (_ & _ & Hone).
  split.
  - apply Hnone. cbn. intros r [].
  - apply (Hone (rows two_records)); try reflexivity.
    + unfold primary_key. cbn.
      constructor; [intros [H | []]; discriminate |].
      constructor; [intros [] | constructor].
    + left. reflexivity.
Defined.

(** ** One pass of the speaker screen's effect *)

Ltac unfold_speaker :=
  unfold SpeakerScreen.effect, SpeakerScreen.checkTranslation,
    SpeakerScreen.refineTextWithOpenAI, SpeakerScreen.setRefinedText in *;
  unfold_store.

(** The refinement call writes the cell when (and only when) the reply
    carries a refined text; it never touches the store. *)
Lemma refineTextWithOpenAI_effect reply text (s : string * world) :
  let s' := snd (SpeakerScreen.refineTextWithOpenAI reply text s) in
  fst s' = match refinement reply with Some r => r | None => fst s end
  /\ file (snd s') = file (snd s)
  /\ db (snd s') = db (snd s).
Proof.
  destruct s as [t w]. unfold refinement. unfold_speaker.
  unfold fetch, console_error.
  destruct reply as [[o st j] | e]; cbn; [| auto].
  destruct o; cbn; [| auto].
  destruct j as [data | e]; cbn; [| auto].
  destruct (SpeakerScreen.refined_of data) as [[r |] | e]; cbn; auto.
  destruct (truthy r); cbn; auto.
Qed.

(** The promise of the refinement call resolves exactly when the body of
    its [try] completes; otherwise the handler's reference to [Alert]
    rejects it. *)
Lemma refineTextWithOpenAI_completion reply text (s : string * world) :
  fst (SpeakerScreen.refineTextWithOpenAI reply text s)
  = match reply with
    | Resolved r =>
        if ok r then
          match json r with
          | Resolved data =>
              match SpeakerScreen.refined_of data with
              | Resolved _ => Resolved tt
              | Rejected _ => Rejected (ReferenceError "Alert")
              end
          | Rejected _ => Rejected (ReferenceError "Alert")
          end
        else Rejected (ReferenceError "Alert")
    | Rejected _ => Rejected (ReferenceError "Alert")
    end.
Proof.
  destruct s as [t w]. unfold_speaker. unfold fetch, console_error.
  destruct reply as [[o st j] | e]; cbn; [| auto].
  destruct o; cbn; [| auto].
  destruct j as [data | e]; cbn; [| auto].
  destruct (SpeakerScreen.refined_of data) as [[r |] | e]; cbn; auto.
  destruct (truthy r); cbn; auto.
Qed.

(** [checkTranslation] resolves with undefined and leaves the cell alone,
    whatever the store does. *)
Lemma checkTranslation_completion ic ia p t (s : string * world) :
  fst (SpeakerScreen.checkTranslation ic ia p t s) = Resolved tt
  /\ fst (snd (SpeakerScreen.checkTranslation ic ia p t s)) = fst s.
Proof.
  destruct s as [c w]. unfold_speaker.
  unfold statement, SQL.select_translation, SQL.insert_translation,
    console_error. cbn.
  destruct (db w) eqn:Hdb; cbn; rewrite ?Hdb; cbn; [| auto].
  destruct (translations (file w)) as [rs |] eqn:Hrs;
    destruct (SpeakerScreen.selectedLanguage p) as [l |];
    destruct ic; cbn; rewrite ?Hdb, ?Hrs; cbn;
    try destruct (find _ rs); cbn; rewrite ?Hdb, ?Hrs; cbn;
    destruct ia; cbn; rewrite ?Hrs; cbn; auto.
Qed.

(** What [checkTranslation] does to the store: nothing, or one row
    appended that carries the text the closure holds. *)
Lemma checkTranslation_store ic ia p t (s : string * world) :
  let w := snd s in
  let w' := snd (snd (SpeakerScreen.checkTranslation ic ia p t s)) in
  db w' = db w
  /\ (file w' = file w
      \/ exists rs c,
          db w = true /\ ia = None
          /\ translations (file w) = Some rs
          /\ SpeakerScreen.selectedLanguage p = Some c
          /\ (ic = None ->
              find (SQL.matches (SpeakerScreen.transcription p) c) rs = None)
          /\ file w'
             = {| settings := settings (file w);
                  translations :=
                    Some (rs ++ [new_row (file w) rs
                                   (SpeakerScreen.transcription p) c t]);
                  sequence :=
                    row_id (new_row (file w) rs
                              (SpeakerScreen.transcription p) c t) |}).
Proof.
  destruct s as [c0 w]. cbn [snd fst]. unfold_speaker. cbn [snd fst].
  unfold statement, SQL.select_translation, SQL.insert_translation,
    console_error.
  destruct (db w) eqn:Hdb; cbn; rewrite ?Hdb; cbn; [| auto].
  destruct (translations (file w)) as [rs |] eqn:Hrs.
  - destruct (SpeakerScreen.selectedLanguage p) as [c |] eqn:Hl.
    + destruct ic as [e |]; cbn; rewrite ?Hdb; cbn.
      * destruct ia; cbn; rewrite ?Hrs; cbn; [auto |].
        split; [solve [auto] |]. right. exists rs, c.
        repeat (split; [solve [auto | discriminate] |]); auto.
      * rewrite ?Hrs. cbn.
        destruct (find _ rs) eqn:Hf; cbn; rewrite ?Hdb; cbn; [auto |].
        destruct ia; cbn; rewrite ?Hrs; cbn; [auto |].
        split; [solve [auto] |]. right. exists rs, c.
        repeat (split; [solve [auto | discriminate] |]); auto.
    + destruct ic as [e |]; cbn; rewrite ?Hdb; cbn;
        rewrite ?Hrs; cbn; rewrite ?Hdb; cbn;
        destruct ia; cbn; rewrite ?Hrs; cbn; auto.
  - destruct ic as [e |]; cbn; rewrite ?Hdb; cbn;
      rewrite ?Hrs; cbn; rewrite ?Hdb; cbn;
      destruct ia; cbn; rewrite ?Hrs; cbn; auto.
Qed.

Lemma effect_unfold p e (s : string * world) :
  SpeakerScreen.effect p e s
  = (Resolved tt,
     snd (SpeakerScreen.checkTranslation (SpeakerScreen.io_check e)
            (SpeakerScreen.io_add e) p (fst s)
            (snd (SpeakerScreen.refineTextWithOpenAI (SpeakerScreen.openai e)
                    (SpeakerScreen.translatedText p) s)))).
Proof. reflexivity. Qed.

Lemma effect_cell p e (s : string * world) :
  fst (snd (SpeakerScreen.effect p e s))
  = match refinement (SpeakerScreen.openai e) with
    | Some r => r
    | None => fst s
    end.
Proof.
  rewrite effect_unfold. cbn [snd].
  destruct (checkTranslation_completion (SpeakerScreen.io_check e)
              (SpeakerScreen.io_add e) p (fst s)
              (snd (SpeakerScreen.refineTextWithOpenAI
                      (SpeakerScreen.openai e)
                      (SpeakerScreen.translatedText p) s))) as [_ ->].
  apply refineTextWithOpenAI_effect.
Qed.

(** The store after a pass: untouched, or one row appended that carries
    the text of the cell as the pass found it. *)
Lemma effect_store p e (s : string * world) :
  let w := snd s in
  let w' := snd (snd (SpeakerScreen.effect p e s)) in
  db w' = db w
  /\ (file w' = file w
      \/ exists rs c,
          db w = true /\ SpeakerScreen.io_add e = None
          /\ translations (file w) = Some rs
          /\ SpeakerScreen.selectedLanguage p = Some c
          /\ (SpeakerScreen.io_check e = None ->
              find (SQL.matches (SpeakerScreen.transcription p) c) rs = None)
          /\ file w'
             = {| settings := settings (file w);
                  translations :=
                    Some (rs ++ [new_row (file w) rs
                                   (SpeakerScreen.transcription p) c (fst s)]);
                  sequence :=
                    row_id (new_row (file w) rs
                              (SpeakerScreen.transcription p) c (fst s)) |}).
Proof.
  cbn zeta. rewrite effect_unfold. cbn [snd].
  pose proof (refineTextWithOpenAI_effect (SpeakerScreen.openai e)
                (SpeakerScreen.translatedText p) s) as (_ & Hf & Hd).
  pose proof (checkTranslation_store (SpeakerScreen.io_check e)
                (SpeakerScreen.io_add e) p (fst s)
                (snd (SpeakerScreen.refineTextWithOpenAI
                        (SpeakerScreen.openai e)
                        (SpeakerScreen.translatedText p) s))) as H.
  cbn zeta in H. rewrite Hf, Hd in H. exact H.
Qed.

Lemma find_none_no_pair o c rs :
  find (SQL.matches o c) rs = None -> ~ In (o, c) (map pair_of rs).
Proof.
  intros Hf Hin. apply in_map_iff in Hin. destruct Hin as (r & Hp & Hr).
  pose proof (find_none _ _ Hf r Hr) as Hm.
  unfold pair_of in Hp. injection Hp as Ho Hc.
  unfold SQL.matches in Hm. rewrite Ho, Hc, !String.eqb_refl in Hm.
  discriminate.
Qed.

Lemma find_appended o c t d rs :
  find (SQL.matches o c) (rs ++ [new_row d rs o c t]) <> None.
Proof.
  intros Hf.
  pose proof (find_none _ _ Hf (new_row d rs o c t)) as Hm.
  unfold SQL.matches, new_row in Hm. cbn in Hm.
  rewrite !String.eqb_refl in Hm.
  assert (true && true = false) as Habs
    by (apply Hm, in_or_app; right; left; reflexivity).
  discriminate.
Qed.

Lemma NoDup_snoc {A} (l : list A) (x : A) :
  NoDup l -> ~ In x l -> NoDup (l ++ [x]).
Proof.
  intros Hnd Hx. induction Hnd as [| a l Ha Hnd IH]; cbn.
  - constructor; [intros [] | constructor].
  - constructor.
    + intros Hin. apply in_app_or in Hin. destruct Hin as [Hin | [-> | []]].
      * exact (Ha Hin).
      * apply Hx. left. reflexivity.
    + apply IH. intros Hin. apply Hx. right. exact Hin.
Qed.

Lemma max_rowid_bound (rs : list translation_row) (r : translation_row) :
  In r rs -> row_id r <= SQL.max_rowid rs.
Proof.
  induction rs as [| a rs IH]; [intros [] |].
  intros Hin.
  change (SQL.max_rowid (a :: rs)) with (Z.max (row_id a) (SQL.max_rowid rs)).
  destruct Hin as [-> | Hin]; [lia |]. specialize (IH Hin). lia.
Qed.

Lemma new_row_fresh d rs o c t :
  ~ In (row_id (new_row d rs o c t)) (map row_id rs).
Proof.
  intros Hin. apply in_map_iff in Hin. destruct Hin as (r & Hid & Hr).
  apply max_rowid_bound in Hr. unfold new_row in Hid. cbn in Hid. lia.
Qed.

(** A pass whose lookup runs keeps the pairs unique; any pass keeps the
    primary key. *)
Lemma effect_unique_pairs p e (s : string * world) :
  SpeakerScreen.io_check e = None ->
  unique_pairs (snd s) ->
  unique_pairs (snd (snd (SpeakerScreen.effect p e s))).
Proof.
  intros Hic Hu.
  destruct (effect_store p e s) as [_ [Hsame | (rs & c & _ & _ & Hrs & _ & Hf & Hfile)]];
    unfold unique_pairs, rows in *.
  - rewrite Hsame. exact Hu.
  - rewrite Hfile. cbn. rewrite Hrs in Hu. rewrite map_app. cbn.
    apply NoDup_snoc; [exact Hu |].
    apply find_none_no_pair, Hf, Hic.
Qed.

Lemma effect_primary_key p e (s : string * world) :
  primary_key (rows (snd s)) ->
  primary_key (rows (snd (snd (SpeakerScreen.effect p e s)))).
Proof.
  intros Hu.
  destruct (effect_store p e s) as [_ [Hsame | (rs & c & _ & _ & Hrs & _ & _ & Hfile)]];
    unfold primary_key, rows in *.
  - rewrite Hsame. exact Hu.
  - rewrite Hfile. cbn [translations]. rewrite Hrs in Hu. rewrite map_app.
    apply NoDup_snoc; [exact Hu |]. apply new_row_fresh.
Qed.

Lemma rerender_invariant (P : world -> Prop) p (passes : list SpeakerScreen.pass) :
  (forall e s, In e passes -> P (snd s) ->
               P (snd (snd (SpeakerScreen.effect p e s)))) ->
  forall s, P (snd s) -> P (snd (SpeakerScreen.rerender p passes s)).
Proof.
  induction passes as [| e rest IH]; intros Hstep s Hs; cbn; [exact Hs |].
  assert (P (snd (snd (SpeakerScreen.effect p e s)))) as H1
    by (apply Hstep; [left; reflexivity | exact Hs]).
  destruct (String.eqb _ _); [exact H1 |].
  apply IH; [| exact H1].
  intros e' s' Hin. apply Hstep. right. exact Hin.
Qed.

(** ** A settled store stays as it is *)

Lemma settled_same p (w w' : world) :
  file w' = file w -> db w' = db w -> settled p w -> settled p w'.
Proof. unfold settled. intros -> ->. exact (fun H => H). Qed.

Lemma effect_settled p e (s : string * world) :
  SpeakerScreen.io_check e = None ->
  settled p (snd s) ->
  file (snd (snd (SpeakerScreen.effect p e s))) = file (snd s).
Proof.
  intros Hic Hs.
  destruct (effect_store p e s)
    as [_ [Hsame | (rs & c & Hdb & _ & Hrs & Hl & Hf & _)]];
    [exact Hsame |].
  exfalso. specialize (Hf Hic).
  destruct Hs as [H | [H | [H | (rs' & c' & Hrs' & Hl' & Hfound)]]];
    congruence.
Qed.

Lemma effect_db p e (s : string * world) :
  db (snd (snd (SpeakerScreen.effect p e s))) = db (snd s).
Proof. apply effect_store. Qed.

Lemma rerender_settled p (passes : list SpeakerScreen.pass)
  (s : string * world) :
  lookups_succeed passes ->
  settled p (snd s) ->
  file (snd (SpeakerScreen.rerender p passes s)) = file (snd s)
  /\ db (snd (SpeakerScreen.rerender p passes s)) = db (snd s).
Proof.
  intros Hl Hs.
  apply (rerender_invariant
           (fun w => file w = file (snd s) /\ db w = db (snd s)));
    [| split; reflexivity].
  intros e s1 Hin [Hf Hd].
  unfold lookups_succeed in Hl. rewrite Forall_forall in Hl.
  split.
  - rewrite <- Hf. apply effect_settled; [apply Hl, Hin |].
    apply (settled_same p (snd s)); assumption.
  - rewrite effect_db. exact Hd.
Qed.

(** After a pass whose insert is not refused the store is settled. *)
Lemma checkTranslation_settles ic p t (s : string * world) :
  settled p (snd (snd (SpeakerScreen.checkTranslation ic None p t s))).
Proof.
  destruct s as [c0 w]. cbn [snd fst]. unfold settled. unfold_speaker.
  cbn [snd fst].
  unfold statement, SQL.select_translation, SQL.insert_translation,
    console_error.
  destruct (db w) eqn:Hdb; cbn; rewrite ?Hdb; cbn; [| auto].
  destruct (translations (file w)) as [rs |] eqn:Hrs;
    [| destruct ic; cbn; rewrite ?Hdb; cbn; rewrite ?Hrs; cbn; auto].
  destruct (SpeakerScreen.selectedLanguage p) as [c |] eqn:Hl;
    [| destruct ic; cbn; rewrite ?Hdb; cbn; rewrite ?Hrs; cbn; auto].
  assert (forall d,
             find (SQL.matches (SpeakerScreen.transcription p) c)
               (rs ++ [new_row d rs (SpeakerScreen.transcription p) c t])
             <> None) as Happ by (intros d; apply find_appended).
  destruct ic as [e |]; cbn; rewrite ?Hdb; cbn; rewrite ?Hrs; cbn.
  - right. right. right. eexists. exists c.
    split; [reflexivity |]. split; [reflexivity |]. apply (Happ (file w)).
  - destruct (find _ rs) eqn:Hf; cbn; rewrite ?Hdb; cbn; rewrite ?Hrs; cbn.
    + right. right. right. exists rs, c.
      split; [reflexivity |]. split; [reflexivity |]. congruence.
    + right. right. right. eexists. exists c.
      split; [reflexivity |]. split; [reflexivity |]. apply (Happ (file w)).
Qed.

Lemma effect_settles p e (s : string * world) :
  SpeakerScreen.io_add e = None ->
  settled p (snd (snd (SpeakerScreen.effect p e s))).
Proof.
  intros Hia. rewrite effect_unfold. cbn [snd]. rewrite Hia.
  apply checkTranslation_settles.
Qed.

(** ** The store under the other actions *)

Lemma deleteTranslation_rows io i w :
  let w' := snd (DatabaseService.deleteTranslation io i w) in
  db w' = db w
  /\ (rows w' = rows w
      \/ rows w' = filter (fun r => negb (row_id r =? i)) (rows w)).
Proof.
  cbn zeta. unfold_store.
  unfold statement, SQL.delete_translation, console_error, rows.
  destruct (db w) eqn:Hdb; cbn; [| auto].
  destruct io; cbn; [auto |].
  destruct (translations (file w)) eqn:Hrs; cbn; rewrite ?Hrs; auto.
Qed.

Lemma updateSettings_rows io lang w :
  let w' := snd (DatabaseService.updateSettings io lang w) in
  db w' = db w /\ rows w' = rows w.
Proof.
  cbn zeta. unfold_store.
  unfold statement, SQL.update_settings, console_error, rows.
  destruct (db w) eqn:Hdb; cbn; [| auto].
  destruct io; cbn; [auto |].
  destruct (settings (file w)) eqn:Hst; cbn; rewrite ?Hst; auto.
Qed.

Lemma setupDatabase_rows io1 io2 io3 w :
  rows (snd (DatabaseService.setupDatabase io1 io2 io3 w)) = rows w.
Proof.
  destruct w as [d [st tr sq] fs con al net].
  unfold rows. unfold_store.
  unfold openDatabaseSync, statement, console_error, with_db, with_file,
    SQL.create_settings, SQL.create_translations.
  destruct d, io1, io2, io3, st, tr; reflexivity.
Qed.

Lemma loadInitialData_rows io4 io5 w :
  rows (snd (DatabaseService.loadInitialData io4 io5 w)) = rows w.
Proof.
  destruct w as [d [st tr sq] fs con al net].
  unfold rows. unfold_store.
  unfold statement, console_error, with_file, SQL.count_settings,
    SQL.insert_default_settings.
  destruct d, io4, io5, st as [st |]; cbn; try reflexivity;
    destruct (Z.of_nat (List.length st) =? 0); cbn; try reflexivity;
    destruct (existsb _ st); reflexivity.
Qed.

Lemma initialise_rows io1 io2 io3 io4 io5 w :
  rows (snd (initialise io1 io2 io3 io4 io5 w)) = rows w.
Proof.
  pose proof (setupDatabase_rows io1 io2 io3 w) as H1.
  unfold initialise. unfold_async.
  destruct (DatabaseService.setupDatabase io1 io2 io3 w) as [[[] | e] w1];
    cbn [snd] in H1; [| exact H1].
  pose proof (loadInitialData_rows io4 io5 w1) as H2.
  destruct (DatabaseService.loadInitialData io4 io5 w1) as [[[] | e] w2];
    cbn [snd] in H2; unfold console_error, rows in *; cbn in *; congruence.
Qed.

Lemma NoDup_map_filter {A B} (f : A -> B) (g : A -> bool) (l : list A) :
  NoDup (map f l) -> NoDup (map f (filter g l)).
Proof.
  induction l as [| a l IH]; cbn; intros H; [exact H |].
  inversion H as [| x xs Hnot Hnd]; subst.
  destruct (g a); cbn; [constructor |]; auto.
  intros Hin. apply Hnot. apply in_map_iff in Hin.
  destruct Hin as (y & Hy & Hin). apply filter_In in Hin.
  rewrite <- Hy. apply in_map, Hin.
Qed.

Lemma mount_unique_pairs p passes w :
  lookups_succeed passes ->
  unique_pairs w -> unique_pairs (snd (SpeakerScreen.mount p passes w)).
Proof.
  intros Hl Hu. unfold SpeakerScreen.mount.
  apply (rerender_invariant unique_pairs); [| exact Hu].
  intros e s Hin. apply effect_unique_pairs.
  unfold lookups_succeed in Hl. rewrite Forall_forall in Hl. apply Hl, Hin.
Qed.

Lemma act_unique_pairs a w :
  action_lookups_succeed a -> unique_pairs w -> unique_pairs (act a w).
Proof.
  destruct a as [io1 io2 io3 io4 io5 | p passes | io i | io lang]; cbn;
    intros Hl Hu.
  - unfold unique_pairs. rewrite initialise_rows. exact Hu.
  - apply mount_unique_pairs; assumption.
  - destruct (deleteTranslation_rows io i w) as [_ [H | H]];
      unfold unique_pairs; rewrite H; [exact Hu |].
    apply NoDup_map_filter, Hu.
  - destruct (updateSettings_rows io lang w) as [_ H].
    unfold unique_pairs. rewrite H. exact Hu.
Qed.

(** The primary key of [translations] holds in every store the
    application reaches. *)
Lemma act_primary_key a w :
  primary_key (rows w) -> primary_key (rows (act a w)).
Proof.
  destruct a as [io1 io2 io3 io4 io5 | p passes | io i | io lang]; cbn;
    intros Hu.
  - rewrite initialise_rows. exact Hu.
  - unfold SpeakerScreen.mount.
    apply (rerender_invariant (fun w => primary_key (rows w))); [| exact Hu].
    intros e s _. apply effect_primary_key.
  - destruct (deleteTranslation_rows io i w) as [_ [H | H]];
      rewrite H; [exact Hu |].
    apply NoDup_map_filter, Hu.
  - destruct (updateSettings_rows io lang w) as [_ H]. rewrite H. exact Hu.
Qed.

Lemma run_actions_primary_key l w :
  primary_key (rows w) -> primary_key (rows (run_actions l w)).
Proof.
  revert w. induction l as [| a l IH]; intros w H; cbn; [exact H |].
  apply IH, act_primary_key, H.
Qed.

Lemma matches_pair o c r :
  SQL.matches o c r = true <-> pair_of r = (o, c).
Proof.
  unfold SQL.matches, pair_of. rewrite andb_true_iff, !String.eqb_eq.
  split; [intros [-> ->]; reflexivity | intros H; injection H; auto].
Qed.

Lemma unique_match_count o c rs :
  NoDup (map pair_of rs) ->
  find (SQL.matches o c) rs <> None ->
  List.length (filter (SQL.matches o c) rs) = 1%nat.
Proof.
  induction rs as [| a rs IH]; cbn; intros Hnd Hf; [congruence |].
  inversion Hnd as [| x xs Hnot Hnd']; subst.
  destruct (SQL.matches o c a) eqn:Hm.
  - cbn. f_equal.
    assert (filter (SQL.matches o c) rs = []) as ->; [| reflexivity].
    destruct (filter (SQL.matches o c) rs) as [| b l] eqn:Hfl; [reflexivity |].
    exfalso. apply Hnot.
    assert (In b (filter (SQL.matches o c) rs)) as Hb
      by (rewrite Hfl; left; reflexivity).
    apply filter_In in Hb. destruct Hb as [Hin Hmb].
    apply matches_pair in Hm. apply matches_pair in Hmb.
    rewrite Hm, <- Hmb. apply in_map, Hin.
  - apply IH; assumption.
Qed.

(** ** The speaker screen from mount to rest *)

Lemma mount_unfold p e passes w :
  SpeakerScreen.mount p (e :: passes) w
  = let s1 := snd (SpeakerScreen.effect p e (SpeakerScreen.translatedText p, w)) in
    if String.eqb (fst s1) (SpeakerScreen.translatedText p) then s1
    else SpeakerScreen.rerender p passes s1.
Proof. reflexivity. Qed.

(** When the first insert is not refused and the later lookups run, the
    store is settled by the first pass and the later passes leave it. *)
Lemma mount_settles p e passes w :
  SpeakerScreen.io_add e = None ->
  lookups_succeed passes ->
  let s1 := snd (SpeakerScreen.effect p e (SpeakerScreen.translatedText p, w)) in
  let w' := snd (SpeakerScreen.mount p (e :: passes) w) in
  settled p w' /\ file w' = file (snd s1) /\ db w' = db w.
Proof.
  intros Hia Hl. cbn zeta. rewrite mount_unfold. cbn zeta.
  pose proof (effect_settles p e (SpeakerScreen.translatedText p, w) Hia) as Hs.
  pose proof (effect_db p e (SpeakerScreen.translatedText p, w)) as Hd.
  cbn [snd] in Hd.
  destruct (String.eqb _ _); [auto |].
  destruct (rerender_settled p passes _ Hl Hs) as [Hf Hd'].
  split; [| split; congruence].
  apply (settled_same p _ _ Hf Hd' Hs).
Qed.

(** ** Schedules: the steps *)

Lemma nth_error_update {A} (f : A -> A) (l : list A) (n m : nat) :
  nth_error (Schedule.update n f l) m
  = if Nat.eqb n m then option_map f (nth_error l m) else nth_error l m.
Proof.
  revert n m. induction l as [| x l IH]; intros n m.
  - destruct n, m; cbn; try reflexivity; destruct (Nat.eqb _ _); reflexivity.
  - destruct n as [| n], m as [| m]; cbn; try reflexivity. apply IH.
Qed.

Lemma nth_error_snoc {A} (l : list A) (x y : A) (m : nat) :
  nth_error (l ++ [x]) m = Some y ->
  nth_error l m = Some y \/ (nth_error l m = None /\ y = x).
Proof.
  revert m. induction l as [| a l IH]; intros m H.
  - destruct m as [| m]; cbn in H.
    + right. split; [reflexivity | congruence].
    + destruct m; discriminate.
  - destruct m as [| m]; cbn in *; [left; exact H | apply IH, H].
Qed.

Lemma refine_split reply text (s : string * world) :
  SpeakerScreen.refineTextWithOpenAI reply text s
  = Schedule.refine_reply reply
      (fst s, snd (Schedule.refine_request text (snd s))).
Proof.
  destruct s as [c w]. unfold SpeakerScreen.refineTextWithOpenAI,
    Schedule.refine_reply, Schedule.refine_request, fetch.
  unfold_async. cbn [fst snd]. destruct reply; reflexivity.
Qed.

(** The arrival of a reply writes the cell when the reply carries a
    refined text and leaves the store alone. *)
Lemma refine_reply_effect reply (s : string * world) :
  let s' := snd (Schedule.refine_reply reply s) in
  fst s' = match refinement reply with Some r => r | None => fst s end
  /\ file (snd s') = file (snd s)
  /\ db (snd s') = db (snd s)
  /\ network (snd s') = network (snd s).
Proof.
  destruct s as [t w]. unfold refinement, Schedule.refine_reply.
  unfold SpeakerScreen.setRefinedText. unfold_async. unfold console_error.
  destruct reply as [[o st j] | e]; cbn; [| auto].
  destruct o; cbn; [| auto].
  destruct j as [data | e]; cbn; [| auto].
  destruct (SpeakerScreen.refined_of data) as [[r |] | e]; cbn; auto.
  destruct (truthy r); cbn; auto.
Qed.

Lemma same_pass_refl t : same_pass t t.
Proof. repeat split. Qed.

(** A navigation and a reply leave the store and the passes that run
    alone; what they add is a pass that is looking. *)
Lemma navigate_frame p a :
  file (Schedule.device (Schedule.step (Schedule.Navigate p) a))
  = file (Schedule.device a)
  /\ db (Schedule.device (Schedule.step (Schedule.Navigate p) a))
     = db (Schedule.device a)
  /\ forall m t',
      nth_error (Schedule.tasks (Schedule.step (Schedule.Navigate p) a)) m
      = Some t' ->
      nth_error (Schedule.tasks a) m = Some t'
      \/ (nth_error (Schedule.tasks a) m = None
          /\ Schedule.check t' = Schedule.looking
          /\ Schedule.params t' = p
          /\ Schedule.refinedText t' = SpeakerScreen.translatedText p).
Proof.
  cbn. split; [reflexivity |]. split; [reflexivity |].
  intros m t' H. apply nth_error_snoc in H.
  destruct H as [H | [H ->]]; [left; exact H | right; auto].
Qed.

Lemma reply_frame n r a :
  file (Schedule.device (Schedule.step (Schedule.Reply n r) a))
  = file (Schedule.device a)
  /\ db (Schedule.device (Schedule.step (Schedule.Reply n r) a))
     = db (Schedule.device a)
  /\ forall m t',
      nth_error (Schedule.tasks (Schedule.step (Schedule.Reply n r) a)) m
      = Some t' ->
      (exists t, nth_error (Schedule.tasks a) m = Some t /\ same_pass t t')
      \/ (nth_error (Schedule.tasks a) m = None
          /\ Schedule.check t' = Schedule.looking
          /\ exists t0 cell,
              nth_error (Schedule.tasks a) n = Some t0
              /\ nth_error (Schedule.screens a) (Schedule.screen t0)
                 = Some (Schedule.params t', cell)
              /\ refinement r = Some (Schedule.refinedText t')).
Proof.
  cbn [Schedule.step].
  destruct (nth_error (Schedule.tasks a) n) as [t0 |] eqn:Ht0;
    [| split; [reflexivity |]; split; [reflexivity |];
       intros m t' H; left; exists t'; split; [exact H | apply same_pass_refl]].
  destruct (Schedule.refining t0);
    [| split; [reflexivity |]; split; [reflexivity |];
       intros m t' H; left; exists t'; split; [exact H | apply same_pass_refl]].
  destruct (nth_error (Schedule.screens a) (Schedule.screen t0))
    as [[p cell] |] eqn:Hscr;
    [| split; [reflexivity |]; split; [reflexivity |];
       intros m t' H; left; exists t'; split; [exact H | apply same_pass_refl]].
  cbn zeta.
  destruct (refine_reply_effect r (cell, Schedule.device a))
    as (Hc & Hf & Hd & _). cbn zeta in Hc, Hf, Hd. cbn [fst snd] in Hc, Hf, Hd.
  assert (forall m t',
             nth_error (Schedule.update n Schedule.replied (Schedule.tasks a)) m
             = Some t' ->
             exists t, nth_error (Schedule.tasks a) m = Some t
                       /\ same_pass t t') as Hold.
  { intros m t' H. rewrite nth_error_update in H.
    destruct (Nat.eqb n m).
    - destruct (nth_error (Schedule.tasks a) m) as [t |]; [| discriminate].
      cbn in H. injection H as <-. exists t. repeat split.
    - exists t'. split; [exact H | apply same_pass_refl]. }
  destruct (String.eqb _ cell) eqn:E.
  - cbn. split; [exact Hf |]. split; [exact Hd |].
    intros m t' H. left. apply Hold, H.
  - cbn. split; [exact Hf |]. split; [exact Hd |].
    intros m t' H. apply nth_error_snoc in H.
    destruct H as [H | [H ->]]; [left; apply Hold, H |].
    right. split.
    + rewrite nth_error_update in H.
      destruct (Nat.eqb n m); [| exact H].
      destruct (nth_error (Schedule.tasks a) m); [discriminate | reflexivity].
    + split; [reflexivity |]. exists t0, cell. cbn.
      split; [reflexivity |]. split; [exact Hscr |].
      rewrite Hc in *. destruct (refinement r); [reflexivity |].
      rewrite String.eqb_refl in E. discriminate.
Qed.

Lemma insert_is_next_task e k l n t :
  Schedule.insert_is_next e k l = true ->
  nth_error l n = Some t -> Schedule.check t = Schedule.inserting ->
  match e with
  | Schedule.Insert m _ => m = (k + n)%nat
  | Schedule.Navigate _ | Schedule.Reply _ _ => True
  | _ => False
  end.
Proof.
  revert k n. induction l as [| x l IH]; intros k n H Hn Hc.
  - destruct n; discriminate.
  - cbn [Schedule.insert_is_next] in H. apply andb_prop in H as [Hx Hl].
    destruct n as [| n]; cbn in Hn.
    + injection Hn as ->. rewrite Hc in Hx.
      destruct e; try discriminate; try exact I.
      apply Nat.eqb_eq in Hx. lia.
    + pose proof (IH (S k) n Hl Hn Hc) as H.
      destruct e; try exact H. lia.
Qed.

(** When [e] is another statement than an insert, no insert is with the
    driver. *)
Lemma insert_is_next_none e l n t :
  Schedule.insert_is_next e O l = true ->
  match e with
  | Schedule.Navigate _ | Schedule.Reply _ _ | Schedule.Insert _ _ => False
  | _ => True
  end ->
  nth_error l n = Some t -> Schedule.check t <> Schedule.inserting.
Proof.
  intros H He Hn Hc.
  pose proof (insert_is_next_task e O l n t H Hn Hc) as Hnext.
  destruct e; auto.
Qed.

Lemma find_kept {A} (f : A -> bool) (l : list A) (x : A) :
  find f l <> None -> find f (l ++ [x]) <> None.
Proof.
  induction l as [| a l IH]; cbn; [congruence |].
  destruct (f a); [discriminate | exact IH].
Qed.

Lemma absent_same p w w' :
  file w' = file w -> db w' = db w -> absent p w -> absent p w'.
Proof. unfold absent. intros -> ->. exact (fun H => H). Qed.

Lemma unique_pairs_same w w' :
  file w' = file w -> unique_pairs w -> unique_pairs w'.
Proof. unfold unique_pairs, rows. intros ->. exact (fun H => H). Qed.

(** The lookup of a pass: the store is as before, and the pass goes on to
    insert only if no record answers the lookup or the lookup fails. *)
Lemma lookup_outcome io (p : SpeakerScreen.route_params) w :
  let r := DatabaseService.checkIfTranslationExists io
             (SpeakerScreen.transcription p)
             (SpeakerScreen.selectedLanguage p) w in
  file (snd r) = file w /\ db (snd r) = db w
  /\ ((exists row, fst r = Resolved (Some row)
                   /\ db w = true /\ io = None
                   /\ exists rs c,
                       translations (file w) = Some rs
                       /\ SpeakerScreen.selectedLanguage p = Some c
                       /\ find (SQL.matches (SpeakerScreen.transcription p) c)
                            rs = Some row)
      \/ (fst r = Resolved None /\ (io = None -> absent p w))).
Proof.
  cbn zeta.
  destruct (checkIfTranslationExists_cases io
              (SpeakerScreen.transcription p)
              (SpeakerScreen.selectedLanguage p) w)
    as [[-> Hwhy] | (rs & Hdb & Hio & Hrs & ->)]; cbn [fst snd].
  - split; [reflexivity |]. split; [reflexivity |]. right.
    split; [reflexivity |]. intros -> Hd rs c Hrs _.
    destruct Hwhy as [H | [H | H]]; congruence.
  - split; [reflexivity |]. split; [reflexivity |].
    destruct (SpeakerScreen.selectedLanguage p) as [c |] eqn:Hl.
    + destruct (find _ rs) as [row |] eqn:Hf.
      * left. exists row. repeat split; auto. exists rs, c. auto.
      * right. split; [reflexivity |]. intros _ _ rs' c' Hrs' Hc'.
        congruence.
    + right. split; [reflexivity |]. intros _ _ rs' c' _ Hc'. congruence.
Qed.

(** The insert of a pass: refused, or one row appended. *)
Lemma insert_outcome io (p : SpeakerScreen.route_params) t w :
  let w' := snd (DatabaseService.addTranslation io
                   (SpeakerScreen.transcription p)
                   (SpeakerScreen.selectedLanguage p) t w) in
  db w' = db w
  /\ ((file w' = file w /\ (io = None -> doomed p w))
      \/ exists rs c,
          db w = true /\ io = None
          /\ translations (file w) = Some rs
          /\ SpeakerScreen.selectedLanguage p = Some c
          /\ file w'
             = {| settings := settings (file w);
                  translations :=
                    Some (rs ++ [new_row (file w) rs
                                   (SpeakerScreen.transcription p) c t]);
                  sequence :=
                    row_id (new_row (file w) rs
                              (SpeakerScreen.transcription p) c t) |}).
Proof.
  cbn zeta.
  destruct (addTranslation_cases io (SpeakerScreen.transcription p)
              (SpeakerScreen.selectedLanguage p) t w)
    as [[-> Hwhy] | (rs & c & Hdb & Hio & Hrs & Hl & ->)]; cbn [fst snd].
  - split; [reflexivity |]. left. split; [reflexivity |].
    intros ->. unfold doomed.
    destruct Hwhy as [H | [H | [H | H]]]; auto. congruence.
  - split; [reflexivity |]. right. exists rs, c. auto.
Qed.

Ltac task_cases a n t Ht Hc :=
  cbn [Schedule.step];
  destruct (nth_error (Schedule.tasks a) n) as [t |] eqn:Ht;
  [destruct (Schedule.check t) eqn:Hc |].

Lemma step_pairs_safe e a :
  Schedule.insert_is_next e O (Schedule.tasks a) = true ->
  Schedule.answered e ->
  pairs_safe a -> pairs_safe (Schedule.step e a).
Proof.
  intros Hnext Hans [Hu Hsafe].
  pose proof (fun He n t => insert_is_next_none e _ n t Hnext He) as Hnone.
  destruct e as [p | n r | n io | n io | io i | io lang | io1 io2 io3 io4 io5].
  - destruct (navigate_frame p a) as (Hf & Hd & Ht).
    split; [apply (unique_pairs_same _ _ Hf Hu) |].
    intros m t' Hm Hc. destruct (Ht m t' Hm) as [H | (_ & H & _)];
      [| congruence].
    apply (absent_same _ _ _ Hf Hd). apply (Hsafe m t' H Hc).
  - destruct (reply_frame n r a) as (Hf & Hd & Ht).
    split; [apply (unique_pairs_same _ _ Hf Hu) |].
    intros m t' Hm Hc.
    destruct (Ht m t' Hm) as [(t & H & Hp & _ & Hsame) | (_ & H & _)];
      [| congruence].
    apply (absent_same _ _ _ Hf Hd). rewrite Hp.
    apply (Hsafe m t H). congruence.
  - task_cases a n t Ht Hc; try (split; assumption).
    destruct io as [e |]; [destruct Hans |].
    destruct (lookup_outcome None (Schedule.params t) (Schedule.device a))
      as (Hf & Hd & Hres). cbn zeta in Hf, Hd, Hres.
    split; cbn [Schedule.device Schedule.tasks];
      [apply (unique_pairs_same _ _ Hf Hu) |].
    intros m t' Hm Hc'. rewrite nth_error_update in Hm.
    destruct (Nat.eqb_spec n m) as [<- | Hne].
    + rewrite Ht in Hm. cbn in Hm. injection Hm as <-. cbn.
      apply (absent_same _ _ _ Hf Hd).
      destruct Hres as [(row & Hrow & _) | [_ Habs]]; [| auto].
      rewrite Hrow in Hc'. discriminate.
    + exfalso. apply (Hnone I m t' Hm Hc').
  - task_cases a n t Ht Hc; try (split; assumption).
    destruct (insert_outcome io (Schedule.params t) (Schedule.refinedText t)
                (Schedule.device a))
      as (Hd & Hfile). cbn zeta in Hd, Hfile.
    split; cbn [Schedule.device Schedule.tasks].
    + destruct Hfile as [[Hf _] | (rs & c & Hdb & _ & Hrs & Hl & Hf)];
        [apply (unique_pairs_same _ _ Hf Hu) |].
      unfold unique_pairs, rows in *. rewrite Hf. cbn [translations].
      rewrite Hrs in Hu. rewrite map_app. cbn.
      apply NoDup_snoc; [exact Hu |].
      apply find_none_no_pair. apply (Hsafe n t Ht Hc Hdb rs c Hrs Hl).
    + intros m t' Hm Hc'. rewrite nth_error_update in Hm.
      destruct (Nat.eqb_spec n m) as [<- | Hne].
      * rewrite Ht in Hm. cbn in Hm. injection Hm as <-. discriminate.
      * exfalso.
        pose proof (insert_is_next_task _ _ _ m t' Hnext Hm Hc') as H.
        cbn in H. congruence.
  - cbn [Schedule.step]. split; cbn [Schedule.device Schedule.tasks].
    + destruct (deleteTranslation_rows io i (Schedule.device a))
        as [_ [H | H]]; unfold unique_pairs; rewrite H; [exact Hu |].
      apply NoDup_map_filter, Hu.
    + intros m t Hm Hc. exfalso. apply (Hnone I m t Hm Hc).
  - cbn [Schedule.step]. split; cbn [Schedule.device Schedule.tasks].
    + destruct (updateSettings_rows io lang (Schedule.device a)) as [_ H].
      unfold unique_pairs. rewrite H. exact Hu.
    + intros m t Hm Hc. exfalso. apply (Hnone I m t Hm Hc).
  - cbn [Schedule.step]. unfold Schedule.boot. split;
      cbn [Schedule.device Schedule.tasks].
    + unfold unique_pairs. rewrite initialise_rows. exact Hu.
    + intros m t Hm. destruct m; discriminate.
Qed.

Lemma run_pairs_safe events a :
  Schedule.undisturbed events a = true ->
  Forall Schedule.answered events ->
  pairs_safe a -> pairs_safe (Schedule.run events a).
Proof.
  revert a. induction events as [| e rest IH]; intros a Hu Hans Hs;
    [exact Hs |].
  cbn [Schedule.undisturbed] in Hu. apply andb_prop in Hu as [Hnext Hu].
  inversion Hans as [| x xs He Hrest]; subst.
  apply (IH (Schedule.step e a)); [exact Hu | exact Hrest |].
  apply step_pairs_safe; assumption.
Qed.

Lemma boot_pairs_safe w : unique_pairs w -> pairs_safe (Schedule.boot w).
Proof.
  intros Hu. split; [exact Hu |]. intros m t Hm. destruct m; discriminate.
Qed.

Lemma find_rows_same o c w w' :
  file w' = file w ->
  find (SQL.matches o c) (rows w) <> None ->
  find (SQL.matches o c) (rows w') <> None.
Proof. unfold rows. intros ->. exact (fun H => H). Qed.

Lemma step_passes_recorded e a :
  Schedule.of_speaker e -> Schedule.answered e -> Schedule.accepted e ->
  passes_recorded a -> passes_recorded (Schedule.step e a).
Proof.
  intros Hsp Hans Hacc (Hdb & Htab & Hrec).
  destruct e as [p | n r | n io | n io | io i | io lang | io1 io2 io3 io4 io5];
    try destruct Hsp.
  - destruct (navigate_frame p a) as (Hf & Hd & Ht).
    split; [congruence |]. split; [congruence |].
    intros m t' c Hm Hc Hl. destruct (Ht m t' Hm) as [H | (_ & H & _)];
      [| congruence].
    apply (find_rows_same _ _ _ _ Hf). apply (Hrec m t' c H Hc Hl).
  - destruct (reply_frame n r a) as (Hf & Hd & Ht).
    split; [congruence |]. split; [congruence |].
    intros m t' c Hm Hc Hl.
    destruct (Ht m t' Hm) as [(t & H & Hp & _ & Hsame) | (_ & H & _)];
      [| congruence].
    apply (find_rows_same _ _ _ _ Hf). rewrite Hp.
    apply (Hrec m t c H); congruence.
  - task_cases a n t Ht Hc; try (repeat split; assumption).
    destruct io as [e |]; [destruct Hans |].
    destruct (lookup_outcome None (Schedule.params t) (Schedule.device a))
      as (Hf & Hd & Hres). cbn zeta in Hf, Hd, Hres.
    split; cbn [Schedule.device Schedule.tasks]; [congruence |].
    split; [congruence |].
    intros m t' c Hm Hc' Hl. rewrite nth_error_update in Hm.
    destruct (Nat.eqb_spec n m) as [<- | Hne].
    + rewrite Ht in Hm. cbn in Hm. injection Hm as <-. cbn in *.
      destruct Hres as [(row & _ & _ & _ & rs & c' & Hrs & Hl' & Hfound)
                       | [Hnull _]].
      * unfold rows. rewrite Hf, Hrs. congruence.
      * rewrite Hnull in Hc'. discriminate.
    + apply (find_rows_same _ _ _ _ Hf). apply (Hrec m t' c Hm Hc' Hl).
  - task_cases a n t Ht Hc; try (repeat split; assumption).
    destruct io as [e |]; [destruct Hacc |].
    destruct (insert_outcome None (Schedule.params t) (Schedule.refinedText t)
                (Schedule.device a))
      as (Hd & Hfile). cbn zeta in Hd, Hfile.
    split; cbn [Schedule.device Schedule.tasks]; [congruence |].
    destruct Hfile as [[Hf Hdoom] | (rs & c0 & _ & _ & Hrs & Hl0 & Hf)].
    + split; [congruence |].
      intros m t' c Hm Hc' Hl. rewrite nth_error_update in Hm.
      destruct (Nat.eqb_spec n m) as [<- | Hne].
      * rewrite Ht in Hm. cbn in Hm. injection Hm as <-. cbn in Hl.
        exfalso. destruct (Hdoom eq_refl) as [H | [H | H]]; congruence.
      * apply (find_rows_same _ _ _ _ Hf). apply (Hrec m t' c Hm Hc' Hl).
    + split; [rewrite Hf; discriminate |].
      intros m t' c Hm Hc' Hl. unfold rows. rewrite Hf. cbn [translations].
      rewrite nth_error_update in Hm.
      destruct (Nat.eqb_spec n m) as [<- | Hne].
      * rewrite Ht in Hm. cbn in Hm. injection Hm as <-. cbn in Hl |- *.
        assert (c = c0) by congruence. subst c0. apply find_appended.
      * apply find_kept. specialize (Hrec m t' c Hm Hc' Hl).
        unfold rows in Hrec. rewrite Hrs in Hrec. exact Hrec.
Qed.

Lemma run_passes_recorded events a :
  Forall Schedule.of_speaker events -> Forall Schedule.answered events ->
  Forall Schedule.accepted events ->
  passes_recorded a -> passes_recorded (Schedule.run events a).
Proof.
  revert a. induction events as [| e rest IH]; intros a H1 H2 H3 Hs;
    [exact Hs |].
  inversion H1; inversion H2; inversion H3; subst.
  apply (IH (Schedule.step e a)); try assumption.
  apply step_passes_recorded; assumption.
Qed.

(** C1 (amended).  On a store without two records of one pair, no
    schedule of navigations to the speaker screen, replies, lookups,
    inserts, deletions, language changes and restarts puts two records
    with the same (original_text, language) into the store, provided
    that the driver answers every dedup lookup and that the store
    executes no other statement between a lookup that answered null and
    the insert it leads to (passes that overlap do not interleave their
    lookups and inserts); and if, besides, only speaker screens act on a
    working store and no insert is refused, then the store holds exactly
    one record for the pair of every pass that is through, however many
    passes and screens were started for that pair. *)
Theorem lookup_before_insert_keeps_pairs_unique :
  (forall (events : list Schedule.event) (w : world),
      Schedule.undisturbed events (Schedule.boot w) = true ->
      Forall Schedule.answered events ->
      unique_pairs w ->
      unique_pairs (Schedule.device (Schedule.run events (Schedule.boot w))))
  /\ (forall (events : list Schedule.event) (w : world) (m : nat)
        (t : Schedule.task) (c : string),
         Schedule.undisturbed events (Schedule.boot w) = true ->
         Forall Schedule.answered events ->
         Forall Schedule.of_speaker events ->
         Forall Schedule.accepted events ->
         db w = true -> translations (file w) <> None -> unique_pairs w ->
         nth_error (Schedule.tasks (Schedule.run events (Schedule.boot w))) m
         = Some t ->
         Schedule.check t = Schedule.finished ->
         SpeakerScreen.selectedLanguage (Schedule.params t) = Some c ->
         List.length
           (filter
              (SQL.matches (SpeakerScreen.transcription (Schedule.params t)) c)
              (rows (Schedule.device
                       (Schedule.run events (Schedule.boot w)))))
         = 1%nat).
Proof.
  split.
  - intros events w Hu Hans Hw.
    apply (run_pairs_safe events (Schedule.boot w) Hu Hans).
    apply boot_pairs_safe, Hw.
  - intros events w m t c Hu Hans Hsp Hacc Hdb Htab Hw Hm Hc Hl.
    destruct (run_pairs_safe events (Schedule.boot w) Hu Hans
                (boot_pairs_safe w Hw)) as [Hunique _].
    assert (passes_recorded (Schedule.boot w)) as Hboot.
    { split; [exact Hdb |]. split; [exact Htab |].
      intros k t' c' Hk. destruct k; discriminate. }
    destruct (run_passes_recorded events (Schedule.boot w) Hsp Hans Hacc
                Hboot) as (_ & _ & Hrec).
    apply unique_match_count; [exact Hunique |].
    apply (Hrec m t c Hm Hc Hl).
Qed.

Lemma lookup_before_insert_keeps_pairs_unique_witness :
  unique_pairs
    (Schedule.device
       (Schedule.run
          [Schedule.Navigate bonjour; Schedule.Reply 0 (chat_reply None);
           Schedule.Lookup 0 None; Schedule.Insert 0 None;
           Schedule.Delete None 7;
           Schedule.Restart None None None None None;
           Schedule.Save None "fr"; Schedule.Navigate bonjour;
           Schedule.Lookup 0 None; Schedule.Insert 0 None]
          (Schedule.boot started)))
  /\ List.length
       (filter (SQL.matches "Bonjour" "en")
          (rows (Schedule.device
                   (Schedule.run
                      [Schedule.Navigate bonjour; Schedule.Navigate bonjour;
                       Schedule.Lookup 0 None; Schedule.Insert 0 None;
                       Schedule.Lookup 1 None; Schedule.Insert 1 None]
                      (Schedule.boot started)))))
     = 1%nat.
Proof.
  destruct lookup_before_insert_keeps_pairs_unique as [Hinv Honce].
  split.
  - apply Hinv; [reflexivity | repeat constructor | constructor].
  - apply (Honce
             [Schedule.Navigate bonjour; Schedule.Navigate bonjour;
              Schedule.Lookup 0 None; Schedule.Insert 0 None;
              Schedule.Lookup 1 None; Schedule.Insert 1 None]
             started 1%nat
             {| Schedule.screen := 1; Schedule.params := bonjour;
                Schedule.refinedText := "Hello";
                Schedule.check := Schedule.finished;
                Schedule.refining := true |} "en");
      [reflexivity | repeat constructor | repeat constructor
      | repeat constructor | reflexivity | discriminate | constructor
      | reflexivity | reflexivity | reflexivity].
Defined.

(** C1, as stated, fails: the second run's lookup is refused by the
    driver, [checkIfTranslationExists] answers null and the insert is
    made. *)
Lemma duplicate_pair_after_failed_lookup :
  unique_pairs started
  /\ map pair_of
       (rows (run_actions
                [Speak bonjour [quiet_pass];
                 Speak bonjour [locked_lookup_pass]] started))
     = [("Bonjour", "en"); ("Bonjour", "en")]
  /\ ~ unique_pairs
         (run_actions
            [Speak bonjour [quiet_pass];
             Speak bonjour [locked_lookup_pass]] started).
Proof.
  split; [constructor |]. split; [reflexivity |].
  unfold unique_pairs.
  change (map pair_of _) with [("Bonjour", "en"); ("Bonjour", "en")].
  intros H. inversion H as [| x xs Hnot _]; subst.
  apply Hnot. left. reflexivity.
Qed.

(** ** Schedules: the passes of one screen *)

Lemma reply_keeps_tasks n r a m t :
  nth_error (Schedule.tasks a) m = Some t ->
  exists t',
    nth_error (Schedule.tasks (Schedule.step (Schedule.Reply n r) a)) m
    = Some t'
    /\ same_pass t t'.
Proof.
  intros Hm. cbn [Schedule.step].
  assert (exists t',
             nth_error (Schedule.update n Schedule.replied (Schedule.tasks a)) m
             = Some t' /\ same_pass t t') as (t' & Hup & Hsame).
  { rewrite nth_error_update, Hm. destruct (Nat.eqb n m); cbn.
    - eexists. split; [reflexivity | repeat split].
    - eexists. split; [reflexivity | repeat split]. }
  destruct (nth_error (Schedule.tasks a) n) as [t0 |];
    [| exists t; split; [exact Hm | repeat split]].
  destruct (Schedule.refining t0);
    [| exists t; split; [exact Hm | repeat split]].
  destruct (nth_error (Schedule.screens a) (Schedule.screen t0))
    as [[p cell] |]; [| exists t; split; [exact Hm | repeat split]].
  cbn zeta. exists t'. split; [| exact Hsame].
  destruct (String.eqb _ cell); cbn; [exact Hup |].
  rewrite nth_error_app1; [exact Hup |].
  apply nth_error_Some. congruence.
Qed.

Lemma reply_screens n r a k q cell :
  nth_error (Schedule.screens (Schedule.step (Schedule.Reply n r) a)) k
  = Some (q, cell) ->
  exists cell', nth_error (Schedule.screens a) k = Some (q, cell').
Proof.
  cbn [Schedule.step].
  destruct (nth_error (Schedule.tasks a) n) as [t0 |]; [| eauto].
  destruct (Schedule.refining t0); [| eauto].
  destruct (nth_error (Schedule.screens a) (Schedule.screen t0))
    as [[p c0] |]; [| eauto].
  cbn zeta.
  assert (nth_error
            (Schedule.update (Schedule.screen t0)
               (fun m : SpeakerScreen.route_params * string =>
                  (fst m,
                   fst (snd (Schedule.refine_reply r
                               (c0, Schedule.device a)))))
               (Schedule.screens a)) k = Some (q, cell) ->
          exists cell', nth_error (Schedule.screens a) k = Some (q, cell'))
    as Hup.
  { rewrite nth_error_update.
    destruct (Nat.eqb _ k); [| eauto].
    destruct (nth_error (Schedule.screens a) k) as [[q' c'] |];
      [| discriminate].
    cbn. intros H. injection H as <- _. eauto. }
  destruct (String.eqb _ c0); cbn; exact Hup.
Qed.

Lemma settled_found p w rs c row :
  translations (file w) = Some rs ->
  SpeakerScreen.selectedLanguage p = Some c ->
  find (SQL.matches (SpeakerScreen.transcription p) c) rs = Some row ->
  settled p w.
Proof.
  intros Hrs Hl Hf. right. right. right. exists rs, c.
  split; [exact Hrs |]. split; [exact Hl |]. congruence.
Qed.

Lemma settled_absent_doomed p w :
  settled p w -> absent p w -> doomed p w.
Proof.
  unfold doomed. intros [H | [H | [H | (rs & c & Hrs & Hl & Hf)]]] Habs;
    auto.
  destruct (db w) eqn:Hdb; [| auto].
  exfalso. apply Hf. apply (Habs Hdb rs c Hrs Hl).
Qed.

Lemma doomed_same p w w' :
  file w' = file w -> db w' = db w -> doomed p w -> doomed p w'.
Proof. unfold doomed. intros -> ->. exact (fun H => H). Qed.

Lemma raw_written_same p w w1 w2 :
  file w2 = file w1 -> raw_written p w w1 -> raw_written p w w2.
Proof. unfold raw_written. intros ->. exact (fun H => H). Qed.

Lemma step_first_pass p w e rest a :
  Schedule.of_pass e -> Schedule.first_pass_served e ->
  Schedule.insert_is_next e O (Schedule.tasks a) = true ->
  (first_pass_looking a -> Schedule.first_pass_first (e :: rest) = true) ->
  first_pass_state p w a ->
  first_pass_state p w (Schedule.step e a)
  /\ (first_pass_looking (Schedule.step e a) ->
      Schedule.first_pass_first rest = true).
Proof.
  intros Hof Hserved Hnext Hfirst (Hdb & Hscr & Hpar & t0 & Ht0 & Htext & Hst).
  destruct e as [q | n r | n io | n io | io i | io lang | io1 io2 io3 io4 io5];
    try destruct Hof.
  - (* a reply *)
    destruct (reply_frame n r a) as (Hf & Hd & Hback).
    destruct (reply_keeps_tasks n r a O t0 Ht0) as (t0' & Ht0' & Hp0 & Hx0 & Hc0).
    assert (forall m t',
               nth_error
                 (Schedule.tasks (Schedule.step (Schedule.Reply n r) a)) m
               = Some t' -> Schedule.params t' = p) as Hpar'.
    { intros m t' Hm.
      destruct (Hback m t' Hm)
        as [(t & H & Hp & _) | (_ & _ & t1 & cell & _ & Hs & _)].
      - rewrite Hp. apply (Hpar m t H).
      - apply (Hscr _ _ _ Hs). }
    split.
    + split; [congruence |]. split.
      { intros k q cell Hk.
        destruct (reply_screens n r a k q cell Hk) as [cell' H].
        apply (Hscr k q cell' H). }
      split; [exact Hpar' |].
      exists t0'. split; [exact Ht0' |]. split; [congruence |].
      rewrite Hc0. destruct (Schedule.check t0).
      * destruct Hst as [Hfile Hall]. split; [congruence |].
        intros m t' Hm.
        destruct (Hback m t' Hm) as [(t & H & _ & _ & Hc) | (_ & H & _)];
          [| exact H].
        rewrite Hc. apply (Hall m t H).
      * destruct Hst as [Hfile Hall]. split; [congruence |].
        intros m t' Hm Hne.
        destruct (Hback m t' Hm) as [(t & H & _ & _ & Hc) | (_ & H & _)];
          [| exact H].
        rewrite Hc. apply (Hall m t H Hne).
      * destruct Hst as (Hset & Hraw & Hdoom).
        split; [apply (settled_same p _ _ Hf Hd Hset) |].
        split; [apply (raw_written_same p w _ _ Hf Hraw) |].
        intros m t' Hm Hc.
        destruct (Hback m t' Hm) as [(t & H & _ & _ & Hc') | (_ & H & _)];
          [| congruence].
        apply (doomed_same p _ _ Hf Hd). apply (Hdoom m t H). congruence.
    + intros (t1 & Ht1 & Hc1). apply Hfirst.
      exists t0. split; [exact Ht0 |]. congruence.
  - (* a lookup *)
    split; [| intros (t1 & Ht1 & Hc1)].
    + task_cases a n t Ht Hc;
        try (split; [exact Hdb |]; split; [exact Hscr |];
             split; [exact Hpar |]; exists t0; auto).
      destruct (lookup_outcome io (Schedule.params t) (Schedule.device a))
        as (Hf & Hd & Hres). cbn zeta in Hf, Hd, Hres.
      rewrite (Hpar n t Ht) in Hf, Hd, Hres |- *.
      split; cbn [Schedule.device Schedule.tasks Schedule.screens];
        [congruence |].
      split; [exact Hscr |]. split.
      { intros m t' Hm. rewrite nth_error_update in Hm.
        destruct (Nat.eqb n m); [| apply (Hpar m t' Hm)].
        destruct (nth_error (Schedule.tasks a) m) as [t2 |] eqn:H2;
          [| discriminate].
        cbn in Hm. injection Hm as <-. cbn. apply (Hpar m t2 H2). }
      destruct n as [| n].
      * (* of the first pass *)
        assert (t = t0) by congruence. subst t.
        eexists. split; [rewrite nth_error_update, Ht0; reflexivity |].
        cbn [Schedule.with_check Schedule.refinedText Schedule.check].
        split; [exact Htext |].
        rewrite Hc in Hst. destruct Hst as [Hfile Hall].
        destruct Hres as [(row & -> & _ & _ & rs & c & Hrs & Hl & Hfound)
                         | [-> Habs]].
        -- split.
           ++ apply (settled_found p _ rs c row); [congruence | exact Hl |].
              exact Hfound.
           ++ split; [left; congruence |].
              intros m t' Hm Hc'. exfalso. rewrite nth_error_update in Hm.
              destruct m as [| m]; cbn [Nat.eqb] in Hm.
              ** rewrite Ht0 in Hm. cbn in Hm. injection Hm as <-.
                 discriminate.
              ** specialize (Hall (S m) t' Hm). congruence.
        -- split; [congruence |].
           intros m t' Hm Hne. rewrite nth_error_update in Hm.
           destruct m as [| m]; [congruence |]. cbn [Nat.eqb] in Hm.
           apply (Hall (S m) t' Hm).
      * (* of a later pass *)
        destruct io as [e |]; [destruct Hserved |].
        exists t0. split; [rewrite nth_error_update; exact Ht0 |].
        split; [exact Htext |].
        destruct (Schedule.check t0) eqn:Hc0.
        -- exfalso. assert (Schedule.first_pass_first
                              (Schedule.Lookup (S n) None :: rest) = true)
             as H by (apply Hfirst; exists t0; auto).
           discriminate.
        -- exfalso.
           exact (insert_is_next_task _ _ _ O t0 Hnext Ht0 Hc0).
        -- destruct Hst as (Hset & Hraw & Hdoom).
           split; [apply (settled_same p _ _ Hf Hd Hset) |].
           split; [apply (raw_written_same p w _ _ Hf Hraw) |].
           intros m t' Hm Hc'. apply (doomed_same p _ _ Hf Hd).
           rewrite nth_error_update in Hm.
           destruct (Nat.eqb_spec (S n) m) as [<- | Hne];
             [| apply (Hdoom m t' Hm Hc')].
           rewrite Ht in Hm. cbn in Hm. injection Hm as <-. cbn in Hc'.
           destruct Hres as [(row & Hrow & _) | [_ Habs]];
             [rewrite Hrow in Hc'; discriminate |].
           apply (settled_absent_doomed p _ Hset (Habs eq_refl)).
    + (* the first pass is still looking: the lookup was not its own *)
      assert (Schedule.check t0 = Schedule.looking) as Hc0.
      { revert Ht1 Hc1. task_cases a n t Ht Hc; try congruence.
        cbn [Schedule.tasks]. rewrite nth_error_update.
        destruct n as [| n]; cbn [Nat.eqb].
        - rewrite Ht0. cbn. intros H. injection H as <-. cbn.
          assert (t = t0) by congruence. subst t.
          destruct (lookup_outcome io (Schedule.params t0) (Schedule.device a))
            as (_ & _ & [(row & -> & _) | [-> _]]); discriminate.
        - congruence. }
      assert (Schedule.first_pass_first (Schedule.Lookup n io :: rest) = true)
        as H by (apply Hfirst; exists t0; auto).
      cbn in H. apply Nat.eqb_eq in H. subst n.
      exfalso. revert Ht1 Hc1. cbn [Schedule.step]. rewrite Ht0, Hc0.
      cbn [Schedule.tasks]. rewrite nth_error_update, Ht0. cbn.
      intros H. injection H as <-. cbn.
      destruct (lookup_outcome io (Schedule.params t0) (Schedule.device a))
        as (_ & _ & [(row & -> & _) | [-> _]]); discriminate.
  - (* an insert *)
    split; [| intros (t1 & Ht1 & Hc1)].
    + task_cases a n t Ht Hc;
        try (split; [exact Hdb |]; split; [exact Hscr |];
             split; [exact Hpar |]; exists t0; auto).
      destruct (insert_outcome io (Schedule.params t) (Schedule.refinedText t)
                  (Schedule.device a))
        as (Hd & Hfile). cbn zeta in Hd, Hfile.
      rewrite (Hpar n t Ht) in Hd, Hfile |- *.
      split; cbn [Schedule.device Schedule.tasks Schedule.screens];
        [congruence |].
      split; [exact Hscr |]. split.
      { intros m t' Hm. rewrite nth_error_update in Hm.
        destruct (Nat.eqb n m); [| apply (Hpar m t' Hm)].
        destruct (nth_error (Schedule.tasks a) m) as [t2 |] eqn:H2;
          [| discriminate].
        cbn in Hm. injection Hm as <-. cbn. apply (Hpar m t2 H2). }
      destruct n as [| n].
      * (* of the first pass *)
        assert (t = t0) by congruence. subst t.
        destruct io as [e |]; [destruct Hserved |].
        eexists. split; [rewrite nth_error_update, Ht0; reflexivity |].
        cbn [Schedule.with_check Schedule.refinedText Schedule.check].
        split; [exact Htext |].
        rewrite Hc in Hst. destruct Hst as [Hfile0 Hall].
        assert (forall m t',
                   nth_error
                     (Schedule.update 0
                        (Schedule.with_check Schedule.finished)
                        (Schedule.tasks a)) m = Some t' ->
                   Schedule.check t' <> Schedule.inserting) as Hnone.
        { intros m t' Hm. rewrite nth_error_update in Hm.
          destruct m as [| m]; cbn [Nat.eqb] in Hm.
          - rewrite Ht0 in Hm. cbn in Hm. injection Hm as <-. discriminate.
          - rewrite (Hall (S m) t' Hm); [discriminate | discriminate]. }
        destruct Hfile as [[Hf Hdoom] | (rs & c & Hdb1 & _ & Hrs & Hl & Hf)].
        -- split.
           ++ destruct (Hdoom eq_refl) as [H | [H | H]]; unfold settled.
              ** left. congruence.
              ** right. left. congruence.
              ** right. right. left. exact H.
           ++ split; [left; congruence |].
              intros m t' Hm Hc'. exfalso. apply (Hnone m t' Hm Hc').
        -- split.
           ++ right. right. right. eexists. exists c.
              split; [rewrite Hf; reflexivity |]. split; [exact Hl |].
              apply find_appended.
           ++ split.
              ** right. exists rs, c. rewrite <- Hfile0, <- Hdb.
                 rewrite <- Htext. auto.
              ** intros m t' Hm Hc'. exfalso. apply (Hnone m t' Hm Hc').
      * (* of a later pass *)
        exists t0. split; [rewrite nth_error_update; exact Ht0 |].
        split; [exact Htext |].
        destruct (Schedule.check t0) eqn:Hc0.
        -- destruct Hst as [_ Hall]. specialize (Hall (S n) t Ht).
           congruence.
        -- destruct Hst as [_ Hall].
           specialize (Hall (S n) t Ht ltac:(discriminate)). congruence.
        -- destruct Hst as (Hset & Hraw & Hdoom).
           pose proof (Hdoom (S n) t Ht Hc) as Hno.
           destruct Hfile as [[Hf _] | (rs & c & Hdb1 & _ & Hrs & Hl & _)];
             [| exfalso; destruct Hno as [H | [H | H]]; congruence].
           split; [apply (settled_same p _ _ Hf Hd Hset) |].
           split; [apply (raw_written_same p w _ _ Hf Hraw) |].
           intros m t' Hm Hc'. apply (doomed_same p _ _ Hf Hd).
           rewrite nth_error_update in Hm.
           destruct (Nat.eqb_spec (S n) m) as [<- | Hne];
             [| apply (Hdoom m t' Hm Hc')].
           rewrite Ht in Hm. cbn in Hm. injection Hm as <-. discriminate.
    + (* the first pass is still looking *)
      apply Hfirst. exists t0. split; [exact Ht0 |].
      revert Ht1 Hc1. task_cases a n t Ht Hc; try congruence.
      cbn [Schedule.tasks]. rewrite nth_error_update.
      destruct n as [| n]; cbn [Nat.eqb]; [| congruence].
      rewrite Ht0. cbn. intros H. injection H as <-. discriminate.
Qed.

Lemma run_first_pass p w events a :
  Forall Schedule.of_pass events ->
  Forall Schedule.first_pass_served events ->
  Schedule.undisturbed events a = true ->
  (first_pass_looking a -> Schedule.first_pass_first events = true) ->
  first_pass_state p w a ->
  first_pass_state p w (Schedule.run events a).
Proof.
  revert a. induction events as [| e rest IH]; intros a H1 H2 Hu Hfirst Hs;
    [exact Hs |].
  inversion H1; inversion H2; subst.
  cbn [Schedule.undisturbed] in Hu. apply andb_prop in Hu as [Hnext Hu].
  destruct (step_first_pass p w e rest a) as [Hs' Hfirst']; try assumption.
  apply (IH (Schedule.step e a)); assumption.
Qed.

Lemma navigate_first_pass p w :
  first_pass_state p w (Schedule.step (Schedule.Navigate p) (Schedule.boot w)).
Proof.
  split; [reflexivity |]. split.
  { intros k q cell Hk. destruct k as [| k]; cbn in Hk;
      [congruence | destruct k; discriminate]. }
  split.
  { intros m t Hm. destruct m as [| m]; cbn in Hm;
      [injection Hm as <-; reflexivity | destruct m; discriminate]. }
  eexists. split; [reflexivity |]. split; [reflexivity |]. cbn.
  split; [reflexivity |].
  intros m t Hm. destruct m as [| m]; cbn in Hm;
    [injection Hm as <-; reflexivity | destruct m; discriminate].
Qed.

(** What the one screen mounted with [p] on [w] has done to the store
    when the schedule lets the first pass go first. *)
Lemma screen_run p events w :
  Forall Schedule.of_pass events ->
  Forall Schedule.first_pass_served events ->
  Schedule.first_pass_first events = true ->
  Schedule.undisturbed (Schedule.Navigate p :: events) (Schedule.boot w)
  = true ->
  first_pass_state p w
    (Schedule.run (Schedule.Navigate p :: events) (Schedule.boot w)).
Proof.
  intros H1 H2 Hfirst Hu.
  cbn [Schedule.undisturbed] in Hu. apply andb_prop in Hu as [_ Hu].
  apply (run_first_pass p w events); auto.
  apply navigate_first_pass.
Qed.

Lemma raw_written_rows p w w' :
  raw_written p w w' ->
  rows w' = rows w
  \/ exists c,
      SpeakerScreen.selectedLanguage p = Some c
      /\ rows w'
         = rows w ++ [new_row (file w) (rows w) (SpeakerScreen.transcription p)
                        c (SpeakerScreen.translatedText p)].
Proof.
  unfold rows. intros [-> | (rs & c & _ & Hrs & Hl & ->)];
    [left; reflexivity |].
  right. exists c. rewrite Hrs. auto.
Qed.

(** When the first pass is through on a working store that held no
    record for the pair, the row is there. *)
Lemma first_pass_through p w a rs c t0 :
  first_pass_state p w a ->
  db w = true -> translations (file w) = Some rs ->
  SpeakerScreen.selectedLanguage p = Some c ->
  find (SQL.matches (SpeakerScreen.transcription p) c) rs = None ->
  nth_error (Schedule.tasks a) O = Some t0 ->
  Schedule.check t0 = Schedule.finished ->
  rows (Schedule.device a)
  = rs ++ [new_row (file w) rs (SpeakerScreen.transcription p) c
             (SpeakerScreen.translatedText p)].
Proof.
  intros (Hdb & _ & _ & t1 & Ht1 & _ & Hst) Hw Hrs Hl Hnone Ht0 Hc.
  assert (t1 = t0) by congruence. subst t1. rewrite Hc in Hst.
  destruct Hst as (Hset & [Hsame | (rs' & c' & _ & Hrs' & Hl' & Hf)] & _).
  - exfalso.
    destruct Hset as [H | [H | [H | (rs' & c' & Hrs' & Hl' & Hfound)]]];
      congruence.
  - unfold rows. rewrite Hf. cbn. congruence.
Qed.

(** C10 (amended).  Provided that no other screen or action touches the
    store while the passes of a mounted speaker screen run, that the
    store executes no other statement between a lookup that answered null
    and the insert it leads to, that the lookup of the first pass is the
    first to be executed, that the insert of the first pass is not
    refused and that the lookups of the later passes are answered, the
    screen writes at most one row and this row carries [translatedText]
    as it came from the translation, whatever the refinement returns; it
    does write that row once its first pass is through, when the store
    works and held no record for the pair. *)
Theorem first_pass_persists_raw_translation :
  forall (p : SpeakerScreen.route_params) (events : list Schedule.event)
    (w : world),
    Forall Schedule.of_pass events ->
    Schedule.undisturbed (Schedule.Navigate p :: events) (Schedule.boot w)
    = true ->
    Schedule.first_pass_first events = true ->
    Forall Schedule.first_pass_served events ->
    (rows (Schedule.device
             (Schedule.run (Schedule.Navigate p :: events) (Schedule.boot w)))
     = rows w
     \/ exists c,
         SpeakerScreen.selectedLanguage p = Some c
         /\ rows (Schedule.device
                    (Schedule.run (Schedule.Navigate p :: events)
                       (Schedule.boot w)))
            = rows w ++ [new_row (file w) (rows w)
                           (SpeakerScreen.transcription p) c
                           (SpeakerScreen.translatedText p)])
    /\ (forall rs c t0,
           db w = true -> translations (file w) = Some rs ->
           SpeakerScreen.selectedLanguage p = Some c ->
           find (SQL.matches (SpeakerScreen.transcription p) c) rs = None ->
           nth_error
             (Schedule.tasks
                (Schedule.run (Schedule.Navigate p :: events)
                   (Schedule.boot w))) O = Some t0 ->
           Schedule.check t0 = Schedule.finished ->
           rows (Schedule.device
                   (Schedule.run (Schedule.Navigate p :: events)
                      (Schedule.boot w)))
           = rs ++ [new_row (file w) rs (SpeakerScreen.transcription p) c
                      (SpeakerScreen.translatedText p)]).
Proof.
  intros p events w Hof Hu Hfirst Hserved.
  pose proof (screen_run p events w Hof Hserved Hfirst Hu) as Hs.
  split.
  - destruct Hs as (_ & _ & _ & t0 & _ & _ & Hst).
    apply (raw_written_rows p).
    destruct (Schedule.check t0); [left | left | ]; tauto.
  - intros rs c t0. apply (first_pass_through p w _ rs c t0 Hs).
Qed.

Lemma first_pass_persists_raw_translation_witness :
  rows (Schedule.device
          (Schedule.run
             [Schedule.Navigate bonjour;
              Schedule.Reply 0 (chat_reply (Some "Hello there"));
              Schedule.Lookup 0 None; Schedule.Insert 0 None;
              Schedule.Lookup 1 None; Schedule.Reply 1 (chat_reply None)]
             (Schedule.boot started)))
  = [] ++ [new_row (file started) [] "Bonjour" "en" "Hello"].
Proof.
  destruct (first_pass_persists_raw_translation bonjour
              [Schedule.Reply 0 (chat_reply (Some "Hello there"));
               Schedule.Lookup 0 None; Schedule.Insert 0 None;
               Schedule.Lookup 1 None; Schedule.Reply 1 (chat_reply None)]
              started) as [_ H];
    [repeat constructor | reflexivity | reflexivity | repeat constructor |].
  apply (H [] "en"
           {| Schedule.screen := 0; Schedule.params := bonjour;
              Schedule.refinedText := "Hello";
              Schedule.check := Schedule.finished;
              Schedule.refining := false |}); reflexivity.
Defined.

(** C10, as stated, fails: the first insert is refused, the reply sets the
    cell, the effect runs again, finds no record and inserts the refined
    text. *)
Lemma refined_text_persisted_after_failed_insert :
  SpeakerScreen.translatedText bonjour = "Hello"
  /\ rows (snd (SpeakerScreen.mount bonjour
                  [refined_pass_insert_fails; quiet_pass] started))
     = [ {| row_id := 1; original_text := "Bonjour"; language := "en";
            translated_text := "Hello there" |} ].
Proof. split; reflexivity. Qed.

(** Passes that overlap: the reply arrives before the lookup of the first
    pass is executed, the second pass starts, both lookups are answered
    (null) before either insert is executed, and the store holds the pair
    twice, once with the refined text. *)
Example overlapping_passes_insert_twice :
  map (fun r => (pair_of r, translated_text r))
    (rows (Schedule.device
             (Schedule.run
                [Schedule.Navigate bonjour;
                 Schedule.Reply 0 (chat_reply (Some "Hello there"));
                 Schedule.Lookup 0 None; Schedule.Lookup 1 None;
                 Schedule.Insert 0 None; Schedule.Insert 1 None]
                (Schedule.boot started))))
  = [(("Bonjour", "en"), "Hello"); (("Bonjour", "en"), "Hello there")].
Proof. reflexivity. Qed.

(** The record of the first pass is deleted from the history while the
    refinement request is outstanding: the second pass finds no record
    and stores the refined text. *)
Example deletion_between_passes_stores_refined_text :
  rows (Schedule.device
          (Schedule.run
             [Schedule.Navigate bonjour;
              Schedule.Lookup 0 None; Schedule.Insert 0 None;
              Schedule.Delete None 1;
              Schedule.Reply 0 (chat_reply (Some "Hello there"));
              Schedule.Lookup 1 None; Schedule.Insert 1 None]
             (Schedule.boot started)))
  = [ {| row_id := 2; original_text := "Bonjour"; language := "en";
         translated_text := "Hello there" |} ].
Proof. reflexivity. Qed.

(** The statements of the second pass are executed before those of the
    first: the refined text is stored and the first pass finds it. *)
Example later_pass_first_stores_refined_text :
  rows (Schedule.device
          (Schedule.run
             [Schedule.Navigate bonjour;
              Schedule.Reply 0 (chat_reply (Some "Hello there"));
              Schedule.Lookup 1 None; Schedule.Insert 1 None;
              Schedule.Lookup 0 None; Schedule.Insert 0 None]
             (Schedule.boot started)))
  = [ {| row_id := 1; original_text := "Bonjour"; language := "en";
         translated_text := "Hello there" |} ].
Proof. reflexivity. Qed.

(** ** The schedule of [SpeakerScreen.rerender] *)

Lemma update_length {A} (f : A -> A) (l : list A) (n : nat) :
  List.length (Schedule.update n f l) = List.length l.
Proof.
  revert n. induction l as [| x l IH]; intros n; destruct n; cbn;
    try reflexivity; rewrite IH; reflexivity.
Qed.

Lemma agree_lookup io o l w1 w2 :
  agree w1 w2 ->
  fst (DatabaseService.checkIfTranslationExists io o l w1)
  = fst (DatabaseService.checkIfTranslationExists io o l w2)
  /\ agree (snd (DatabaseService.checkIfTranslationExists io o l w1))
       (snd (DatabaseService.checkIfTranslationExists io o l w2)).
Proof.
  destruct w1 as [d1 f1 fs1 c1 a1 n1], w2 as [d2 f2 fs2 c2 a2 n2].
  unfold agree. cbn. intros (-> & -> & -> & ->).
  unfold_store. unfold statement, SQL.select_translation, console_error.
  cbn. destruct d2; cbn; [| auto].
  destruct io; cbn; [auto |].
  destruct (translations f2); cbn; [| auto].
  destruct l; cbn; auto.
Qed.

Lemma agree_insert io o l t w1 w2 :
  agree w1 w2 ->
  agree (snd (DatabaseService.addTranslation io o l t w1))
    (snd (DatabaseService.addTranslation io o l t w2)).
Proof.
  destruct w1 as [d1 f1 fs1 c1 a1 n1], w2 as [d2 f2 fs2 c2 a2 n2].
  unfold agree. cbn. intros (-> & -> & -> & ->).
  unfold_store. unfold statement, SQL.insert_translation, console_error.
  cbn. destruct d2; cbn; [| auto].
  destruct io; cbn; [auto |].
  destruct (translations f2); cbn; [| auto].
  destruct l; cbn; auto.
Qed.

Lemma agree_refine reply text c w1 w2 :
  agree w1 w2 ->
  fst (snd (Schedule.refine_reply reply (c, w1)))
  = fst (snd (SpeakerScreen.refineTextWithOpenAI reply text (c, w2)))
  /\ agree (snd (snd (Schedule.refine_reply reply (c, w1))))
       (snd (snd (SpeakerScreen.refineTextWithOpenAI reply text (c, w2)))).
Proof.
  rewrite refine_split. cbn [fst snd].
  destruct w1 as [d1 f1 fs1 c1 a1 n1], w2 as [d2 f2 fs2 c2 a2 n2].
  unfold agree. cbn. intros (-> & -> & -> & ->).
  unfold Schedule.refine_reply, SpeakerScreen.setRefinedText.
  unfold_async. unfold console_error.
  destruct reply as [[o st j] | e]; cbn; [| auto].
  destruct o; cbn; [| auto].
  destruct j as [data | e]; cbn; [| auto].
  destruct (SpeakerScreen.refined_of data) as [[r |] | e]; cbn; auto.
  destruct (truthy r); cbn; auto.
Qed.

(** [checkTranslation] is its lookup followed, when the lookup answers
    null, by its insert. *)
Lemma checkTranslation_split ic ia p t (s : string * world) :
  snd (SpeakerScreen.checkTranslation ic ia p t s)
  = (fst s,
     let r := DatabaseService.checkIfTranslationExists ic
                (SpeakerScreen.transcription p)
                (SpeakerScreen.selectedLanguage p) (snd s) in
     match fst r with
     | Resolved None =>
         snd (DatabaseService.addTranslation ia
                (SpeakerScreen.transcription p)
                (SpeakerScreen.selectedLanguage p) t (snd r))
     | _ => snd r
     end).
Proof.
  destruct s as [c w]. unfold SpeakerScreen.checkTranslation.
  unfold_async. cbn [fst snd].
  destruct (DatabaseService.checkIfTranslationExists ic
              (SpeakerScreen.transcription p)
              (SpeakerScreen.selectedLanguage p) w) as [[[row |] | e] w1];
    cbn [fst snd]; try reflexivity.
  destruct (DatabaseService.addTranslation ia _ _ t w1); reflexivity.
Qed.

Lemma agree_request text w1 w2 :
  agree w1 w2 -> agree (snd (Schedule.refine_request text w1)) w2.
Proof. unfold agree. cbn. exact (fun H => H). Qed.

(** The reply, the lookup and the insert of the last pass together are
    [SpeakerScreen.effect]; when the cell changed, the next pass has
    started. *)
Lemma serial_pass p e k a cell w :
  Schedule.screens a = [(p, cell)] ->
  List.length (Schedule.tasks a) = S k ->
  nth_error (Schedule.tasks a) k = Some (started_pass p cell) ->
  agree (Schedule.device a) w ->
  let a' :=
    Schedule.step (Schedule.Insert k (SpeakerScreen.io_add e))
      (Schedule.step (Schedule.Lookup k (SpeakerScreen.io_check e))
         (Schedule.step (Schedule.Reply k (SpeakerScreen.openai e)) a)) in
  let s' := snd (SpeakerScreen.effect p e (cell, w)) in
  agree (Schedule.device a') (snd s')
  /\ Schedule.screens a' = [(p, fst s')]
  /\ if String.eqb (fst s') cell
     then List.length (Schedule.tasks a') = S k
     else List.length (Schedule.tasks a') = S (S k)
          /\ nth_error (Schedule.tasks a') (S k)
             = Some (started_pass p (fst s')).
Proof.
  intros Hscr Hlen Hk Hag. cbn zeta.
  rewrite effect_unfold. cbn [snd fst]. rewrite checkTranslation_split.
  cbn [fst snd].
  destruct (agree_refine (SpeakerScreen.openai e)
              (SpeakerScreen.translatedText p) cell _ _ Hag) as [Hcell Hag1].
  set (s1 := snd (SpeakerScreen.refineTextWithOpenAI (SpeakerScreen.openai e)
                    (SpeakerScreen.translatedText p) (cell, w))) in *.
  (* the reply *)
  set (a1 := Schedule.step (Schedule.Reply k (SpeakerScreen.openai e)) a).
  assert (agree (Schedule.device a1) (snd s1)
          /\ Schedule.screens a1 = [(p, fst s1)]
          /\ nth_error (Schedule.tasks a1) k
             = Some (Schedule.replied (started_pass p cell))
          /\ if String.eqb (fst s1) cell
             then List.length (Schedule.tasks a1) = S k
             else List.length (Schedule.tasks a1) = S (S k)
                  /\ nth_error (Schedule.tasks a1) (S k)
                     = Some (started_pass p (fst s1)))
    as (Hag1' & Hscr1 & Hk1 & Hnew).
  { remember (S k) as k' eqn:Hk'. unfold a1. cbn [Schedule.step]. rewrite Hk.
    cbn [started_pass Schedule.refining Schedule.screen]. rewrite Hscr.
    change (nth_error [(p, cell)] 0%nat) with (Some (p, cell)).
    cbv beta match zeta. rewrite Hcell.
    assert (nth_error
              (Schedule.update k Schedule.replied (Schedule.tasks a)) k
            = Some (Schedule.replied (started_pass p cell))) as Hup
      by (rewrite nth_error_update, Nat.eqb_refl, Hk; reflexivity).
    destruct (String.eqb (fst s1) cell) eqn:E;
      cbn [Schedule.device Schedule.screens Schedule.tasks Schedule.start
             Schedule.update fst].
    - rewrite update_length. auto.
    - split; [apply agree_request; exact Hag1 |]. split; [reflexivity |].
      split.
      + rewrite nth_error_app1; [exact Hup |].
        rewrite update_length. lia.
      + rewrite length_app, update_length. cbn [List.length].
        split; [lia |].
        rewrite nth_error_app2; rewrite update_length; [| lia].
        rewrite Hlen, Nat.sub_diag. reflexivity. }
  clearbody a1. clear Hk Hscr Hlen Hag Hag1 Hcell.
  (* the lookup *)
  destruct (agree_lookup (SpeakerScreen.io_check e)
              (SpeakerScreen.transcription p)
              (SpeakerScreen.selectedLanguage p) _ _ Hag1') as [Hres Hag2].
  set (a2 := Schedule.step (Schedule.Lookup k (SpeakerScreen.io_check e)) a1).
  set (r := DatabaseService.checkIfTranslationExists
              (SpeakerScreen.io_check e) (SpeakerScreen.transcription p)
              (SpeakerScreen.selectedLanguage p) (snd s1)) in *.
  assert (agree (Schedule.device a2) (snd r)
          /\ Schedule.screens a2 = [(p, fst s1)]
          /\ nth_error (Schedule.tasks a2) k
             = Some (Schedule.with_check
                       match fst r with
                       | Resolved None => Schedule.inserting
                       | _ => Schedule.finished
                       end
                       (Schedule.replied (started_pass p cell)))
          /\ List.length (Schedule.tasks a2) = List.length (Schedule.tasks a1)
          /\ nth_error (Schedule.tasks a2) (S k)
             = nth_error (Schedule.tasks a1) (S k))
    as (Hag2' & Hscr2 & Hk2 & Hlen2 & Hnext2).
  { unfold a2. cbn [Schedule.step]. rewrite Hk1.
    cbn [started_pass Schedule.replied Schedule.check Schedule.params].
    cbn [Schedule.device Schedule.screens Schedule.tasks].
    rewrite Hres. split; [exact Hag2 |]. split; [exact Hscr1 |].
    rewrite !nth_error_update, Nat.eqb_refl, Hk1, update_length.
    split; [reflexivity |]. split; [reflexivity |].
    destruct (Nat.eqb_spec k (S k)); [lia | reflexivity]. }
  clearbody a2. clear Hk1 Hscr1 Hag1' Hres Hag2.
  (* the insert *)
  cbn [Schedule.step]. rewrite Hk2.
  rewrite <- Hlen2, <- Hnext2 in Hnew.
  destruct (fst r) as [[row |] | err];
    cbn [Schedule.with_check Schedule.check];
    try (split; [exact Hag2' |]; split; [exact Hscr2 |]; exact Hnew).
  cbn [Schedule.device Schedule.screens Schedule.tasks
         Schedule.replied Schedule.params Schedule.refinedText started_pass].
  split; [apply agree_insert; exact Hag2' |]. split; [exact Hscr2 |].
  rewrite update_length, nth_error_update.
  destruct (Nat.eqb_spec k (S k)); [lia | exact Hnew].
Qed.

(** Events for passes that have not started do nothing. *)
Lemma serial_idle passes k a :
  (List.length (Schedule.tasks a) <= k)%nat ->
  Schedule.run (Schedule.serial k passes) a = a.
Proof.
  revert k. induction passes as [| e rest IH]; intros k Hlen; [reflexivity |].
  assert (nth_error (Schedule.tasks a) k = None) as Hnone
    by (apply nth_error_None; exact Hlen).
  cbn [Schedule.serial Schedule.run fold_left].
  replace (Schedule.step (Schedule.Reply k (SpeakerScreen.openai e)) a)
    with a by (cbn [Schedule.step]; rewrite Hnone; reflexivity).
  replace (Schedule.step (Schedule.Lookup k (SpeakerScreen.io_check e)) a)
    with a by (cbn [Schedule.step]; rewrite Hnone; reflexivity).
  replace (Schedule.step (Schedule.Insert k (SpeakerScreen.io_add e)) a)
    with a by (cbn [Schedule.step]; rewrite Hnone; reflexivity).
  apply IH. lia.
Qed.

(** [SpeakerScreen.rerender] is the schedule in which the reply, the
    lookup and the insert of a pass are completed before the next pass
    does anything. *)
Lemma serial_rerender p passes :
  forall k a cell w,
    Schedule.screens a = [(p, cell)] ->
    List.length (Schedule.tasks a) = S k ->
    nth_error (Schedule.tasks a) k = Some (started_pass p cell) ->
    agree (Schedule.device a) w ->
    agree (Schedule.device (Schedule.run (Schedule.serial k passes) a))
      (snd (SpeakerScreen.rerender p passes (cell, w)))
    /\ Schedule.screens (Schedule.run (Schedule.serial k passes) a)
       = [(p, fst (SpeakerScreen.rerender p passes (cell, w)))].
Proof.
  induction passes as [| e rest IH]; intros k a cell w Hscr Hlen Hk Hag;
    [split; assumption |].
  cbn [Schedule.serial Schedule.run fold_left SpeakerScreen.rerender].
  cbn zeta.
  destruct (serial_pass p e k a cell w Hscr Hlen Hk Hag)
    as (Hag' & Hscr' & Hnew). cbn zeta in Hag', Hscr', Hnew.
  destruct (SpeakerScreen.effect p e (cell, w)) as [x [c' w']].
  cbn [fst snd] in *.
  fold (Schedule.run (Schedule.serial (S k) rest)).
  destruct (String.eqb c' cell).
  - rewrite serial_idle; [split; assumption | lia].
  - destruct Hnew as [Hlen' Hk'].
    apply (IH (S k) _ _ _ Hscr' Hlen' Hk' Hag').
Qed.

Lemma serial_mount p passes w :
  agree
    (Schedule.device
       (Schedule.run (Schedule.Navigate p :: Schedule.serial O passes)
          (Schedule.boot w)))
    (snd (SpeakerScreen.mount p passes w))
  /\ Schedule.screens
       (Schedule.run (Schedule.Navigate p :: Schedule.serial O passes)
          (Schedule.boot w))
     = [(p, fst (SpeakerScreen.mount p passes w))].
Proof.
  unfold SpeakerScreen.mount.
  apply (serial_rerender p passes O
           (Schedule.step (Schedule.Navigate p) (Schedule.boot w))
           (SpeakerScreen.translatedText p) w); try reflexivity.
  repeat split.
Qed.

(** C3 (amended).  A pass of the effect and [checkTranslation] in it
    always resolve, with undefined, whatever the lookup and the insert do;
    [checkTranslation] leaves the displayed text alone, and the text after
    the pass is the refined text or else the text before, independently of
    the store. *)
Theorem checkTranslation_resolves_with_undefined :
  forall (p : SpeakerScreen.route_params) (e : SpeakerScreen.pass)
    (s : string * world),
    fst (SpeakerScreen.effect p e s) = Resolved tt
    /\ fst (SpeakerScreen.checkTranslation (SpeakerScreen.io_check e)
              (SpeakerScreen.io_add e) p (fst s) s) = Resolved tt
    /\ fst (snd (SpeakerScreen.checkTranslation (SpeakerScreen.io_check e)
                   (SpeakerScreen.io_add e) p (fst s) s)) = fst s
    /\ fst (snd (SpeakerScreen.effect p e s))
       = match refinement (SpeakerScreen.openai e) with
         | Some r => r
         | None => fst s
         end.
Proof.
  intros p e s.
  destruct (checkTranslation_completion (SpeakerScreen.io_check e)
              (SpeakerScreen.io_add e) p (fst s) s) as [H1 H2].
  repeat split; [exact H1 | exact H2 | apply effect_cell].
Qed.

(** C3, as stated, fails: a run whose insert is refused and a run whose
    insert is made resolve with the same value and show the same text,
    while the record exists after the one and not after the other. *)
Lemma persistence_status_not_reported :
  fst saved_run = fst lost_run
  /\ fst (snd saved_run) = fst (snd lost_run)
  /\ spec_persistence bonjour started (snd (snd saved_run)) = New
  /\ spec_persistence bonjour started (snd (snd lost_run)) = Failed
  /\ ~ (exists report : completion unit * string -> persistence,
           forall ia,
             report (fst (SpeakerScreen.checkTranslation None ia bonjour
                            "Hello" ("Hello", started)),
                     fst (snd (SpeakerScreen.checkTranslation None ia bonjour
                                 "Hello" ("Hello", started))))
             = spec_persistence bonjour started
                 (snd (snd (SpeakerScreen.checkTranslation None ia bonjour
                              "Hello" ("Hello", started))))).
Proof.
  repeat split; try reflexivity.
  intros [report H].
  pose proof (H None) as H1.
  pose proof (H (Some (SQLiteError "disk I/O error"))) as H2.
  cbn in H1, H2. congruence.
Qed.



(** ** The transcription stage *)

(** [fetchSettings] changes neither the files nor the network log nor the
    alerts. *)
Lemma fetchSettings_frame io w :
  exists l w',
    DatabaseService.fetchSettings io w = (Resolved l, w')
    /\ l = fetched_settings io w
    /\ files w' = files w /\ network w' = network w /\ alerts w' = alerts w
    /\ file w' = file w /\ db w' = db w.
Proof.
  unfold fetched_settings. unfold_store.
  unfold statement, SQL.select_settings, console_error.
  destruct (db w) eqn:Hdb; cbn; [| eauto 10].
  destruct io; cbn; [eauto 10 |].
  destruct (settings (file w)) eqn:Hst; cbn; eauto 10.
Qed.

Ltac unfold_translate_screen :=
  unfold TranslateScreen.effect, TranslateScreen.sendAudioForTranscription,
    TranslateScreen.setLoading, TranslateScreen.setTranscription,
    TranslateScreen.getInfoAsync, TranslateScreen.readAsStringAsync in *;
  unfold_async; unfold fetch, Alert_alert, console_error in *.

(** What a run of [sendAudioForTranscription] leaves behind, by the state
    of the recording file. *)
Lemma sendAudioForTranscription_effect os uri io reply (s : TranslateScreen.state * world) :
  let s' := snd (TranslateScreen.sendAudioForTranscription os uri io reply s) in
  TranslateScreen.loading (fst s') = false
  /\ match files (snd s) uri with
     | NoSuchFile =>
         network (snd s') = network (snd s)
         /\ alerts (snd s')
            = alerts (snd s) ++ [("Error", "Audio file does not exist.")]
         /\ TranslateScreen.transcription (fst s')
            = TranslateScreen.transcription (fst s)
     | InfoFails _ | ReadFails _ =>
         network (snd s') = network (snd s)
         /\ alerts (snd s')
            = alerts (snd s) ++ [("Error", "Failed to transcribe the audio.")]
         /\ TranslateScreen.transcription (fst s')
            = TranslateScreen.transcription (fst s)
     | Base64 content =>
         exists encoding rate body,
           network (snd s')
           = network (snd s)
               ++ [SpeechRecognize encoding rate
                     (TranslateScreen.languageCode_of
                        (TranslateScreen.shortCode_of
                           (fetched_settings io (snd s))))
                     body]
           /\ body = match os with
                     | TranslateScreen.ios =>
                         replace "data:audio/vnd.wave;base64," "" content
                     | TranslateScreen.android =>
                         replace "data:audio/aac;base64," "" content
                     | TranslateScreen.other_os => content
                     end
     end.
Proof.
  destruct s as [c w]. cbn zeta. cbn [fst snd].
  destruct (fetchSettings_frame io w)
    as (l & w1 & Hfetch & Hl & Hfiles & Hnet & Hal & _ & _).
  unfold_translate_screen. cbn [fst snd]. rewrite Hfetch. cbn [fst snd].
  rewrite Hfiles. rewrite <- Hl.
  destruct (files w uri) as [| e | e | content] eqn:Hfile; cbn;
    rewrite ?Hfiles, ?Hfile; cbn; rewrite ?Hnet, ?Hal; auto.
  destruct reply as [[o st j] | e]; cbn; rewrite ?Hnet; [| eauto 7].
  destruct j as [[results |] | e']; cbn; [| destruct o; cbn; eauto 7 | eauto 7].
  destruct o; cbn; [| eauto 7].
  destruct (TranslateScreen.transcripts results); cbn; eauto 7.
Qed.

(** C8 (amended).  When the screen has no recording URI, or the file does
    not exist, or the file cannot be inspected or read, no request leaves
    the device and no transcription is set; for a file that does not exist
    the alert "Audio file does not exist." is raised. *)
Theorem no_request_without_audio_file :
  forall (os : TranslateScreen.platform) (recordingUri : option string)
    (io : fault) (reply : completion (response TranslateScreen.speech_data))
    (s : TranslateScreen.state * world),
    (recordingUri = None \/ recordingUri = Some ""
     \/ exists uri,
         recordingUri = Some uri
         /\ (files (snd s) uri = NoSuchFile
             \/ (exists e, files (snd s) uri = InfoFails e)
             \/ (exists e, files (snd s) uri = ReadFails e))) ->
    network (snd (snd (TranslateScreen.effect os recordingUri io reply s)))
    = network (snd s)
    /\ TranslateScreen.transcription
         (fst (snd (TranslateScreen.effect os recordingUri io reply s)))
       = TranslateScreen.transcription (fst s)
    /\ (forall uri,
           recordingUri = Some uri -> truthy uri = true ->
           files (snd s) uri = NoSuchFile ->
           alerts (snd (snd (TranslateScreen.effect os recordingUri io reply s)))
           = alerts (snd s) ++ [("Error", "Audio file does not exist.")]).
Proof.
  intros os recordingUri io reply s H.
  destruct H as [-> | [-> | (uri & -> & Hfile)]];
    [cbn; repeat split; auto; discriminate
    | cbn; repeat split; auto; intros uri Hu; injection Hu as <-; discriminate
    |].
  unfold TranslateScreen.effect.
  destruct (truthy uri) eqn:Ht;
    [| cbn; repeat split; auto; intros u Hu; injection Hu as <-; congruence].
  unfold detach. cbn [snd].
  pose proof (sendAudioForTranscription_effect os uri io reply s) as [_ He].
  cbn zeta in He.
  destruct Hfile as [Hf | [[e Hf] | [e Hf]]]; rewrite Hf in He;
    destruct He as (Hn & Ha & Htr); repeat split; auto;
    intros u Hu _ Hfu; injection Hu as <-; congruence.
Qed.

Lemma no_request_without_audio_file_witness :
  network
    (snd (snd (TranslateScreen.effect TranslateScreen.android
                 (Some "file:///data/recordings/recording-1.webm") None
                 (speech_reply "Bonjour")
                 (TranslateScreen.initial, started))))
  = [].
Proof.
  apply (no_request_without_audio_file TranslateScreen.android
           (Some "file:///data/recordings/recording-1.webm") None
           (speech_reply "Bonjour") (TranslateScreen.initial, started)).
  right. right. exists "file:///data/recordings/recording-1.webm".
  split; [reflexivity |]. left. reflexivity.
Defined.

(** C8, as stated, fails for an empty artifact: a recording file that
    exists with empty content is read and sent. *)
Lemma empty_recording_is_sent :
  files started_with_empty_recording "file:///recordings/recording-1.wav"
  = Base64 ""
  /\ network
       (snd (snd (TranslateScreen.effect TranslateScreen.ios
                    (Some "file:///recordings/recording-1.wav") None
                    (speech_reply "")
                    (TranslateScreen.initial, started_with_empty_recording))))
     = [SpeechRecognize "LINEAR16" 44100 "en-US" ""].
Proof. split; reflexivity. Qed.

(** ** The translation stage *)

Ltac unfold_form :=
  unfold TranslationForm.loadSettings, TranslationForm.setStoredLanguage,
    TranslationForm.setFilteredLanguages, TranslationForm.setSelectedLanguage,
    TranslationForm.handleTranslate, TranslationForm.onValueChange,
    SettingsForm.loadSettings in *;
  unfold_async.

Lemma filter_excludes (x : string) (l : list language_option) :
  ~ In x (map value
            (filter (fun lang => negb (String.eqb (value lang) x)) l)).
Proof.
  intros Hin. apply in_map_iff in Hin. destruct Hin as (o & Hv & Ho).
  apply filter_In in Ho. destruct Ho as [_ Hne].
  rewrite Hv, String.eqb_refl in Hne. discriminate.
Qed.

Lemma some_language_left (x : string) :
  exists lang0 rest,
    filter (fun lang => negb (String.eqb (value lang) x)) languages
    = lang0 :: rest.
Proof.
  destruct (String.eqb "en" x) eqn:E.
  - apply String.eqb_eq in E. subst x. eexists. eexists. reflexivity.
  - set (f := fun lang => negb (String.eqb (value lang) x)).
    exists {| label := "English"; value := "en" |}, (filter f (tl languages)).
    change (filter f languages)
      with (if f {| label := "English"; value := "en" |}
            then {| label := "English"; value := "en" |}
                   :: filter f (tl languages)
            else filter f (tl languages)).
    assert (f {| label := "English"; value := "en" |} = true) as ->
      by (unfold f; cbn [value]; rewrite E; reflexivity).
    reflexivity.
Qed.

(** What [loadSettings] leaves in the cells, by what [fetchSettings]
    resolved with. *)
Lemma loadSettings_cells io (s : TranslationForm.state * world) :
  let c := fst (snd (TranslationForm.loadSettings io s)) in
  match fetched_settings io (snd s) with
  | first :: _ =>
      let language := or_default (settings_language first) "en" in
      TranslationForm.storedLanguage c = Some language
      /\ TranslationForm.filteredLanguages c
         = filter (fun lang => negb (String.eqb (value lang) language))
             languages
      /\ TranslationForm.selectedLanguage c
         = match filter (fun lang => negb (String.eqb (value lang) language))
                   languages with
           | lang0 :: _ => Some (value lang0)
           | [] => TranslationForm.selectedLanguage (fst s)
           end
  | [] =>
      TranslationForm.storedLanguage c = TranslationForm.storedLanguage (fst s)
      /\ TranslationForm.filteredLanguages c = languages
      /\ TranslationForm.selectedLanguage c = Some "en"
  end.
Proof.
  destruct s as [c0 w]. cbn zeta. cbn [fst snd].
  destruct (fetchSettings_frame io w) as (l & w1 & Hfetch & Hl & _).
  unfold_form. cbn [fst snd]. rewrite Hfetch. rewrite <- Hl.
  destruct l as [| first rest]; [cbn; auto |].
  destruct (some_language_left (or_default (settings_language first) "en"))
    as (lang0 & others & Hfl).
  cbn -[filter languages]. rewrite Hfl. cbn -[filter languages]. auto.
Qed.


Lemma or_default_truthy v d : truthy d = true -> truthy (or_default v d) = true.
Proof.
  intros Hd. destruct v as [[| a r] |]; cbn; auto.
Qed.

Lemma or_default_again v d :
  truthy d = true -> or_default (Some (or_default v d)) d = or_default v d.
Proof.
  intros Hd.
  change (or_default (Some (or_default v d)) d)
    with (if truthy (or_default v d) then or_default v d else d).
  rewrite (or_default_truthy v d Hd). reflexivity.
Qed.

Lemma handleTranslate_request q reply (s : TranslationForm.state * world) :
  network (snd (snd (TranslationForm.handleTranslate q reply s)))
  = network (snd s)
      ++ [Translate q (TranslationForm.source_language (fst s))
            (TranslationForm.selectedLanguage (fst s)) "text"].
Proof.
  destruct s as [c w]. unfold_form. unfold fetch, Alert_alert, console_error.
  cbn [fst snd].
  destruct reply as [[o st j] | e]; cbn; [| reflexivity].
  destruct j as [result | e]; cbn; [| reflexivity].
  destruct o; cbn.
  - destruct (TranslationForm.translatedText_of result); reflexivity.
  - destruct result; reflexivity.
Qed.

(** C2 (amended).  Whenever [loadSettings] reads a settings row, the
    languages the picker offers do not contain the source language of the
    translation request (the stored language, or "en" when it is unset),
    the preselected target is one of the offered languages, and the
    request carries that source and the selected target. *)
Theorem picker_excludes_stored_language :
  forall (io : fault) (s : TranslationForm.state * world)
    (first : settings_row) (rest : list settings_row)
    (q : string)
    (reply : completion (response TranslationForm.translate_body)),
    fetched_settings io (snd s) = first :: rest ->
    TranslationForm.source_language (fst (loaded io s))
    = or_default (settings_language first) "en"
    /\ ~ In (TranslationForm.source_language (fst (loaded io s)))
           (map value (TranslationForm.filteredLanguages (fst (loaded io s))))
    /\ (exists t,
           TranslationForm.selectedLanguage (fst (loaded io s)) = Some t
           /\ In t (map value
                      (TranslationForm.filteredLanguages (fst (loaded io s))))
           /\ t <> TranslationForm.source_language (fst (loaded io s)))
    /\ network (snd (snd (TranslationForm.handleTranslate q reply (loaded io s))))
       = network (snd (loaded io s))
           ++ [Translate q (TranslationForm.source_language (fst (loaded io s)))
                 (TranslationForm.selectedLanguage (fst (loaded io s)))
                 "text"].
Proof.
  intros io s first rest q reply Hfetch.
  pose proof (loadSettings_cells io s) as Hcells. cbn zeta in Hcells.
  rewrite Hfetch in Hcells. destruct Hcells as (Hst & Hfl & Hsel).
  fold (loaded io s) in Hst, Hfl, Hsel.
  assert (TranslationForm.source_language (fst (loaded io s))
          = or_default (settings_language first) "en") as Hsrc.
  { unfold TranslationForm.source_language. rewrite Hst.
    apply or_default_again. reflexivity. }
  assert (~ In (TranslationForm.source_language (fst (loaded io s)))
            (map value (TranslationForm.filteredLanguages (fst (loaded io s)))))
    as Hnot.
  { rewrite Hsrc, Hfl. apply filter_excludes. }
  split; [exact Hsrc |]. split; [exact Hnot |].
  split; [| apply handleTranslate_request].
  destruct (some_language_left (or_default (settings_language first) "en"))
    as (lang0 & others & Hleft).
  rewrite Hleft in Hsel. exists (value lang0).
  assert (In (value lang0)
            (map value (TranslationForm.filteredLanguages (fst (loaded io s)))))
    as Hin by (rewrite Hfl, Hleft; left; reflexivity).
  split; [exact Hsel |]. split; [exact Hin |].
  intros Heq. apply Hnot. rewrite <- Heq. exact Hin.
Qed.

Lemma picker_excludes_stored_language_witness :
  ~ In "en"
      (map value
         (TranslationForm.filteredLanguages
            (fst (loaded None (TranslationForm.initial, started))))).
Proof.
  destruct (picker_excludes_stored_language None
              (TranslationForm.initial, started)
              {| settings_id := 1; settings_language := Some "en" |} []
              "Bonjour" (translate_reply "Hello") eq_refl)
    as (_ & H & _).
  exact H.
Defined.

(** C2, as stated, fails: when no settings row can be read (here the
    database could not be opened), the picker offers every language and
    preselects "en", while the request names "en" as its source. *)
Lemma picker_offers_english_without_settings :
  TranslationForm.source_language form_without_settings = "en"
  /\ In "en" (map value (TranslationForm.filteredLanguages form_without_settings))
  /\ TranslationForm.selectedLanguage form_without_settings = Some "en"
  /\ network
       (snd (snd (TranslationForm.handleTranslate "Hello"
                    (translate_reply "Hello")
                    (form_without_settings, start_failed))))
     = [Translate "Hello" "en" (Some "en") "text"].
Proof.
  split; [reflexivity |]. split; [left; reflexivity |].
  split; reflexivity.
Qed.

(** ** The source language *)

Lemma fetched_settings_cases io w :
  fetched_settings io w = []
  \/ settings (file w) = Some (fetched_settings io w).
Proof.
  unfold fetched_settings. unfold_store.
  unfold statement, SQL.select_settings, console_error.
  destruct (db w); cbn; [| auto].
  destruct io; cbn; [auto |].
  destruct (settings (file w)); cbn; auto.
Qed.

Lemma valid_code_mapped c :
  valid_code c ->
  exists locale,
    property languageMapping c = Some locale
    /\ TranslateScreen.languageCode_of c = locale.
Proof.
  unfold valid_code. cbn.
  intros H.
  repeat (destruct H as [<- | H]; [eexists; split; reflexivity |]).
  destruct H.
Qed.

Lemma settings_form_cell io w :
  settings_form_language io w
  = match fetched_settings io w with
    | first :: _ => or_default (settings_language first) "en"
    | [] => "en"
    end.
Proof.
  unfold settings_form_language.
  destruct (fetchSettings_frame io w) as (l & w1 & Hfetch & Hl & _).
  unfold_form. cbn [fst snd]. rewrite Hfetch, <- Hl.
  destruct l; reflexivity.
Qed.

Lemma translation_source_cell io w :
  translation_source io w
  = match fetched_settings io w with
    | first :: _ => or_default (settings_language first) "en"
    | [] => "en"
    end.
Proof.
  unfold translation_source.
  pose proof (loadSettings_cells io (TranslationForm.initial, w)) as H.
  cbn zeta in H. cbn [fst snd] in H.
  unfold TranslationForm.source_language.
  destruct (fetched_settings io w) as [| first rest].
  - destruct H as (-> & _). reflexivity.
  - destruct H as (-> & _). apply or_default_again. reflexivity.
Qed.

(** The stored languages stay codes of the language list. *)
Lemma started_settings_valid : settings_valid started.
Proof.
  intros rs r c Hrs Hin Hl. cbn in Hrs. injection Hrs as <-.
  destruct Hin as [<- | []]. cbn in Hl. injection Hl as <-.
  left. reflexivity.
Qed.

Lemma updateSettings_settings_valid io lang w :
  valid_code lang -> settings_valid w ->
  settings_valid (snd (DatabaseService.updateSettings io lang w)).
Proof.
  intros Hv Hw. unfold settings_valid in *. unfold_store.
  unfold statement, SQL.update_settings, console_error.
  destruct (db w); cbn; [| exact Hw].
  destruct io; cbn; [exact Hw |].
  destruct (settings (file w)) as [l |] eqn:Hst; cbn; rewrite ?Hst;
    [| discriminate].
  intros rs r c Hrs Hin Hl. injection Hrs as <-.
  apply in_map_iff in Hin. destruct Hin as (r0 & Hr & Hin).
  destruct (settings_id r0 =? 1); subst r.
  - cbn in Hl. injection Hl as <-. exact Hv.
  - apply (Hw l r0 c eq_refl Hin Hl).
Qed.

(** C6 (amended).  The translation form and the settings form resolve the
    source language to the stored language, and to "en" when no row is
    read or the language of the row is unset; with stored languages taken
    from the language list the result is a code of that list.  The
    transcription stage resolves its locale from the same row through the
    mapping, and to "en-GB" when no row is read or the language is
    unset. *)
Theorem source_language_defaults :
  forall (io : fault) (w : world),
    translation_source io w
    = match fetched_settings io w with
      | first :: _ => or_default (settings_language first) "en"
      | [] => "en"
      end
    /\ settings_form_language io w = translation_source io w
    /\ transcription_locale io w
       = match fetched_settings io w with
         | first :: _ =>
             TranslateScreen.languageCode_of
               (or_default (settings_language first) "en-GB")
         | [] => "en-GB"
         end
    /\ (settings_valid w ->
        valid_code (translation_source io w)
        /\ (transcription_locale io w = "en-GB"
            \/ property languageMapping (translation_source io w)
               = Some (transcription_locale io w))).
Proof.
  intros io w.
  split; [apply translation_source_cell |].
  split; [rewrite settings_form_cell, translation_source_cell; reflexivity |].
  split; [unfold transcription_locale; destruct (fetched_settings io w);
          reflexivity |].
  intros Hvalid. rewrite translation_source_cell. unfold transcription_locale.
  destruct (fetched_settings_cases io w) as [-> | Hst];
    [split; [left; reflexivity | left; reflexivity] |].
  destruct (fetched_settings io w) as [| first rest];
    [split; [left; reflexivity | left; reflexivity] |].
  cbn [TranslateScreen.shortCode_of].
  destruct (settings_language first) as [c |] eqn:Hc;
    [| split; [left; reflexivity | left; reflexivity]].
  assert (valid_code c) as Hv
    by (apply (Hvalid _ first c Hst); [left; reflexivity | exact Hc]).
  destruct c as [| a r]; [split; left; reflexivity |].
  cbn [or_default truthy]. split; [exact Hv |].
  right. destruct (valid_code_mapped _ Hv) as (locale & Hp & Hlc).
  rewrite Hlc. exact Hp.
Qed.

Lemma source_language_defaults_witness :
  valid_code (translation_source None started)
  /\ (transcription_locale None started = "en-GB"
      \/ property languageMapping (translation_source None started)
         = Some (transcription_locale None started)).
Proof.
  destruct (source_language_defaults None started) as (_ & _ & _ & H).
  apply H.
  intros rs r c Hrs Hin Hl. cbn in Hrs. injection Hrs as <-.
  destruct Hin as [<- | []]. cbn in Hl. injection Hl as <-.
  left. reflexivity.
Defined.

(** C6, as stated, fails: with no settings row to read, the translation
    stage resolves the source language to "en" and the transcription stage
    to "en-GB", which is not the locale of "en" either. *)
Lemma transcription_default_is_en_GB :
  fetched_settings None start_failed = []
  /\ translation_source None start_failed = "en"
  /\ TranslateScreen.shortCode_of (fetched_settings None start_failed) = "en-GB"
  /\ transcription_locale None start_failed = "en-GB"
  /\ TranslateScreen.languageCode_of (translation_source None start_failed)
     = "en-US"
  /\ TranslateScreen.shortCode_of (fetched_settings None start_failed)
     <> translation_source None start_failed.
Proof.
  repeat split; try reflexivity. discriminate.
Qed.

(** * Further properties *)

(** ** Starting the application *)

Lemma setupDatabase_settings_rows io1 io2 io3 w :
  settings_rows (snd (DatabaseService.setupDatabase io1 io2 io3 w))
  = settings_rows w
  /\ sequence (file (snd (DatabaseService.setupDatabase io1 io2 io3 w)))
     = sequence (file w).
Proof.
  destruct w as [d [st tr sq] fs con al net].
  unfold settings_rows. unfold_store.
  unfold openDatabaseSync, statement, console_error, with_db, with_file,
    SQL.create_settings, SQL.create_translations.
  destruct d, io1, io2, io3, st, tr; split; reflexivity.
Qed.

Lemma setupDatabase_ready w :
  let w' := snd (DatabaseService.setupDatabase None None None w) in
  db w' = true
  /\ settings (file w') = Some (settings_rows w)
  /\ translations (file w') = Some (rows w).
Proof.
  destruct w as [d [st tr sq] fs con al net].
  unfold settings_rows, rows. unfold_store.
  unfold openDatabaseSync, statement, console_error, with_db, with_file,
    SQL.create_settings, SQL.create_translations.
  destruct st, tr; cbn; auto.
Qed.

Lemma loadInitialData_settings io4 io5 w :
  let w' := snd (DatabaseService.loadInitialData io4 io5 w) in
  db w' = db w
  /\ translations (file w') = translations (file w)
  /\ sequence (file w') = sequence (file w)
  /\ (settings (file w') = settings (file w)
      \/ (db w = true /\ io4 = None /\ io5 = None
          /\ settings (file w) = Some []
          /\ settings (file w') = Some [default_settings])).
Proof.
  destruct w as [d [st tr sq] fs con al net].
  unfold_store.
  unfold statement, console_error, with_file, SQL.count_settings,
    SQL.insert_default_settings.
  destruct d, io4, io5, st as [[| r st] |]; cbn; auto 10.
  all: destruct (Z.of_nat (S (List.length st)) =? 0) eqn:E; cbn; auto 10;
    apply Z.eqb_eq in E; lia.
Qed.

Lemma initialise_unfold io1 io2 io3 io4 io5 w :
  initialise io1 io2 io3 io4 io5 w
  = (Resolved tt,
     snd (DatabaseService.loadInitialData io4 io5
            (snd (DatabaseService.setupDatabase io1 io2 io3 w)))).
Proof.
  unfold initialise. unfold_async.
  destruct (setupDatabase_resolves io1 io2 io3 w) as ([] & w1 & ->).
  cbn [snd].
  destruct (loadInitialData_resolves io4 io5 w1) as ([] & w2 & ->).
  reflexivity.
Qed.

(** X1.  A start of the application without driver failure leaves a usable
    store whatever the database file held: the handle is bound, both
    tables exist, the translations are the ones the file had, and the
    settings are the ones the file had or, when it had none, the default
    row; [fetchSettings] then resolves with them. *)
Theorem start_makes_store_ready :
  forall w : world,
    db (act (Start None None None None None) w) = true
    /\ translations (file (act (Start None None None None None) w))
       = Some (rows w)
    /\ settings (file (act (Start None None None None None) w))
       = Some match settings_rows w with
              | [] => [default_settings]
              | l => l
              end
    /\ fetched_settings None (act (Start None None None None None) w)
       = match settings_rows w with
         | [] => [default_settings]
         | l => l
         end.
Proof.
  intros [d [st tr sq] fs con al net].
  unfold act, fetched_settings, initialise, settings_rows, rows, with_db.
  unfold_store.
  unfold openDatabaseSync, statement, console_error, with_db, with_file,
    SQL.create_settings, SQL.create_translations, SQL.count_settings,
    SQL.insert_default_settings, SQL.select_settings.
  destruct st as [[| r st] |], tr; cbn; auto.
  all: destruct (Z.of_nat (S (List.length st)) =? 0) eqn:E; cbn; auto;
    apply Z.eqb_eq in E; lia.
Qed.

(** X2.  A start of the application never rejects and, whatever fails in
    it, changes no stored translation and no rowid counter; the settings
    stay as they are, or the default row is put into a settings table that
    was empty. *)
Theorem restart_keeps_stored_data :
  forall (w : world) (io1 io2 io3 io4 io5 : fault),
    resolves (initialise io1 io2 io3 io4 io5) (with_db false w)
    /\ rows (act (Start io1 io2 io3 io4 io5) w) = rows w
    /\ sequence (file (act (Start io1 io2 io3 io4 io5) w)) = sequence (file w)
    /\ (settings_rows (act (Start io1 io2 io3 io4 io5) w) = settings_rows w
        \/ (settings_rows w = []
            /\ settings_rows (act (Start io1 io2 io3 io4 io5) w)
               = [default_settings])).
Proof.
  intros w io1 io2 io3 io4 io5.
  split; [unfold resolves; rewrite initialise_unfold; eauto |].
  split; [exact (initialise_rows io1 io2 io3 io4 io5 (with_db false w)) |].
  unfold act. rewrite initialise_unfold. cbn [snd].
  set (w1 := snd (DatabaseService.setupDatabase io1 io2 io3 (with_db false w))).
  destruct (setupDatabase_settings_rows io1 io2 io3 (with_db false w))
    as [Hs1 Hq1].
  fold w1 in Hs1, Hq1.
  destruct (loadInitialData_settings io4 io5 w1) as (_ & _ & Hq2 & Hs2).
  cbn zeta in Hq2, Hs2.
  split; [rewrite Hq2, Hq1; reflexivity |].
  change (settings_rows (with_db false w)) with (settings_rows w) in Hs1.
  destruct Hs2 as [Hsame | (_ & _ & _ & Hempty & Hseed)].
  - left. unfold settings_rows in *. rewrite Hsame. exact Hs1.
  - right. unfold settings_rows in *. rewrite Hseed. rewrite Hempty in Hs1.
    split; [symmetry; exact Hs1 | reflexivity].
Qed.

(** ** Lookup and insert *)

(** X3.  [checkIfTranslationExists] never writes.  A row it resolves with
    is a row of the table and carries the text and the language asked
    for; when the statement runs and it resolves with null, the table has
    no row for the pair. *)
Theorem lookup_is_sound_and_complete :
  forall (w : world) (io : fault) (o : string) (l : option string),
    file (snd (DatabaseService.checkIfTranslationExists io o l w)) = file w
    /\ db (snd (DatabaseService.checkIfTranslationExists io o l w)) = db w
    /\ (forall r,
           fst (DatabaseService.checkIfTranslationExists io o l w)
           = Resolved (Some r) ->
           In r (rows w) /\ original_text r = o /\ l = Some (language r))
    /\ (forall c,
           db w = true -> io = None -> l = Some c ->
           fst (DatabaseService.checkIfTranslationExists io o l w)
           = Resolved None ->
           ~ In (o, c) (map pair_of (rows w))).
Proof.
  intros w io o l.
  destruct (checkIfTranslationExists_cases io o l w)
    as [[E Hwhy] | (rs & Hdb & Hio & Hrs & E)]; rewrite E; cbn [fst snd].
  - split; [reflexivity |]. split; [reflexivity |].
    split; [discriminate |].
    intros c Hdb Hio Hl _. unfold rows.
    destruct Hwhy as [H | [H | H]]; try congruence.
    rewrite H. intros [].
  - split; [reflexivity |]. split; [reflexivity |]. split.
    + destruct l as [c |]; [| discriminate].
      intros r Hr. injection Hr as Hr. apply find_some in Hr.
      destruct Hr as [Hin Hm]. apply matches_pair in Hm.
      unfold pair_of in Hm. injection Hm as Ho Hc.
      unfold rows. rewrite Hrs. split; [exact Hin |].
      split; [exact Ho | f_equal; symmetry; exact Hc].
    + intros c _ _ -> Hr. injection Hr as Hr. unfold rows. rewrite Hrs.
      apply find_none_no_pair, Hr.
Qed.

Lemma lookup_is_sound_and_complete_witness :
  ~ In ("Bonsoir", "en")
      (map pair_of
         (rows (run_actions [Speak bonjour [quiet_pass]] started))).
Proof.
  destruct (lookup_is_sound_and_complete
              (run_actions [Speak bonjour [quiet_pass]] started)
              None "Bonsoir" (Some "en")) as (_ & _ & _ & H).
  apply (H "en"); reflexivity.
Defined.

Lemma find_app_first {A} (f : A -> bool) (l1 l2 : list A) (x : A) :
  find f l1 = Some x -> find f (l1 ++ l2) = Some x.
Proof.
  induction l1 as [| a l1 IH]; cbn; [discriminate |].
  destruct (f a); auto.
Qed.

Lemma find_app_last {A} (f : A -> bool) (l : list A) (x : A) :
  find f l = None -> f x = true -> find f (l ++ [x]) = Some x.
Proof.
  induction l as [| a l IH]; cbn; intros Hn Hx; [rewrite Hx; reflexivity |].
  destruct (f a); [discriminate | auto].
Qed.

(** X4.  On a working store [addTranslation] always appends a row, with a
    fresh rowid, even when the table already has a record for the pair; a
    lookup for the pair afterwards finds the oldest record for it, which
    is the new row exactly when there was none before, and
    [fetchTranslations] lists the old rows followed by the new one. *)
Theorem insert_then_lookup :
  forall (w : world) (rs : list translation_row) (o c t : string),
    db w = true -> translations (file w) = Some rs ->
    rows (snd (DatabaseService.addTranslation None o (Some c) t w))
    = rs ++ [new_row (file w) rs o c t]
    /\ ~ In (row_id (new_row (file w) rs o c t)) (map row_id rs)
    /\ fst (DatabaseService.fetchTranslations None
              (snd (DatabaseService.addTranslation None o (Some c) t w)))
       = Resolved (rs ++ [new_row (file w) rs o c t])
    /\ fst (DatabaseService.checkIfTranslationExists None o (Some c)
              (snd (DatabaseService.addTranslation None o (Some c) t w)))
       = Resolved
           (Some match find (SQL.matches o c) rs with
                 | Some older => older
                 | None => new_row (file w) rs o c t
                 end).
Proof.
  intros w rs o c t Hdb Hrs.
  destruct (addTranslation_cases None o (Some c) t w)
    as [[_ Hwhy] | (rs' & c' & _ & _ & Hrs' & Hc' & E)].
  { destruct Hwhy as [H | [H | [H | H]]]; congruence. }
  assert (rs' = rs) by congruence. injection Hc' as <-. subst rs'.
  rewrite E. cbn [snd].
  split; [reflexivity |]. split; [apply new_row_fresh |].
  unfold_store. unfold statement, SQL.select_translations,
    SQL.select_translation. cbn. rewrite Hdb. cbn.
  split; [reflexivity |]. f_equal. f_equal.
  destruct (find (SQL.matches o c) rs) as [older |] eqn:Hf.
  - apply find_app_first, Hf.
  - apply find_app_last; [exact Hf |].
    apply matches_pair. reflexivity.
Qed.

Lemma insert_then_lookup_witness :
  fst (DatabaseService.checkIfTranslationExists None "Bonjour" (Some "en")
         (snd (DatabaseService.addTranslation None "Bonjour" (Some "en")
                 "Hello" started)))
  = Resolved
      (Some match find (SQL.matches "Bonjour" "en") [] with
            | Some older => older
            | None => new_row (file started) [] "Bonjour" "en" "Hello"
            end).
Proof.
  apply (insert_then_lookup started [] "Bonjour" "en" "Hello");
    reflexivity.
Defined.

(** ** Rowids *)

Lemma deleteTranslation_sequence io i w :
  sequence (file (snd (DatabaseService.deleteTranslation io i w)))
  = sequence (file w).
Proof.
  unfold_store. unfold statement, SQL.delete_translation, console_error.
  destruct (db w); cbn; [| reflexivity].
  destruct io; cbn; [reflexivity |].
  destruct (translations (file w)); reflexivity.
Qed.

Lemma updateSettings_sequence io lang w :
  sequence (file (snd (DatabaseService.updateSettings io lang w)))
  = sequence (file w).
Proof.
  unfold_store. unfold statement, SQL.update_settings, console_error.
  destruct (db w); cbn; [| reflexivity].
  destruct io; cbn; [reflexivity |].
  destruct (settings (file w)); reflexivity.
Qed.

Lemma initialise_sequence io1 io2 io3 io4 io5 w :
  sequence (file (snd (initialise io1 io2 io3 io4 io5 w)))
  = sequence (file w).
Proof.
  rewrite initialise_unfold. cbn [snd].
  destruct (loadInitialData_settings io4 io5
              (snd (DatabaseService.setupDatabase io1 io2 io3 w)))
    as (_ & _ & -> & _).
  apply setupDatabase_settings_rows.
Qed.

Lemma StronglySorted_snoc (l : list Z) (x : Z) :
  StronglySorted Z.lt l -> Forall (fun y => y < x) l ->
  StronglySorted Z.lt (l ++ [x]).
Proof.
  induction l as [| a l IH]; cbn; intros Hs Hf.
  - repeat constructor.
  - inversion Hs as [| a' l' Hs' Ha]; subst.
    inversion Hf as [| a' l' Hax Hf']; subst.
    constructor; [apply IH; assumption |].
    apply Forall_app. split; [exact Ha | constructor; [exact Hax | constructor]].
Qed.

Lemma StronglySorted_map_filter (g : translation_row -> bool)
  (l : list translation_row) :
  StronglySorted Z.lt (map row_id l) ->
  StronglySorted Z.lt (map row_id (filter g l)).
Proof.
  induction l as [| a l IH]; cbn; intros Hs; [constructor |].
  inversion Hs as [| a' l' Hs' Ha]; subst.
  destruct (g a); cbn; [| auto].
  constructor; [auto |].
  rewrite Forall_forall in *. intros y Hy. apply Ha.
  apply in_map_iff in Hy. destruct Hy as (r & <- & Hr).
  apply filter_In in Hr. apply in_map, Hr.
Qed.

Lemma StronglySorted_lt_NoDup (l : list Z) :
  StronglySorted Z.lt l -> NoDup l.
Proof.
  induction 1 as [| a l Hs IH Ha]; constructor; [| exact IH].
  intros Hin. rewrite Forall_forall in Ha. specialize (Ha a Hin). lia.
Qed.

Lemma ids_ascending_same w w' :
  rows w' = rows w -> sequence (file w') = sequence (file w) ->
  ids_ascending w -> ids_ascending w'.
Proof. unfold ids_ascending. intros -> ->. exact (fun H => H). Qed.

Lemma effect_ids_ascending p e (s : string * world) :
  ids_ascending (snd s) ->
  ids_ascending (snd (snd (SpeakerScreen.effect p e s))).
Proof.
  intros [Hs Hf].
  destruct (effect_store p e s)
    as [_ [Hsame | (rs & c & _ & _ & Hrs & _ & _ & Hfile)]].
  - apply (ids_ascending_same (snd s)); [| | split; assumption];
      unfold rows; rewrite Hsame; reflexivity.
  - unfold ids_ascending, rows in *. rewrite Hfile. cbn [translations sequence].
    rewrite Hrs in Hs, Hf.
    assert (forall r, In r rs ->
                      row_id r
                      < row_id (new_row (file (snd s)) rs
                                  (SpeakerScreen.transcription p) c (fst s)))
      as Hlt.
    { intros r Hr. rewrite Forall_forall in Hf. specialize (Hf r Hr).
      unfold new_row. cbn. lia. }
    split.
    + rewrite map_app. cbn [map]. apply StronglySorted_snoc; [exact Hs |].
      rewrite Forall_forall. intros y Hy.
      apply in_map_iff in Hy. destruct Hy as (r & <- & Hr). apply Hlt, Hr.
    + apply Forall_app. split; [| constructor; [lia | constructor]].
      rewrite Forall_forall. intros r Hr. specialize (Hlt r Hr). lia.
Qed.

Lemma act_ids_ascending a w : ids_ascending w -> ids_ascending (act a w).
Proof.
  destruct a as [io1 io2 io3 io4 io5 | p passes | io i | io lang]; cbn;
    intros Hw.
  - apply (ids_ascending_same w); [| | exact Hw].
    + exact (initialise_rows io1 io2 io3 io4 io5 (with_db false w)).
    + exact (initialise_sequence io1 io2 io3 io4 io5 (with_db false w)).
  - unfold SpeakerScreen.mount.
    apply (rerender_invariant ids_ascending); [| exact Hw].
    intros e s _. apply effect_ids_ascending.
  - destruct (deleteTranslation_rows io i w) as [_ [H | H]].
    + apply (ids_ascending_same w);
        [exact H | apply deleteTranslation_sequence | exact Hw].
    + destruct Hw as [Hs Hf]. unfold ids_ascending.
      rewrite H, deleteTranslation_sequence. split.
      * apply StronglySorted_map_filter, Hs.
      * rewrite Forall_forall in *. intros r Hr. apply Hf.
        apply filter_In in Hr. apply Hr.
  - destruct (updateSettings_rows io lang w) as [_ H].
    apply (ids_ascending_same w);
      [exact H | apply updateSettings_sequence | exact Hw].
Qed.

(** X5.  Whatever the application does and whatever fails in it, the
    translations are listed with ascending rowids, all at most the
    AUTOINCREMENT counter; so no two records share an id. *)
Theorem rowids_stay_ascending :
  forall (l : list action) (w : world),
    ids_ascending w ->
    ids_ascending (run_actions l w)
    /\ primary_key (rows (run_actions l w)).
Proof.
  intros l. induction l as [| a l IH]; intros w Hw; cbn.
  - split; [exact Hw |]. apply StronglySorted_lt_NoDup, Hw.
  - apply IH, act_ids_ascending, Hw.
Qed.

Lemma rowids_stay_ascending_witness :
  ids_ascending
    (run_actions [Speak bonjour [quiet_pass]; DeleteHistoryItem None 1;
                  Speak bonsoir [locked_lookup_pass]] started).
Proof.
  apply (rowids_stay_ascending
           [Speak bonjour [quiet_pass]; DeleteHistoryItem None 1;
            Speak bonsoir [locked_lookup_pass]] started).
  split; constructor.
Defined.

Lemma act_retired_id (i : Z) a w :
  i <= sequence (file w) /\ ~ In i (map row_id (rows w)) ->
  i <= sequence (file (act a w)) /\ ~ In i (map row_id (rows (act a w))).
Proof.
  destruct a as [io1 io2 io3 io4 io5 | p passes | io j | io lang]; cbn;
    intros [Hle Hnot].
  - rewrite (initialise_rows io1 io2 io3 io4 io5 (with_db false w)).
    rewrite (initialise_sequence io1 io2 io3 io4 io5 (with_db false w)).
    auto.
  - unfold SpeakerScreen.mount.
    apply (rerender_invariant
             (fun w => i <= sequence (file w)
                       /\ ~ In i (map row_id (rows w)))); [| auto].
    intros e s _ [Hle' Hnot'].
    destruct (effect_store p e s)
      as [_ [Hsame | (rs & c & _ & _ & Hrs & _ & _ & Hfile)]];
      unfold rows in *.
    + rewrite Hsame. auto.
    + rewrite Hfile. cbn [translations sequence]. rewrite Hrs in Hnot'.
      unfold new_row. cbn [row_id]. split; [lia |].
      rewrite map_app. cbn. intros Hin. apply in_app_or in Hin.
      destruct Hin as [Hin | [Heq | []]]; [exact (Hnot' Hin) | lia].
  - rewrite deleteTranslation_sequence. split; [exact Hle |].
    destruct (deleteTranslation_rows io j w) as [_ [H | H]]; rewrite H;
      [exact Hnot |].
    intros Hin. apply Hnot. apply in_map_iff in Hin.
    destruct Hin as (r & <- & Hr). apply filter_In in Hr.
    apply in_map, Hr.
  - rewrite updateSettings_sequence.
    destruct (updateSettings_rows io lang w) as [_ ->]. auto.
Qed.

(** X6.  Rowids are not reused: once [deleteTranslation] removed the
    record with an id, no record of the store has that id again, whatever
    is inserted, deleted or restarted afterwards. *)
Theorem deleted_rowid_is_not_reused :
  forall (w : world) (i : Z) (l : list action),
    ids_ascending w -> db w = true -> In i (map row_id (rows w)) ->
    ~ In i (map row_id
              (rows (run_actions (DeleteHistoryItem None i :: l) w))).
Proof.
  intros w i l [Hs Hf] Hdb Hin. cbn [run_actions fold_left].
  change (fold_left (fun w a => act a w) l ?x) with (run_actions l x).
  assert (i <= sequence (file (act (DeleteHistoryItem None i) w))
          /\ ~ In i (map row_id (rows (act (DeleteHistoryItem None i) w))))
    as Hretired.
  { cbn [act]. rewrite deleteTranslation_sequence. split.
    - apply in_map_iff in Hin. destruct Hin as (r & <- & Hr).
      rewrite Forall_forall in Hf. apply Hf, Hr.
    - unfold rows in Hin |- *. unfold_store.
      unfold statement, SQL.delete_translation. rewrite Hdb.
      destruct (translations (file w)) as [rs |] eqn:Hrs; [| destruct Hin].
      cbn. intros Hin'. apply in_map_iff in Hin'.
      destruct Hin' as (r & Hid & Hr). apply filter_In in Hr.
      destruct Hr as [_ Hne]. rewrite Hid, Z.eqb_refl in Hne. discriminate. }
  clear Hin Hs Hf Hdb.
  revert Hretired. generalize (act (DeleteHistoryItem None i) w).
  induction l as [| a l IH]; intros w' H; cbn; [apply H |].
  apply IH, act_retired_id, H.
Qed.

Lemma deleted_rowid_is_not_reused_witness :
  ~ In 1 (map row_id
            (rows (run_actions
                     [DeleteHistoryItem None 1; Speak bonjour [quiet_pass];
                      Start None None None None None]
                     two_records))).
Proof.
  apply (deleted_rowid_is_not_reused two_records 1
           [Speak bonjour [quiet_pass]; Start None None None None None]).
  - split.
    + cbn. repeat constructor.
    + cbn. repeat constructor; cbn; lia.
  - reflexivity.
  - left. reflexivity.
Defined.

(** ** The history screen *)

Lemma deleteTranslation_runs i w :
  db w = true ->
  rows (snd (DatabaseService.deleteTranslation None i w))
  = filter (fun r => negb (row_id r =? i)) (rows w).
Proof.
  intros Hdb. unfold rows. unfold_store.
  unfold statement, SQL.delete_translation, console_error. rewrite Hdb.
  destruct (translations (file w)) eqn:Hrs; cbn; rewrite ?Hrs; reflexivity.
Qed.

Lemma fetchTranslations_runs w :
  db w = true -> translations (file w) <> None ->
  DatabaseService.fetchTranslations None w = (Resolved (rows w), w).
Proof.
  intros Hdb Htab. unfold rows. unfold_store.
  unfold statement, SQL.select_translations. rewrite Hdb.
  destruct (translations (file w)) eqn:Hrs; [| congruence].
  cbn. destruct w; cbn in *. subst. reflexivity.
Qed.

Lemma deleteTranslation_keeps_table io i w :
  translations (file w) <> None ->
  translations (file (snd (DatabaseService.deleteTranslation io i w))) <> None
  /\ db (snd (DatabaseService.deleteTranslation io i w)) = db w.
Proof.
  intros Htab. unfold_store.
  unfold statement, SQL.delete_translation, console_error.
  destruct (db w) eqn:Hdb; cbn; [| auto].
  destruct io; cbn; [auto |].
  destruct (translations (file w)) eqn:Hrs; cbn; rewrite ?Hrs; auto.
  split; [discriminate | auto].
Qed.

(** X7.  [handleDelete] always resolves, confirms with the alert
    "Translation deleted" and drops the items with the id from the list on
    screen, whether or not the store deleted anything.  On a working store
    a list that shows the stored translations still shows them after the
    deletion: it is what [fetchTranslations] resolves with. *)
Theorem history_list_follows_store :
  forall (io : fault) (i : Z) (s : list translation_row * world),
    fst (HistoryScreen.handleDelete io i s) = Resolved tt
    /\ fst (snd (HistoryScreen.handleDelete io i s))
       = filter (fun item => negb (row_id item =? i)) (fst s)
    /\ alerts (snd (snd (HistoryScreen.handleDelete io i s)))
       = alerts (snd s) ++ [("Translation deleted", "")]
    /\ (db (snd s) = true -> translations (file (snd s)) <> None ->
        fst s = rows (snd s) ->
        fst (DatabaseService.fetchTranslations None
               (snd (snd (HistoryScreen.handleDelete None i s))))
        = Resolved (fst (snd (HistoryScreen.handleDelete None i s)))).
Proof.
  intros io i [c w]. cbn [fst snd].
  assert (forall io',
             HistoryScreen.handleDelete io' i (c, w)
             = (Resolved tt,
                (filter (fun item => negb (row_id item =? i)) c,
                 snd (Alert_alert "Translation deleted" ""
                        (snd (DatabaseService.deleteTranslation io' i w))))))
    as Hun.
  { intros io'. unfold HistoryScreen.handleDelete. unfold_async.
    cbn [fst snd].
    pose proof (try_statement_unit io' (SQL.delete_translation i)
                  "Error deleting translation:" w) as H.
    apply swallowed_resolves in H. destruct H as ([] & w' & H).
    unfold DatabaseService.deleteTranslation. unfold_async. rewrite H.
    reflexivity. }
  rewrite !Hun. cbn [fst snd].
  split; [reflexivity |]. split; [reflexivity |]. split.
  - unfold Alert_alert. cbn [snd alerts]. f_equal.
    unfold_store. unfold statement, SQL.delete_translation, console_error.
    destruct (db w); cbn; [| reflexivity].
    destruct io; cbn; [reflexivity |].
    destruct (translations (file w)); reflexivity.
  - intros Hdb Htab ->.
    destruct (deleteTranslation_keeps_table None i w Htab) as [Htab' Hdb'].
    set (w1 := snd (DatabaseService.deleteTranslation None i w)) in *.
    pose proof (fetchTranslations_runs
                  (snd (Alert_alert "Translation deleted" "" w1))) as Hf.
    cbn [Alert_alert snd db file] in Hf.
    unfold Alert_alert. cbn [snd].
    rewrite Hf; [| congruence | exact Htab'].
    cbn [fst]. f_equal.
    change (rows w1 = filter (fun item => negb (row_id item =? i)) (rows w)).
    apply deleteTranslation_runs, Hdb.
Qed.

Lemma history_list_follows_store_witness :
  fst (DatabaseService.fetchTranslations None
         (snd (snd (HistoryScreen.handleDelete None 1
                      (rows two_records, two_records)))))
  = Resolved
      (fst (snd (HistoryScreen.handleDelete None 1
                   (rows two_records, two_records)))).
Proof.
  destruct (history_list_follows_store None 1 (rows two_records, two_records))
    as (_ & _ & _ & H).
  apply H; [reflexivity | discriminate | reflexivity].
Defined.

Lemma find_some_of_member o c rs r :
  In r rs -> pair_of r = (o, c) -> find (SQL.matches o c) rs <> None.
Proof.
  intros Hin Hp Hf.
  pose proof (find_none _ _ Hf r Hin) as Hm.
  apply matches_pair in Hp. congruence.
Qed.

(** ** Schedules: a screen opened from the history *)

Lemma step_reopened p w e a :
  Schedule.of_pass e -> Schedule.answered e ->
  settled p w -> SpeakerScreen.selectedLanguage p <> None ->
  translations (file w) <> None ->
  reopened_state p w a -> reopened_state p w (Schedule.step e a).
Proof.
  intros Hof Hans Hset Hl Htab (Hf & Hd & Hscr & Hpar & Hins).
  destruct e as [q | n r | n io | n io | io i | io lang | io1 io2 io3 io4 io5];
    try destruct Hof.
  - destruct (reply_frame n r a) as (Hf' & Hd' & Hback).
    split; [congruence |]. split; [congruence |]. split.
    { intros k q cell Hk.
      destruct (reply_screens n r a k q cell Hk) as [cell' H].
      apply (Hscr k q cell' H). }
    split.
    + intros m t' Hm.
      destruct (Hback m t' Hm)
        as [(t & H & Hp & _) | (_ & _ & t1 & cell & _ & Hs & _)].
      * rewrite Hp. apply (Hpar m t H).
      * apply (Hscr _ _ _ Hs).
    + intros m t' Hm Hc.
      destruct (Hback m t' Hm) as [(t & H & _ & _ & Hc') | (_ & H & _)];
        [| congruence].
      apply (Hins m t H). congruence.
  - task_cases a n t Ht Hc; try (repeat split; assumption).
    destruct io as [e |]; [destruct Hans |].
    destruct (lookup_outcome None (Schedule.params t) (Schedule.device a))
      as (Hf' & Hd' & Hres). cbn zeta in Hf', Hd', Hres.
    rewrite (Hpar n t Ht) in Hf', Hd', Hres |- *.
    split; cbn [Schedule.device Schedule.tasks Schedule.screens];
      [congruence |].
    split; [congruence |]. split; [exact Hscr |]. split.
    + intros m t' Hm. rewrite nth_error_update in Hm.
      destruct (Nat.eqb n m); [| apply (Hpar m t' Hm)].
      destruct (nth_error (Schedule.tasks a) m) as [t2 |] eqn:H2;
        [| discriminate].
      cbn in Hm. injection Hm as <-. cbn. apply (Hpar m t2 H2).
    + intros m t' Hm Hc'. rewrite nth_error_update in Hm.
      destruct (Nat.eqb_spec n m) as [<- | Hne];
        [| apply (Hins m t' Hm Hc')].
      rewrite Ht in Hm. cbn in Hm. injection Hm as <-. cbn in Hc'.
      destruct Hres as [(row & Hrow & _) | [_ Habs]];
        [rewrite Hrow in Hc'; discriminate |].
      assert (settled p (Schedule.device a)) as Hset'
        by (apply (settled_same p w); assumption).
      destruct (settled_absent_doomed p _ Hset' (Habs eq_refl))
        as [H | [H | H]]; congruence.
  - task_cases a n t Ht Hc; try (repeat split; assumption).
    destruct (insert_outcome io (Schedule.params t) (Schedule.refinedText t)
                (Schedule.device a))
      as (Hd' & Hfile). cbn zeta in Hd', Hfile.
    pose proof (Hins n t Ht Hc) as Hoff.
    destruct Hfile as [[Hf' _] | (rs & c & Hdb1 & _)]; [| congruence].
    split; cbn [Schedule.device Schedule.tasks Schedule.screens];
      [congruence |].
    split; [congruence |]. split; [exact Hscr |]. split.
    + intros m t' Hm. rewrite nth_error_update in Hm.
      destruct (Nat.eqb n m); [| apply (Hpar m t' Hm)].
      destruct (nth_error (Schedule.tasks a) m) as [t2 |] eqn:H2;
        [| discriminate].
      cbn in Hm. injection Hm as <-. cbn. apply (Hpar m t2 H2).
    + intros m t' Hm Hc'. exact Hoff.
Qed.

Lemma run_reopened p w events a :
  Forall Schedule.of_pass events -> Forall Schedule.answered events ->
  settled p w -> SpeakerScreen.selectedLanguage p <> None ->
  translations (file w) <> None ->
  reopened_state p w a -> reopened_state p w (Schedule.run events a).
Proof.
  intros H1 H2 Hset Hl Htab. revert a H1 H2.
  induction events as [| e rest IH]; intros a H1 H2 Hs; [exact Hs |].
  inversion H1; inversion H2; subst.
  apply (IH (Schedule.step e a)); try assumption.
  apply step_reopened; assumption.
Qed.

(** X8.  Opening a stored translation from the history on the speaker
    screen writes nothing, whatever the refinement returns, whether or
    not the inserts would work and in whatever order the replies, the
    lookups and the inserts of its passes come, as long as the lookups
    are answered and nothing else acts on the store while the passes
    run: every dedup check finds the record the item shows. *)
Theorem opening_history_item_writes_nothing :
  forall (w : world) (item : translation_row)
    (events : list Schedule.event),
    In item (rows w) ->
    Forall Schedule.of_pass events ->
    Forall Schedule.answered events ->
    file (Schedule.device
            (Schedule.run
               (Schedule.Navigate (TranslationItem.handlePress item)
                  :: events)
               (Schedule.boot w)))
    = file w.
Proof.
  intros w item events Hin Hof Hans.
  unfold rows in Hin.
  destruct (translations (file w)) as [rs |] eqn:Hrs; [| destruct Hin].
  apply (run_reopened (TranslationItem.handlePress item) w events).
  - exact Hof.
  - exact Hans.
  - right. right. right. exists rs, (language item).
    split; [exact Hrs |]. split; [reflexivity |].
    apply (find_some_of_member _ _ rs item Hin). reflexivity.
  - discriminate.
  - congruence.
  - split; [reflexivity |]. split; [reflexivity |]. split.
    { intros k q cell Hk. destruct k as [| k]; cbn in Hk;
        [congruence | destruct k; discriminate]. }
    split.
    + intros m t Hm. destruct m as [| m]; cbn in Hm;
        [injection Hm as <-; reflexivity | destruct m; discriminate].
    + intros m t Hm Hc. destruct m as [| m]; cbn in Hm;
        [injection Hm as <-; discriminate | destruct m; discriminate].
Qed.

Lemma opening_history_item_writes_nothing_witness :
  file (Schedule.device
          (Schedule.run
             [Schedule.Navigate
                (TranslationItem.handlePress
                   {| row_id := 1; original_text := "Bonjour";
                      language := "en"; translated_text := "Hello" |});
              Schedule.Reply 0 (chat_reply (Some "Hello there"));
              Schedule.Lookup 1 None; Schedule.Insert 1 None;
              Schedule.Lookup 0 None]
             (Schedule.boot two_records)))
  = file two_records.
Proof.
  apply (opening_history_item_writes_nothing two_records
           {| row_id := 1; original_text := "Bonjour";
              language := "en"; translated_text := "Hello" |}
           [Schedule.Reply 0 (chat_reply (Some "Hello there"));
            Schedule.Lookup 1 None; Schedule.Insert 1 None;
            Schedule.Lookup 0 None]).
  - left. reflexivity.
  - repeat constructor.
  - repeat constructor.
Defined.

(** ** Language labels *)

Lemma find_value_none (c : string) (l : list language_option) :
  ~ In c (map value l) ->
  find (fun lang => String.eqb (value lang) c) l = None.
Proof.
  induction l as [| a l IH]; cbn; intros Hnot; [reflexivity |].
  destruct (String.eqb (value a) c) eqn:E.
  - apply String.eqb_eq in E. exfalso. apply Hnot. left. exact E.
  - apply IH. intros Hin. apply Hnot. right. exact Hin.
Qed.

(** X9.  A history item shows, for the code of every entry of the language
    list, the label of that entry, and for any other code the code
    itself. *)
Theorem languageLabel_of_code :
  forall c : string,
    (forall lang, In lang languages -> value lang = c ->
                  TranslationItem.languageLabel c = label lang)
    /\ (~ valid_code c -> TranslationItem.languageLabel c = c).
Proof.
  intros c. split.
  - intros lang Hin <-. unfold languages in Hin. cbn in Hin.
    repeat (destruct Hin as [<- | Hin]; [reflexivity |]). destruct Hin.
  - intros Hnot. unfold TranslationItem.languageLabel.
    rewrite (find_value_none c languages Hnot). reflexivity.
Qed.

Lemma languageLabel_of_code_witness :
  TranslationItem.languageLabel "zh-CN" = "Chinese (Simplified)"
  /\ TranslationItem.languageLabel "cy" = "cy".
Proof.
  destruct (languageLabel_of_code "zh-CN") as [H1 _].
  destruct (languageLabel_of_code "cy") as [_ H2].
  split.
  - apply (H1 {| label := "Chinese (Simplified)"; value := "zh-CN" |});
      [| reflexivity].
    right. right. right. right. left. reflexivity.
  - apply H2. unfold valid_code. cbn.
    intros H. repeat (destruct H as [H | H]; [discriminate |]). exact H.
Defined.

(** ** The settings form *)

Lemma fetched_settings_ext io w1 w2 :
  db w1 = db w2 -> file w1 = file w2 ->
  fetched_settings io w1 = fetched_settings io w2.
Proof.
  intros Hd Hf. unfold fetched_settings. unfold_store.
  unfold statement, SQL.select_settings, console_error.
  rewrite Hd, Hf. destruct (db w2); cbn; [| reflexivity].
  destruct io; cbn; [reflexivity |].
  destruct (settings (file w2)); reflexivity.
Qed.

Lemma handleSave_unfold io (s : string * world) :
  SettingsForm.handleSave io s
  = (Resolved tt,
     (fst s,
      snd (Alert_alert "Language updated" ""
             (snd (DatabaseService.updateSettings io (fst s) (snd s)))))).
Proof.
  destruct s as [c w]. unfold SettingsForm.handleSave. unfold_async.
  cbn [fst snd].
  pose proof (try_statement_unit io (SQL.update_settings c)
                "Error updating settings:" w) as H.
  apply swallowed_resolves in H. destruct H as ([] & w' & H).
  unfold DatabaseService.updateSettings. unfold_async. rewrite H.
  reflexivity.
Qed.

Lemma updateSettings_fetched lang w r rest :
  db w = true -> settings (file w) = Some (r :: rest) -> settings_id r = 1 ->
  exists rest',
    fetched_settings None (snd (DatabaseService.updateSettings None lang w))
    = {| settings_id := 1; settings_language := Some lang |} :: rest'.
Proof.
  intros Hdb Hst Hid. unfold fetched_settings. unfold_store.
  unfold statement, SQL.update_settings, SQL.select_settings. rewrite Hdb, Hst.
  cbn. rewrite Hdb. cbn. rewrite Hid. cbn. eexists. reflexivity.
Qed.

(** X10.  [handleSave] always resolves and always alerts "Language
    updated", never "Unable to save language", also when the store did not
    take the update; it changes no translation.  On a working store whose
    first settings row is the row with id 1, the saved language is what
    the settings form shows afterwards, what the translation request names
    as its source, what the target picker leaves out, and what the
    transcription request maps to its locale. *)
Theorem saved_language_is_used :
  forall (io : fault) (s : string * world),
    fst (SettingsForm.handleSave io s) = Resolved tt
    /\ alerts (snd (snd (SettingsForm.handleSave io s)))
       = alerts (snd s) ++ [("Language updated", "")]
    /\ rows (snd (snd (SettingsForm.handleSave io s))) = rows (snd s)
    /\ (forall r rest,
           db (snd s) = true ->
           settings (file (snd s)) = Some (r :: rest) ->
           settings_id r = 1 -> truthy (fst s) = true ->
           settings_form_language None (snd (snd (SettingsForm.handleSave None s)))
           = fst s
           /\ translation_source None (snd (snd (SettingsForm.handleSave None s)))
              = fst s
           /\ ~ In (fst s)
                  (map value
                     (TranslationForm.filteredLanguages
                        (fst (loaded None
                                (TranslationForm.initial,
                                 snd (snd (SettingsForm.handleSave None s)))))))
           /\ transcription_locale None
                (snd (snd (SettingsForm.handleSave None s)))
              = TranslateScreen.languageCode_of (fst s)).
Proof.
  intros io [c w]. rewrite !handleSave_unfold. cbn [fst snd].
  split; [reflexivity |]. split.
  { unfold Alert_alert. cbn [snd alerts]. f_equal.
    unfold_store. unfold statement, SQL.update_settings, console_error.
    destruct (db w); cbn; [| reflexivity].
    destruct io; cbn; [reflexivity |].
    destruct (settings (file w)); reflexivity. }
  split.
  { destruct (updateSettings_rows io c w) as [_ H]. exact H. }
  intros r rest Hdb Hst Hid Ht.
  destruct (updateSettings_fetched c w r rest Hdb Hst Hid) as (rest' & Hf).
  set (w1 := snd (DatabaseService.updateSettings None c w)) in *.
  assert (fetched_settings None (snd (Alert_alert "Language updated" "" w1))
          = {| settings_id := 1; settings_language := Some c |} :: rest')
    as Hf'.
  { rewrite <- Hf. apply fetched_settings_ext; reflexivity. }
  assert (or_default (Some c) "en" = c) as Hor
    by (cbn; rewrite Ht; reflexivity).
  split; [rewrite settings_form_cell, Hf'; exact Hor |].
  split; [rewrite translation_source_cell, Hf'; exact Hor |].
  split.
  - pose proof (loadSettings_cells None
                  (TranslationForm.initial,
                   snd (Alert_alert "Language updated" "" w1))) as Hc.
    cbn zeta in Hc. cbn [snd] in Hc. rewrite Hf' in Hc.
    destruct Hc as (_ & Hfl & _). unfold loaded. rewrite Hfl.
    cbn [settings_language]. rewrite Hor. apply filter_excludes.
  - unfold transcription_locale. rewrite Hf'.
    cbn [TranslateScreen.shortCode_of settings_language].
    f_equal. cbn. rewrite Ht. reflexivity.
Qed.

Lemma saved_language_is_used_witness :
  translation_source None
    (snd (snd (SettingsForm.handleSave None ("fr", started))))
  = "fr"
  /\ transcription_locale None
       (snd (snd (SettingsForm.handleSave None ("fr", started))))
     = "fr-FR".
Proof.
  destruct (saved_language_is_used None ("fr", started)) as (_ & _ & _ & H).
  destruct (H default_settings [] eq_refl eq_refl eq_refl eq_refl)
    as (_ & H2 & _ & H4).
  split; [exact H2 | exact H4].
Defined.

(** ** The transcription stage, continued *)

Lemma sendAudioForTranscription_outcome os uri io reply
  (s : TranslateScreen.state * world) :
  let r := TranslateScreen.sendAudioForTranscription os uri io reply s in
  fst r = Resolved tt
  /\ file (snd (snd r)) = file (snd s)
  /\ db (snd (snd r)) = db (snd s)
  /\ match transcript_of (files (snd s) uri) reply with
     | Some t =>
         TranslateScreen.transcription (fst (snd r)) = Some t
         /\ alerts (snd (snd r)) = alerts (snd s)
     | None =>
         TranslateScreen.transcription (fst (snd r))
         = TranslateScreen.transcription (fst s)
         /\ exists msg, alerts (snd (snd r)) = alerts (snd s) ++ [("Error", msg)]
     end.
Proof.
  destruct s as [c w]. cbn zeta. cbn [fst snd].
  destruct (fetchSettings_frame io w)
    as (l & w1 & Hfetch & Hl & Hfiles & Hnet & Hal & Hfile1 & Hdb1).
  unfold transcript_of.
  unfold_translate_screen. cbn [fst snd]. rewrite Hfetch. cbn [fst snd].
  rewrite Hfiles.
  destruct (files w uri) as [| e | e | content] eqn:Hfile; cbn;
    rewrite ?Hfiles, ?Hfile; cbn; rewrite ?Hnet, ?Hal, ?Hfile1, ?Hdb1;
    eauto 8.
  destruct reply as [[o st j] | e]; cbn;
    rewrite ?Hnet, ?Hal, ?Hfile1, ?Hdb1; [| eauto 8].
  destruct j as [[results |] | e']; cbn;
    rewrite ?Hnet, ?Hal, ?Hfile1, ?Hdb1;
    [| destruct o; cbn; rewrite ?Hal, ?Hfile1, ?Hdb1; eauto 8
     | destruct o; eauto 8].
  destruct o; cbn; rewrite ?Hal, ?Hfile1, ?Hdb1; [| eauto 8].
  destruct (TranslateScreen.transcripts results); cbn;
    rewrite ?Hal, ?Hfile1, ?Hdb1; eauto 8.
Qed.

(** X11.  [sendAudioForTranscription] never rejects, never writes to the
    store and always ends with [loading] false.  It either sets the
    transcription and raises no alert, or leaves the transcription as it
    was and raises exactly one alert; it sets the transcription exactly
    when the file could be read and the reply is ok with a first
    alternative in every result, to the first alternatives joined by line
    feeds. *)
Theorem transcription_succeeds_or_alerts_once :
  forall (os : TranslateScreen.platform) (uri : string) (io : fault)
    (reply : completion (response TranslateScreen.speech_data))
    (s : TranslateScreen.state * world),
    fst (TranslateScreen.sendAudioForTranscription os uri io reply s)
    = Resolved tt
    /\ TranslateScreen.loading
         (fst (snd (TranslateScreen.sendAudioForTranscription os uri io reply s)))
       = false
    /\ file (snd (snd (TranslateScreen.sendAudioForTranscription os uri io
                         reply s)))
       = file (snd s)
    /\ match transcript_of (files (snd s) uri) reply with
       | Some t =>
           TranslateScreen.transcription
             (fst (snd (TranslateScreen.sendAudioForTranscription os uri io
                          reply s)))
           = Some t
           /\ alerts (snd (snd (TranslateScreen.sendAudioForTranscription os
                                  uri io reply s)))
              = alerts (snd s)
       | None =>
           TranslateScreen.transcription
             (fst (snd (TranslateScreen.sendAudioForTranscription os uri io
                          reply s)))
           = TranslateScreen.transcription (fst s)
           /\ exists msg,
               alerts (snd (snd (TranslateScreen.sendAudioForTranscription os
                                   uri io reply s)))
               = alerts (snd s) ++ [("Error", msg)]
       end.
Proof.
  intros os uri io reply s.
  pose proof (sendAudioForTranscription_outcome os uri io reply s)
    as (H1 & H2 & _ & H4).
  pose proof (sendAudioForTranscription_effect os uri io reply s) as [H5 _].
  auto.
Qed.

Lemma prefix_append (p s : string) : String.prefix p (p ++ s) = true.
Proof.
  induction p as [| a p IH]; [destruct s; reflexivity |].
  cbn. destruct (ascii_dec a a) as [_ | Hne]; [exact IH | congruence].
Qed.

Lemma index_of_prefix (p s : string) : String.index 0 p (p ++ s) = Some 0%nat.
Proof.
  destruct p as [| a p].
  - destruct s; reflexivity.
  - change (String a p ++ s)%string with (String a (p ++ s)).
    cbn [String.index].
    change (String a (p ++ s)) with (String a p ++ s)%string.
    rewrite prefix_append. reflexivity.
Qed.

Lemma substring_all (s : string) : String.substring 0 (String.length s) s = s.
Proof. induction s as [| a s IH]; cbn; [reflexivity | rewrite IH; reflexivity]. Qed.

Lemma substring_after_prefix (p s : string) :
  String.substring (String.length p)
    (String.length (p ++ s) - String.length p) (p ++ s) = s.
Proof.
  induction p as [| a p IH]; cbn.
  - rewrite Nat.sub_0_r. apply substring_all.
  - exact IH.
Qed.

(** [replace] removes a pattern the string starts with. *)
Lemma replace_prefix (p s : string) : replace p "" (p ++ s) = s.
Proof.
  unfold replace. rewrite index_of_prefix.
  cbn [Nat.add]. rewrite substring_after_prefix.
  destruct (p ++ s)%string; reflexivity.
Qed.

Lemma is_base64_substring (s : string) (n m : nat) :
  is_base64 s = true -> is_base64 (String.substring n m s) = true.
Proof.
  revert n m. induction s as [| a s IH]; intros n m H.
  - destruct n, m; reflexivity.
  - cbn [is_base64] in H. apply andb_prop in H as [Ha Hs].
    destruct n as [| n]; destruct m as [| m]; cbn [String.substring];
      try reflexivity; try (apply IH; exact Hs).
    cbn [is_base64]. rewrite Ha, (IH 0%nat m Hs). reflexivity.
Qed.

(** A pattern with a character outside the base64 alphabet does not occur
    in base64 text, which [replace] then leaves as it is. *)
Lemma replace_base64 (p s : string) :
  is_base64 p = false -> is_base64 s = true -> replace p "" s = s.
Proof.
  intros Hp Hs. unfold replace.
  destruct (String.index 0 p s) as [i |] eqn:Hi; [| reflexivity].
  apply String.index_correct1 in Hi.
  pose proof (is_base64_substring s i (String.length p) Hs) as Hsub.
  rewrite Hi in Hsub. congruence.
Qed.

Lemma base64Content_cases os (content : string) :
  (is_base64 content = true -> base64Content os content = content)
  /\ (forall body : string,
         content = (data_uri_prefix os ++ body)%string ->
         base64Content os content = body).
Proof.
  split.
  - intros H. destruct os; unfold base64Content;
      [apply replace_base64 | apply replace_base64 |]; auto.
  - intros body ->. destruct os; unfold base64Content, data_uri_prefix.
    + apply (replace_prefix "data:audio/vnd.wave;base64," body).
    + apply (replace_prefix "data:audio/aac;base64," body).
    + reflexivity.
Qed.

Lemma sendAudioForTranscription_request os uri io reply
  (s : TranslateScreen.state * world) content :
  files (snd s) uri = Base64 content ->
  network (snd (snd (TranslateScreen.sendAudioForTranscription os uri io
                       reply s)))
  = network (snd s)
      ++ [speech_request os (transcription_locale io (snd s))
            (base64Content os content)].
Proof.
  destruct s as [c w]. cbn [fst snd]. intros Hfile.
  destruct (fetchSettings_frame io w)
    as (l & w1 & Hfetch & Hl & Hfiles & Hnet & _).
  unfold transcription_locale, speech_request, base64Content.
  unfold_translate_screen. cbn [fst snd]. rewrite Hfetch. cbn [fst snd].
  rewrite Hfiles, Hfile, <- Hl. cbn. rewrite ?Hfiles, ?Hfile. cbn.
  rewrite ?Hnet.
  destruct reply as [[o st j] | e]; cbn; rewrite ?Hnet;
    [| destruct os; reflexivity].
  destruct j as [[results |] | e']; cbn;
    [| destruct o, os; reflexivity | destruct os; reflexivity].
  destruct o; cbn; [| destruct os; reflexivity].
  destruct (TranslateScreen.transcripts results); destruct os; reflexivity.
Qed.

(** X12.  For a recording file that can be read, whatever its content,
    exactly one request leaves the device, whatever comes back: WEBM_OPUS
    at 16000 Hz on android and LINEAR16 at 44100 Hz elsewhere, with the
    locale resolved from the settings and the content of the file without
    the first occurrence of the data-URI prefix of the platform.  Content
    that is plain base64 is sent as it was read; content that starts with
    the prefix is sent without it. *)
Theorem recording_is_sent_without_data_uri_prefix :
  forall (os : TranslateScreen.platform) (uri : string) (io : fault)
    (reply : completion (response TranslateScreen.speech_data))
    (s : TranslateScreen.state * world) (content : string),
    files (snd s) uri = Base64 content ->
    network (snd (snd (TranslateScreen.sendAudioForTranscription os uri io
                         reply s)))
    = network (snd s)
        ++ [speech_request os (transcription_locale io (snd s))
              (base64Content os content)]
    /\ (is_base64 content = true -> base64Content os content = content)
    /\ (forall body : string,
           content = (data_uri_prefix os ++ body)%string ->
           base64Content os content = body).
Proof.
  intros os uri io reply s content Hfile.
  split; [apply sendAudioForTranscription_request; exact Hfile |].
  apply base64Content_cases.
Qed.

Lemma recording_is_sent_without_data_uri_prefix_witness :
  network
    (snd (snd (TranslateScreen.sendAudioForTranscription TranslateScreen.ios
                 "file:///recordings/recording-1.wav" None
                 (speech_reply "Bonjour")
                 (TranslateScreen.initial,
                  {| db := db started; file := file started;
                     files := fun _ => Base64 "UklGRg==";
                     console := []; alerts := []; network := [] |}))))
  = [speech_request TranslateScreen.ios "en-US" "UklGRg=="].
Proof.
  destruct (recording_is_sent_without_data_uri_prefix TranslateScreen.ios
              "file:///recordings/recording-1.wav" None
              (speech_reply "Bonjour")
              (TranslateScreen.initial,
               {| db := db started; file := file started;
                  files := fun _ => Base64 "UklGRg==";
                  console := []; alerts := []; network := [] |})
              "UklGRg==" eq_refl) as (Hnet & Hplain & _).
  rewrite (Hplain eq_refl) in Hnet. exact Hnet.
Defined.

(** ** The translation stage, continued *)

Lemma handleTranslate_outcome q reply (s : TranslationForm.state * world) :
  let r := TranslationForm.handleTranslate q reply s in
  fst (snd r) = fst s
  /\ file (snd (snd r)) = file (snd s)
  /\ db (snd (snd r)) = db (snd s)
  /\ match translation_of reply with
     | Some t =>
         fst r
         = Resolved
             (Some {| SpeakerScreen.transcription := q;
                      SpeakerScreen.selectedLanguage :=
                        TranslationForm.selectedLanguage (fst s);
                      SpeakerScreen.translatedText := t |})
         /\ alerts (snd (snd r)) = alerts (snd s)
     | None =>
         fst r = Resolved None
         /\ alerts (snd (snd r))
            = alerts (snd s)
                ++ (if refused_with_null reply
                    then [("Error", "Failed to translate.");
                          ("Error", "Failed to translate.")]
                    else [("Error", "Failed to translate.")])
     end.
Proof.
  destruct s as [c w]. unfold translation_of, refused_with_null. unfold_form.
  unfold fetch, Alert_alert, console_error. cbn [fst snd].
  destruct reply as [[o st j] | e]; cbn; [| auto].
  destruct j as [result | e]; cbn; [| auto].
  destruct o; cbn.
  - destruct result as [| [[| t l] |]]; cbn; auto.
  - destruct result; cbn; rewrite <- ?app_assoc; auto.
Qed.

(** X13.  [handleTranslate] never rejects, sends exactly one request and
    changes neither the form nor the store.  It navigates to the speaker
    screen, without an alert, exactly when the reply is ok and carries a
    first translation, with the transcription, the selected language and
    that translation.  Otherwise it stays and raises the alert "Failed to
    translate.": once, except for a reply that is not ok and has the JSON
    body [null], where reading [result.error] throws after the first
    alert and the handler raises the alert a second time. *)
Theorem translate_navigates_or_alerts :
  forall (q : string)
    (reply : completion (response TranslationForm.translate_body))
    (s : TranslationForm.state * world),
    network (snd (snd (TranslationForm.handleTranslate q reply s)))
    = network (snd s)
        ++ [Translate q (TranslationForm.source_language (fst s))
              (TranslationForm.selectedLanguage (fst s)) "text"]
    /\ fst (snd (TranslationForm.handleTranslate q reply s)) = fst s
    /\ file (snd (snd (TranslationForm.handleTranslate q reply s)))
       = file (snd s)
    /\ match translation_of reply with
       | Some t =>
           fst (TranslationForm.handleTranslate q reply s)
           = Resolved
               (Some {| SpeakerScreen.transcription := q;
                        SpeakerScreen.selectedLanguage :=
                          TranslationForm.selectedLanguage (fst s);
                        SpeakerScreen.translatedText := t |})
           /\ alerts (snd (snd (TranslationForm.handleTranslate q reply s)))
              = alerts (snd s)
       | None =>
           fst (TranslationForm.handleTranslate q reply s) = Resolved None
           /\ alerts (snd (snd (TranslationForm.handleTranslate q reply s)))
              = alerts (snd s)
                  ++ (if refused_with_null reply
                      then [("Error", "Failed to translate.");
                            ("Error", "Failed to translate.")]
                      else [("Error", "Failed to translate.")])
       end.
Proof.
  intros q reply s.
  pose proof (handleTranslate_outcome q reply s) as (H1 & H2 & _ & H4).
  split; [apply handleTranslate_request |]. auto.
Qed.

(** A reply that is not ok with the body [null] raises the alert twice
    and logs the message of the handler, not that of the branch. *)
Example null_body_alerts_twice :
  let r := TranslationForm.handleTranslate "Hello"
             (Resolved {| ok := false; statusText := "Forbidden";
                          json := Resolved TranslationForm.BodyNull |})
             (TranslationForm.initial, started) in
  alerts (snd (snd r))
  = [("Error", "Failed to translate."); ("Error", "Failed to translate.")]
  /\ console (snd (snd r)) = ["Error during translation:"].
Proof. split; reflexivity. Qed.

Lemma pick_cells picks (s : TranslationForm.state * world) :
  snd (pick picks s) = snd s
  /\ TranslationForm.storedLanguage (fst (pick picks s))
     = TranslationForm.storedLanguage (fst s)
  /\ TranslationForm.filteredLanguages (fst (pick picks s))
     = TranslationForm.filteredLanguages (fst s)
  /\ TranslationForm.selectedLanguage (fst (pick picks s))
     = match rev picks with
       | last :: _ => Some last
       | [] => TranslationForm.selectedLanguage (fst s)
       end.
Proof.
  revert s. induction picks as [| v picks IH]; intros s; cbn [pick fold_left];
    [auto |].
  fold (pick picks (snd (TranslationForm.onValueChange v s))).
  destruct (IH (snd (TranslationForm.onValueChange v s)))
    as (H1 & H2 & H3 & H4).
  rewrite H1, H2, H3, H4. cbn [rev].
  repeat split; try reflexivity.
  destruct (rev picks) as [| last others]; reflexivity.
Qed.

(** X14.  After the form read a settings row, however the user changes the
    picker among the languages it offers, the source language and the
    offered languages stay as loaded and the selected target is an offered
    language other than the source: the last one picked, or the
    preselected one. *)
Theorem picked_target_differs_from_source :
  forall (io : fault) (s : TranslationForm.state * world)
    (first : settings_row) (rest : list settings_row) (picks : list string),
    fetched_settings io (snd s) = first :: rest ->
    Forall (fun v =>
              In v (map value
                      (TranslationForm.filteredLanguages (fst (loaded io s)))))
      picks ->
    TranslationForm.source_language (fst (pick picks (loaded io s)))
    = or_default (settings_language first) "en"
    /\ TranslationForm.filteredLanguages (fst (pick picks (loaded io s)))
       = TranslationForm.filteredLanguages (fst (loaded io s))
    /\ exists t,
        TranslationForm.selectedLanguage (fst (pick picks (loaded io s)))
        = Some t
        /\ In t (map value
                   (TranslationForm.filteredLanguages (fst (loaded io s))))
        /\ t <> TranslationForm.source_language
                  (fst (pick picks (loaded io s)))
        /\ (forall last others, rev picks = last :: others -> t = last).
Proof.
  intros io s first rest picks Hfetch Hpicks.
  destruct (pick_cells picks (loaded io s)) as (_ & Hst & Hfl & Hsel).
  pose proof (loadSettings_cells io s) as Hcells. cbn zeta in Hcells.
  rewrite Hfetch in Hcells. destruct Hcells as (Hst0 & Hfl0 & Hsel0).
  fold (loaded io s) in Hst0, Hfl0, Hsel0.
  assert (TranslationForm.source_language (fst (pick picks (loaded io s)))
          = or_default (settings_language first) "en") as Hsrc.
  { unfold TranslationForm.source_language. rewrite Hst, Hst0.
    apply or_default_again. reflexivity. }
  split; [exact Hsrc |]. split; [exact Hfl |].
  assert (forall t,
             In t (map value
                     (TranslationForm.filteredLanguages (fst (loaded io s)))) ->
             t <> TranslationForm.source_language
                    (fst (pick picks (loaded io s)))) as Hne.
  { intros t Hin Heq. rewrite Hsrc in Heq. subst t. rewrite Hfl0 in Hin.
    exact (filter_excludes _ _ Hin). }
  destruct (rev picks) as [| last others] eqn:Hrev.
  - destruct (some_language_left (or_default (settings_language first) "en"))
      as (lang0 & others & Hleft).
    rewrite Hleft in Hsel0. exists (value lang0).
    assert (In (value lang0)
              (map value
                 (TranslationForm.filteredLanguages (fst (loaded io s)))))
      as Hin by (rewrite Hfl0, Hleft; left; reflexivity).
    split; [congruence |]. split; [exact Hin |].
    split; [apply Hne, Hin | discriminate].
  - exists last.
    assert (In last picks) as Hlast
      by (apply in_rev; rewrite Hrev; left; reflexivity).
    rewrite Forall_forall in Hpicks. specialize (Hpicks last Hlast).
    split; [exact Hsel |]. split; [exact Hpicks |].
    split; [apply Hne, Hpicks |].
    intros l o E. congruence.
Qed.

Lemma picked_target_differs_from_source_witness :
  exists t,
    TranslationForm.selectedLanguage
      (fst (pick ["de"; "ja"] (loaded None (TranslationForm.initial, started))))
    = Some t
    /\ t <> "en".
Proof.
  destruct (picked_target_differs_from_source None
              (TranslationForm.initial, started) default_settings []
              ["de"; "ja"] eq_refl) as (Hsrc & _ & t & Ht & _ & Hne & _).
  - constructor; [vm_compute; right; right; left; reflexivity |].
    constructor; [| constructor].
    vm_compute. right. right. right. right. left. reflexivity.
  - exists t. split; [exact Ht |]. rewrite Hsrc in Hne. exact Hne.
Defined.

(** ** From the translation form to the stored record *)

Lemma loaded_frame io (s : TranslationForm.state * world) :
  file (snd (loaded io s)) = file (snd s)
  /\ db (snd (loaded io s)) = db (snd s).
Proof.
  destruct s as [c w]. unfold loaded. cbn [snd].
  destruct (fetchSettings_frame io w)
    as (l & w1 & Hfetch & _ & _ & _ & _ & Hf & Hd).
  unfold_form. cbn [fst snd]. rewrite Hfetch.
  destruct l as [| first rest]; [cbn; auto |].
  destruct (some_language_left (or_default (settings_language first) "en"))
    as (lang0 & others & Hfl).
  cbn -[filter languages]. rewrite Hfl. cbn -[filter languages]. auto.
Qed.

(** X15.  End to end on a working store: after the form read a settings
    row and the user chose among the offered languages, a reply with a
    translation makes [handleTranslate] navigate with a target other than
    the source language; and the speaker screen opened with those
    parameters, when the store has no record for the transcription and
    the target, has appended exactly the record (transcription, target,
    translation as it came) once its first pass is through, provided
    that nothing else acts on the store meanwhile, that the store
    executes no other statement between a lookup that answered null and
    its insert, that the lookup of the first pass is the first to be
    executed, that the insert of the first pass is not refused and that
    the later lookups are answered. *)
Theorem pipeline_persists_translation :
  forall (w : world) (rs : list translation_row)
    (first : settings_row) (rest : list settings_row)
    (picks : list string) (q t : string)
    (reply : completion (response TranslationForm.translate_body))
    (events : list Schedule.event),
    db w = true -> translations (file w) = Some rs ->
    fetched_settings None w = first :: rest ->
    Forall (fun v =>
              In v (map value
                      (TranslationForm.filteredLanguages
                         (fst (loaded None (TranslationForm.initial, w))))))
      picks ->
    translation_of reply = Some t ->
    exists target,
      fst (TranslationForm.handleTranslate q reply (form_after None picks w))
      = Resolved
          (Some {| SpeakerScreen.transcription := q;
                   SpeakerScreen.selectedLanguage := Some target;
                   SpeakerScreen.translatedText := t |})
      /\ target <> or_default (settings_language first) "en"
      /\ let a :=
           Schedule.run
             (Schedule.Navigate
                {| SpeakerScreen.transcription := q;
                   SpeakerScreen.selectedLanguage := Some target;
                   SpeakerScreen.translatedText := t |} :: events)
             (Schedule.boot
                (snd (snd (TranslationForm.handleTranslate q reply
                             (form_after None picks w))))) in
         Forall Schedule.of_pass events ->
         Schedule.undisturbed
           (Schedule.Navigate
              {| SpeakerScreen.transcription := q;
                 SpeakerScreen.selectedLanguage := Some target;
                 SpeakerScreen.translatedText := t |} :: events)
           (Schedule.boot
              (snd (snd (TranslationForm.handleTranslate q reply
                           (form_after None picks w)))))
         = true ->
         Schedule.first_pass_first events = true ->
         Forall Schedule.first_pass_served events ->
         find (SQL.matches q target) rs = None ->
         forall t0,
           nth_error (Schedule.tasks a) O = Some t0 ->
           Schedule.check t0 = Schedule.finished ->
           rows (Schedule.device a) = rs ++ [new_row (file w) rs q target t].
Proof.
  intros w rs first rest picks q t reply events Hdb Hrs Hfetch Hpicks Ht.
  unfold form_after.
  set (s0 := (TranslationForm.initial, w)) in *.
  set (form := pick picks (loaded None s0)).
  assert (Hsel0 : TranslationForm.selectedLanguage (fst form)
                  = match rev picks with
                    | last :: _ => Some last
                    | [] => TranslationForm.selectedLanguage
                              (fst (loaded None s0))
                    end) by apply pick_cells.
  assert (Hst : TranslationForm.storedLanguage (fst form)
                = TranslationForm.storedLanguage (fst (loaded None s0)))
    by apply pick_cells.
  assert (Hw : snd form = snd (loaded None s0)) by apply pick_cells.
  pose proof (loadSettings_cells None s0) as Hcells. cbn zeta in Hcells.
  change (snd s0) with w in Hcells. rewrite Hfetch in Hcells.
  destruct Hcells as (Hst1 & Hfl1 & Hsel1).
  fold (loaded None s0) in Hst1, Hfl1, Hsel1.
  assert (exists target,
             TranslationForm.selectedLanguage (fst form) = Some target
             /\ target <> or_default (settings_language first) "en")
    as (target & Htarget & Hne).
  { assert (forall v,
               In v (map value
                       (TranslationForm.filteredLanguages
                          (fst (loaded None s0)))) ->
               v <> or_default (settings_language first) "en") as Hoff.
    { intros v Hin ->. rewrite Hfl1 in Hin. exact (filter_excludes _ _ Hin). }
    destruct (rev picks) as [| last others] eqn:Hrev.
    - destruct (some_language_left
                  (or_default (settings_language first) "en"))
        as (lang0 & others & Hleft).
      rewrite Hleft in Hsel1. exists (value lang0).
      split; [congruence |]. apply Hoff. rewrite Hfl1, Hleft. left. reflexivity.
    - exists last. split; [exact Hsel0 |]. apply Hoff.
      rewrite Forall_forall in Hpicks. apply Hpicks.
      apply in_rev. rewrite Hrev. left. reflexivity. }
  exists target.
  pose proof (handleTranslate_outcome q reply form) as (_ & Hf & Hd & Hout).
  cbn zeta in Hf, Hd, Hout. rewrite Ht in Hout. destruct Hout as [Hnav _].
  rewrite Htarget in Hnav.
  split; [exact Hnav |]. split; [exact Hne |].
  cbn zeta. intros Hof Hu Hfirst Hserved Hnone t0 Ht0 Hc.
  destruct (loaded_frame None s0) as [Hf0 Hd0]. change (snd s0) with w in *.
  set (w3 := snd (snd (TranslationForm.handleTranslate q reply form))) in *.
  assert (file w3 = file w) as Hfile by (rewrite Hf, Hw; exact Hf0).
  assert (db w3 = db w) as Hdb3 by (rewrite Hd, Hw; exact Hd0).
  rewrite <- Hfile.
  apply (first_pass_through _ w3 _ rs target t0
           (screen_run _ events w3 Hof Hserved Hfirst Hu));
    [congruence | congruence | reflexivity | exact Hnone | exact Ht0
    | exact Hc].
Qed.

Lemma pipeline_persists_translation_witness :
  exists target,
    target <> "en"
    /\ rows (Schedule.device
               (Schedule.run
                  [Schedule.Navigate
                     {| SpeakerScreen.transcription := "Hello";
                        SpeakerScreen.selectedLanguage := Some target;
                        SpeakerScreen.translatedText := "Bonjour" |};
                   Schedule.Lookup 0 None; Schedule.Insert 0 None;
                   Schedule.Reply 0 (chat_reply None)]
                  (Schedule.boot
                     (snd (snd (TranslationForm.handleTranslate "Hello"
                                  (translate_reply "Bonjour")
                                  (form_after None [] started)))))))
       = [] ++ [new_row (file started) [] "Hello" target "Bonjour"].
Proof.
  destruct (pipeline_persists_translation started [] default_settings [] []
              "Hello" "Bonjour" (translate_reply "Bonjour")
              [Schedule.Lookup 0 None; Schedule.Insert 0 None;
               Schedule.Reply 0 (chat_reply None)]
              eq_refl eq_refl eq_refl (Forall_nil _) eq_refl)
    as (target & Hnav & Hne & Hrows).
  exists target. split; [exact Hne |].
  injection Hnav as Htarget.
  cbn zeta in Hrows. rewrite <- Htarget in Hrows |- *.
  apply (Hrows ltac:(repeat constructor) eq_refl eq_refl
           ltac:(repeat constructor) eq_refl
           {| Schedule.screen := 0;
              Schedule.params :=
                {| SpeakerScreen.transcription := "Hello";
                   SpeakerScreen.selectedLanguage := Some "fr";
                   SpeakerScreen.translatedText := "Bonjour" |};
              Schedule.refinedText := "Bonjour";
              Schedule.check := Schedule.finished;
              Schedule.refining := false |} eq_refl eq_refl).
Defined.

(** ** The speaker screen, continued *)

























(** ** Schedules: what the screens show *)









(** ** The microphone button *)

Ltac unfold_microphone :=
  unfold MicrophoneButton.getMicrophonePermission,
    MicrophoneButton.handlePermissionPress, MicrophoneButton.startRecording,
    MicrophoneButton.stopRecording, MicrophoneButton.handleButtonPress,
    MicrophoneButton.setRecording, MicrophoneButton.setRecordingStatus,
    MicrophoneButton.setAudioPermission, MicrophoneButton.call,
    MicrophoneButton.moveAsync in *;
  unfold_async; unfold console_error in *.

Lemma truthy_filePath os env :
  truthy (MicrophoneButton.filePath_of os env) = true.
Proof.
  unfold MicrophoneButton.filePath_of.
  destruct (MicrophoneButton.documentDirectory env); reflexivity.
Qed.

Lemma getMicrophonePermission_outcome reply (s : MicrophoneButton.state * world) :
  MicrophoneButton.getMicrophonePermission reply s
  = match reply with
    | Resolved true =>
        (Resolved tt,
         ({| MicrophoneButton.recording := MicrophoneButton.recording (fst s);
             MicrophoneButton.recordingStatus :=
               MicrophoneButton.recordingStatus (fst s);
             MicrophoneButton.audioPermission := Some true |}, snd s))
    | _ =>
        (Resolved tt,
         (fst s,
          snd (console_error "Error requesting microphone permission:"
                 (snd s))))
    end.
Proof.
  destruct s as [c w]. unfold_microphone.
  destruct reply as [[|] | e]; reflexivity.
Qed.

(** What a press of the microphone button leaves behind. *)
Lemma handleButtonPress_cases os stop start (s : MicrophoneButton.state * world) :
  let r := MicrophoneButton.handleButtonPress os stop start s in
  MicrophoneButton.audioPermission (fst (snd r))
  = MicrophoneButton.audioPermission (fst s)
  /\ alerts (snd (snd r)) = alerts (snd s)
  /\ network (snd (snd r)) = network (snd s)
  /\ file (snd (snd r)) = file (snd s)
  /\ db (snd (snd r)) = db (snd s)
  /\ ((fst r = Resolved None
       /\ files (snd (snd r)) = files (snd s)
       /\ ((MicrophoneButton.recording (fst (snd r))
            = MicrophoneButton.recording (fst s)
            /\ MicrophoneButton.recordingStatus (fst (snd r))
               = MicrophoneButton.recordingStatus (fst s))
           \/ (MicrophoneButton.recording (fst s) = None
               /\ MicrophoneButton.recording (fst (snd r))
                  = Some (MicrophoneButton.newRecording start)
               /\ MicrophoneButton.recordingStatus (fst (snd r))
                  = "recording")))
      \/ exists rec f,
          MicrophoneButton.recording (fst s) = Some rec
          /\ MicrophoneButton.recordingStatus (fst s) = "recording"
          /\ MicrophoneButton.getURI rec = Some f
          /\ files (snd s) f <> NoSuchFile
          /\ fst r = Resolved (Some (MicrophoneButton.filePath_of os stop))
          /\ MicrophoneButton.recording (fst (snd r)) = None
          /\ MicrophoneButton.recordingStatus (fst (snd r)) = "stopped"
          /\ files (snd (snd r))
             = (fun u =>
                  if String.eqb u (MicrophoneButton.filePath_of os stop)
                  then files (snd s) f
                  else if String.eqb u f then NoSuchFile
                       else files (snd s) u)).
Proof.
  destruct s as [[rec st perm] w]. cbn zeta. cbn [fst snd].
  unfold MicrophoneButton.handleButtonPress.
  unfold_microphone. cbn [fst snd MicrophoneButton.recording
    MicrophoneButton.recordingStatus MicrophoneButton.audioPermission].
  assert (forall A B C D E F : Prop, A -> B -> C -> D -> E -> F ->
            A /\ B /\ C /\ D /\ E /\ F) as frame by tauto.
  destruct rec as [[uri] |].
  - destruct (String.eqb st "recording") eqn:Est;
      [apply String.eqb_eq in Est; subst st
      | cbn; apply frame; auto; left; auto].
    destruct stop as [ios nw dir iom iov].
    destruct ios, iom, iov, uri as [f |];
      cbn -[MicrophoneButton.filePath_of];
      try (apply frame; auto; left; auto; fail).
    destruct (files w f) eqn:Hfile;
      cbn -[MicrophoneButton.filePath_of];
      rewrite ?truthy_filePath; cbn -[MicrophoneButton.filePath_of];
      try (apply frame; auto; left; auto; fail).
    all: apply frame; auto; right;
      exists {| MicrophoneButton.getURI := Some f |}, f;
      rewrite Hfile; repeat (split; [solve [auto | discriminate] |]); auto.
  - destruct start as [m pr st' nr]. destruct perm as [[|] |], m, pr, st';
      cbn; apply frame; auto; left; auto 6.
Qed.

Lemma handlePermissionPress_outcome reply (s : MicrophoneButton.state * world) :
  let s' := snd (MicrophoneButton.handlePermissionPress reply s) in
  MicrophoneButton.recording (fst s') = MicrophoneButton.recording (fst s)
  /\ MicrophoneButton.recordingStatus (fst s')
     = MicrophoneButton.recordingStatus (fst s)
  /\ alerts (snd s') = alerts (snd s)
  /\ (console (snd s') = console (snd s)
      \/ console (snd s')
         = console (snd s) ++ ["Error requesting permission:"]).
Proof.
  destruct s as [c w]. unfold_microphone.
  destruct reply as [g | e]; cbn; auto.
Qed.

Lemma handle_without_permission os ev (s : MicrophoneButton.state * world) :
  MicrophoneButton.audioPermission (fst s) = None ->
  MicrophoneButton.handle os ev s = s.
Proof.
  intros H. unfold MicrophoneButton.handle. rewrite H.
  destruct ev; reflexivity.
Qed.

Lemma handle_with_permission os ev (s : MicrophoneButton.state * world) :
  MicrophoneButton.audioPermission (fst s) = Some true ->
  MicrophoneButton.audioPermission (fst (MicrophoneButton.handle os ev s))
  = Some true
  /\ alerts (snd (MicrophoneButton.handle os ev s)) = alerts (snd s).
Proof.
  intros H. unfold MicrophoneButton.handle. rewrite H.
  destruct ev as [reply | stop start]; [auto |].
  destruct (handleButtonPress_cases os stop start s) as (Hp & Ha & _).
  cbn zeta in Hp, Ha. rewrite Hp, Ha. auto.
Qed.

Lemma presses_without_permission os events
  (s : MicrophoneButton.state * world) :
  MicrophoneButton.audioPermission (fst s) = None ->
  fold_left (fun s ev => MicrophoneButton.handle os ev s) events s = s.
Proof.
  revert s. induction events as [| ev events IH]; intros s Hs; cbn;
    [reflexivity |].
  rewrite (handle_without_permission os ev s Hs). apply IH, Hs.
Qed.

Lemma presses_with_permission os events
  (s : MicrophoneButton.state * world) :
  MicrophoneButton.audioPermission (fst s) = Some true ->
  MicrophoneButton.audioPermission
    (fst (fold_left (fun s ev => MicrophoneButton.handle os ev s) events s))
  = Some true
  /\ alerts (snd (fold_left (fun s ev => MicrophoneButton.handle os ev s)
                    events s))
     = alerts (snd s).
Proof.
  revert s. induction events as [| ev events IH]; intros s Hs; cbn; [auto |].
  destruct (handle_with_permission os ev s Hs) as [Hp Ha].
  destruct (IH _ Hp) as [Hp' Ha']. rewrite Hp', Ha', Ha. auto.
Qed.

(** X18.  The permission state of the microphone button is never false:
    it is true when the request at mount resolved with granted, and stays
    null otherwise, because the alert for a denial refers to [Alert],
    which the module does not import.  So the button that asks again is
    never rendered, no alert is ever raised, and after a denial or a
    failed request the component stays as mounted, with one console
    message, whatever the user does. *)
Theorem microphone_permission_is_never_false :
  forall (os : TranslateScreen.platform) (reply : completion bool)
    (events : list MicrophoneButton.event) (w : world),
    MicrophoneButton.audioPermission
      (fst (MicrophoneButton.session os reply events w))
    = match reply with Resolved true => Some true | _ => None end
    /\ alerts (snd (MicrophoneButton.session os reply events w)) = alerts w
    /\ match reply with
       | Resolved true => True
       | _ =>
           MicrophoneButton.session os reply events w
           = (MicrophoneButton.initial,
              snd (console_error "Error requesting microphone permission:" w))
       end.
Proof.
  intros os reply events w. unfold MicrophoneButton.session.
  rewrite getMicrophonePermission_outcome. cbn [fst snd].
  destruct reply as [[|] | e]; cbn [snd].
  - destruct (presses_with_permission os events
                ({| MicrophoneButton.recording := None;
                    MicrophoneButton.recordingStatus := "idle";
                    MicrophoneButton.audioPermission := Some true |}, w)
                eq_refl) as [Hp Ha].
    cbn [snd fst] in Hp, Ha |- *. auto.
  - rewrite presses_without_permission; [| reflexivity]. cbn. auto.
  - rewrite presses_without_permission; [| reflexivity]. cbn. auto.
Qed.

Lemma handleButtonPress_console os stop start
  (s : MicrophoneButton.state * world) :
  recording_consistent (fst s) ->
  ~ In "Failed to navigate due to missing file path" (console (snd s)) ->
  ~ In "Failed to navigate due to missing file path"
      (console (snd (snd (MicrophoneButton.handleButtonPress os stop start s)))).
Proof.
  destruct s as [[rec st perm] w]. unfold recording_consistent.
  cbn [fst snd MicrophoneButton.recording MicrophoneButton.recordingStatus].
  intros Hc Hnot.
  assert (forall l,
             ~ In "Failed to navigate due to missing file path" l ->
             ~ In "Failed to navigate due to missing file path"
                 (console w ++ l)) as Happ.
  { intros l Hl Hin. apply in_app_or in Hin. tauto. }
  unfold MicrophoneButton.handleButtonPress.
  unfold_microphone. cbn [fst snd MicrophoneButton.recording
    MicrophoneButton.recordingStatus MicrophoneButton.audioPermission].
  destruct rec as [[uri] |].
  - destruct (String.eqb st "recording") eqn:Est.
    2:{ exfalso. apply String.eqb_neq in Est.
        destruct Hc as [_ Hc]. specialize (Hc Est). discriminate. }
    destruct stop as [ios nw dir iom iov].
    destruct ios, iom, iov, uri as [f |];
      cbn -[MicrophoneButton.filePath_of];
      try (rewrite <- ?app_assoc; apply Happ; cbn;
           intros H; repeat (destruct H as [H | H]; [discriminate |]);
           exact H).
    destruct (files w f) eqn:Hfile;
      cbn -[MicrophoneButton.filePath_of];
      rewrite ?truthy_filePath; cbn -[MicrophoneButton.filePath_of];
      try exact Hnot;
      try (rewrite <- ?app_assoc; apply Happ; cbn;
           intros H; repeat (destruct H as [H | H]; [discriminate |]);
           exact H).
  - destruct start as [m pr st' nr]. destruct perm as [[|] |], m, pr, st';
      cbn; try exact Hnot;
      try (apply Happ; cbn;
           intros H; repeat (destruct H as [H | H]; [discriminate |]);
           exact H).
Qed.

Lemma handleButtonPress_consistent os stop start
  (s : MicrophoneButton.state * world) :
  recording_consistent (fst s) ->
  recording_consistent
    (fst (snd (MicrophoneButton.handleButtonPress os stop start s))).
Proof.
  intros Hc. unfold recording_consistent in *.
  destruct (handleButtonPress_cases os stop start s)
    as (_ & _ & _ & _ & _ & H). cbn zeta in H.
  destruct H as [(_ & _ & [[-> ->] | (_ & -> & ->)])
                | (rec & f & _ & _ & _ & _ & _ & -> & -> & _)].
  - exact Hc.
  - split; [discriminate | intros H; exfalso; apply H; reflexivity].
  - split; [discriminate | reflexivity].
Qed.

(** X19.  Through every session of the microphone button a recording
    object is held exactly while the status is "recording"; so a press
    either starts a recording or stops the one in progress, the branch
    that logs "Failed to navigate due to missing file path" is never
    taken, and nothing touches the store or the network. *)
Theorem recording_state_is_consistent :
  forall (os : TranslateScreen.platform) (reply : completion bool)
    (events : list MicrophoneButton.event) (w : world),
    ~ In "Failed to navigate due to missing file path" (console w) ->
    recording_consistent (fst (MicrophoneButton.session os reply events w))
    /\ ~ In "Failed to navigate due to missing file path"
           (console (snd (MicrophoneButton.session os reply events w)))
    /\ file (snd (MicrophoneButton.session os reply events w)) = file w
    /\ network (snd (MicrophoneButton.session os reply events w)) = network w.
Proof.
  intros os reply events w Hnot. unfold MicrophoneButton.session.
  set (inv := fun s : MicrophoneButton.state * world =>
                recording_consistent (fst s)
                /\ ~ In "Failed to navigate due to missing file path"
                       (console (snd s))
                /\ file (snd s) = file w /\ network (snd s) = network w).
  assert (forall ev s, inv s -> inv (MicrophoneButton.handle os ev s)) as Hstep.
  { intros ev s (Hc & Hn & Hf & Hnet). unfold MicrophoneButton.handle.
    destruct ev as [r | stop start];
      destruct (MicrophoneButton.audioPermission (fst s)) as [[|] |];
      try (unfold inv; tauto).
    - destruct s as [c w0]. unfold inv, recording_consistent in *.
      unfold_microphone. destruct r as [g | e]; cbn in *;
        repeat split; try tauto;
        try (intros Hin; apply in_app_or in Hin;
             destruct Hin as [Hin | [Hin | []]]; [tauto | discriminate]).
    - destruct (handleButtonPress_cases os stop start s)
        as (_ & _ & Hnet' & Hf' & _). cbn zeta in Hnet', Hf'.
      split; [apply handleButtonPress_consistent, Hc |].
      split; [apply handleButtonPress_console; assumption |].
      split; congruence. }
  assert (forall s, inv s ->
                    inv (fold_left (fun s ev => MicrophoneButton.handle os ev s)
                           events s)) as Hfold.
  { induction events as [| ev events IH]; intros s Hs; cbn; [exact Hs |].
    apply IH, Hstep, Hs. }
  apply Hfold. rewrite getMicrophonePermission_outcome. cbn [fst snd].
  unfold inv, recording_consistent.
  destruct reply as [[|] | e]; cbn;
    (split; [split; [discriminate | reflexivity] |]);
    (split; [| split; reflexivity]); try exact Hnot;
    intros Hin; apply in_app_or in Hin;
    destruct Hin as [Hin | [Hin | []]]; try tauto; discriminate.
Qed.

Lemma recording_state_is_consistent_witness :
  recording_consistent
    (fst (MicrophoneButton.session TranslateScreen.ios (Resolved true)
            [MicrophoneButton.ButtonPress sample_stop sample_start;
             MicrophoneButton.ButtonPress sample_stop sample_start]
            started_with_recording)).
Proof.
  apply (recording_state_is_consistent TranslateScreen.ios (Resolved true)
           [MicrophoneButton.ButtonPress sample_stop sample_start;
            MicrophoneButton.ButtonPress sample_stop sample_start]
           started_with_recording).
  intros [].
Defined.

Lemma handleButtonPress_stops os stop start
  (s : MicrophoneButton.state * world) rec f :
  MicrophoneButton.recording (fst s) = Some rec ->
  MicrophoneButton.recordingStatus (fst s) = "recording" ->
  MicrophoneButton.getURI rec = Some f ->
  files (snd s) f <> NoSuchFile ->
  MicrophoneButton.io_stop stop = None ->
  MicrophoneButton.io_mkdir stop = None ->
  MicrophoneButton.io_move stop = None ->
  fst (MicrophoneButton.handleButtonPress os stop start s)
  = Resolved (Some (MicrophoneButton.filePath_of os stop))
  /\ MicrophoneButton.recording
       (fst (snd (MicrophoneButton.handleButtonPress os stop start s))) = None
  /\ MicrophoneButton.recordingStatus
       (fst (snd (MicrophoneButton.handleButtonPress os stop start s)))
     = "stopped"
  /\ files (snd (snd (MicrophoneButton.handleButtonPress os stop start s)))
       (MicrophoneButton.filePath_of os stop)
     = files (snd s) f.
Proof.
  destruct s as [[r st perm] w]. destruct stop as [ios nw dir iom iov].
  destruct rec as [uri]. cbn [fst snd MicrophoneButton.recording
    MicrophoneButton.recordingStatus MicrophoneButton.getURI
    MicrophoneButton.io_stop MicrophoneButton.io_mkdir
    MicrophoneButton.io_move].
  intros -> -> -> Hfile -> -> ->.
  unfold MicrophoneButton.handleButtonPress.
  unfold_microphone. cbn -[MicrophoneButton.filePath_of].
  destruct (files w f) eqn:E; [congruence | | |];
    cbn -[MicrophoneButton.filePath_of];
    rewrite truthy_filePath; cbn -[MicrophoneButton.filePath_of];
    rewrite String.eqb_refl; auto.
Qed.

(** X20.  From the microphone to the transcription request: when a press
    stops a recording in progress and stopping, creating the directory and
    moving the file do not fail, the press navigates to the translate
    screen with the path [documentDirectory]recordings/recording-[now]
    and the platform's extension, holds no recording any more, and the
    file at that path is the recorded one; the translate screen mounted
    with the path then sends that recording, whatever its content, in the
    encoding of the platform and without the first occurrence of the
    data-URI prefix of the platform: plain base64 content as it was
    recorded, content that starts with the prefix without it. *)
Theorem recorded_audio_reaches_transcription :
  forall (os : TranslateScreen.platform) (stop : MicrophoneButton.stop_env)
    (start : MicrophoneButton.start_env)
    (s : MicrophoneButton.state * world) (rec : MicrophoneButton.Recording)
    (f content : string) (io : fault)
    (reply : completion (response TranslateScreen.speech_data)),
    MicrophoneButton.recording (fst s) = Some rec ->
    MicrophoneButton.recordingStatus (fst s) = "recording" ->
    MicrophoneButton.getURI rec = Some f ->
    files (snd s) f = Base64 content ->
    MicrophoneButton.io_stop stop = None ->
    MicrophoneButton.io_mkdir stop = None ->
    MicrophoneButton.io_move stop = None ->
    fst (MicrophoneButton.handleButtonPress os stop start s)
    = Resolved (Some (MicrophoneButton.filePath_of os stop))
    /\ MicrophoneButton.recording
         (fst (snd (MicrophoneButton.handleButtonPress os stop start s)))
       = None
    /\ network
         (snd (snd (TranslateScreen.effect os
                      (Some (MicrophoneButton.filePath_of os stop)) io reply
                      (TranslateScreen.initial,
                       snd (snd (MicrophoneButton.handleButtonPress os stop
                                   start s))))))
       = network (snd s)
           ++ [speech_request os (transcription_locale io (snd s))
                 (base64Content os content)]
    /\ (is_base64 content = true -> base64Content os content = content)
    /\ (forall body : string,
           content = (data_uri_prefix os ++ body)%string ->
           base64Content os content = body).
Proof.
  intros os stop start s rec f content io reply Hrec Hst Huri Hfile H1 H2 H3.
  assert (files (snd s) f <> NoSuchFile) as Hex by (rewrite Hfile; discriminate).
  destruct (handleButtonPress_stops os stop start s rec f Hrec Hst Huri Hex
              H1 H2 H3) as (Hnav & Hnone & _ & Hmoved).
  destruct (handleButtonPress_cases os stop start s)
    as (_ & _ & Hnet & Hf & Hd & _). cbn zeta in Hnet, Hf, Hd.
  split; [exact Hnav |]. split; [exact Hnone |].
  split; [| apply base64Content_cases].
  set (w' := snd (snd (MicrophoneButton.handleButtonPress os stop start s)))
    in *.
  unfold TranslateScreen.effect. rewrite truthy_filePath.
  unfold detach. cbn [snd].
  rewrite (sendAudioForTranscription_request os _ io reply
             (TranslateScreen.initial, w') content);
    [| cbn [snd]; rewrite Hmoved; exact Hfile].
  cbn [snd]. rewrite Hnet. f_equal. f_equal.
  unfold transcription_locale.
  rewrite (fetched_settings_ext io w' (snd s) Hd Hf).
  reflexivity.
Qed.

Lemma recorded_audio_reaches_transcription_witness :
  network
    (snd (snd (TranslateScreen.effect TranslateScreen.ios
                 (Some (MicrophoneButton.filePath_of TranslateScreen.ios
                          sample_stop))
                 None (speech_reply "Bonjour")
                 (TranslateScreen.initial,
                  snd (snd (MicrophoneButton.handleButtonPress
                              TranslateScreen.ios sample_stop sample_start
                              (recording_state, started_with_recording)))))))
  = network started_with_recording
      ++ [speech_request TranslateScreen.ios
            (transcription_locale None started_with_recording) "UklGRg=="].
Proof.
  destruct (recorded_audio_reaches_transcription TranslateScreen.ios
              sample_stop sample_start
              (recording_state, started_with_recording)
              {| MicrophoneButton.getURI := Some "file:///cache/rec-1.wav" |}
              "file:///cache/rec-1.wav" "data:audio/vnd.wave;base64,UklGRg=="
              None (speech_reply "Bonjour")
              eq_refl eq_refl eq_refl eq_refl eq_refl eq_refl eq_refl)
    as (_ & _ & H & _ & Hprefix).
  rewrite (Hprefix "UklGRg==" eq_refl) in H. exact H.
Defined.

(** ** From the speaker screen to the history and back *)

Lemma history_fetch_runs (s : list translation_row * world) :
  db (snd s) = true -> translations (file (snd s)) <> None ->
  fst (snd (HistoryScreen.fetch None s)) = rows (snd s).
Proof.
  intros Hdb Htab. destruct s as [c w]. cbn [snd] in *.
  unfold HistoryScreen.fetch. unfold_async. cbn [fst snd].
  rewrite (fetchTranslations_runs w Hdb Htab). reflexivity.
Qed.

(** X21.  What a pipeline run stores is what the history reopens: on a
    working store without a record for the pair, once the first pass of
    the speaker screen is through (nothing else acting on the store
    meanwhile, no other statement between a lookup that answered null
    and its insert, the lookup of the first pass executed first, its
    insert not refused, the later lookups answered), the history screen
    lists the old records followed by the new one, and a press on the
    new item navigates to the speaker screen with the parameters of the
    run, the translation as it came and not as it was refined. *)
Theorem history_reopens_the_run :
  forall (p : SpeakerScreen.route_params) (events : list Schedule.event)
    (w : world) (rs : list translation_row) (c : string)
    (t0 : Schedule.task),
    Forall Schedule.of_pass events ->
    Schedule.undisturbed (Schedule.Navigate p :: events) (Schedule.boot w)
    = true ->
    Schedule.first_pass_first events = true ->
    Forall Schedule.first_pass_served events ->
    db w = true -> translations (file w) = Some rs ->
    SpeakerScreen.selectedLanguage p = Some c ->
    find (SQL.matches (SpeakerScreen.transcription p) c) rs = None ->
    nth_error
      (Schedule.tasks
         (Schedule.run (Schedule.Navigate p :: events) (Schedule.boot w)))
      O = Some t0 ->
    Schedule.check t0 = Schedule.finished ->
    fst (snd (HistoryScreen.fetch None
                (HistoryScreen.initial,
                 Schedule.device
                   (Schedule.run (Schedule.Navigate p :: events)
                      (Schedule.boot w)))))
    = rs ++ [new_row (file w) rs (SpeakerScreen.transcription p) c
               (SpeakerScreen.translatedText p)]
    /\ TranslationItem.handlePress
         (new_row (file w) rs (SpeakerScreen.transcription p) c
            (SpeakerScreen.translatedText p))
       = p.
Proof.
  intros p events w rs c t0 Hof Hu Hfirst Hserved Hdb Hrs Hc Hnone Ht0 Hfin.
  pose proof (screen_run p events w Hof Hserved Hfirst Hu) as Hs.
  pose proof (first_pass_through p w _ rs c t0 Hs Hdb Hrs Hc Hnone Ht0 Hfin)
    as Hrows.
  destruct Hs as (Hd & _).
  split.
  - rewrite history_fetch_runs; cbn [snd]; [exact Hrows | congruence |].
    unfold rows in Hrows.
    destruct (translations
                (file (Schedule.device
                         (Schedule.run (Schedule.Navigate p :: events)
                            (Schedule.boot w)))));
      [discriminate |].
    destruct rs; discriminate.
  - destruct p as [o l t]. cbn in Hc. subst l. reflexivity.
Qed.

Lemma history_reopens_the_run_witness :
  fst (snd (HistoryScreen.fetch None
              (HistoryScreen.initial,
               Schedule.device
                 (Schedule.run
                    [Schedule.Navigate bonjour;
                     Schedule.Reply 0 (chat_reply (Some "Hello there"));
                     Schedule.Lookup 0 None; Schedule.Insert 0 None;
                     Schedule.Lookup 1 None]
                    (Schedule.boot started)))))
  = [] ++ [new_row (file started) [] "Bonjour" "en" "Hello"]
  /\ TranslationItem.handlePress
       (new_row (file started) [] "Bonjour" "en" "Hello")
     = bonjour.
Proof.
  apply (history_reopens_the_run bonjour
           [Schedule.Reply 0 (chat_reply (Some "Hello there"));
            Schedule.Lookup 0 None; Schedule.Insert 0 None;
            Schedule.Lookup 1 None]
           started [] "en"
           {| Schedule.screen := 0; Schedule.params := bonjour;
              Schedule.refinedText := "Hello";
              Schedule.check := Schedule.finished;
              Schedule.refining := false |});
    try reflexivity; repeat constructor.
Defined.
